(** * pybinrpc: the BIN-RPC value codec and frame codec

    A shallow embedding of [pybinrpc/support.py] and [pybinrpc/const.py].
    Python integers are [Z], byte strings are lists of [Byte.byte], Python
    [str] objects are lists of Unicode code points, Python floats are the
    kernel's binary64 floats, and a raised exception is an explicit outcome.
    The Frame Layer's read of one request, which is built on [recv_exact] and
    [dec_request], is modelled after them. *)

From Stdlib Require Import Strings.String Strings.Byte.
From Stdlib Require Import ZArith List Lia Bool Floats.
Import ListNotations.

Local Open Scope Z_scope.

(** ** Outcomes of a call *)

(** The messages of the [ValueError]s the module raises itself, and the ones
    that [math.floor] raises on a float that is no number, [settimeout] on a
    timeout that is no number or is negative, and [recv] on a negative
    buffer size. *)
Inductive value_error : Type :=
| InvalidRequestFrame
| InvalidResponseFrame
| UnsupportedType (t : Z)
| FloatNaN
| TimeoutNaN
| TimeoutOutOfRange
| NegativeBufsize.

(** The exception classes that the modelled calls can raise. [OSError] is the
    one [recv_exact] raises itself; [TimeoutError] and [BlockingIOError],
    which [recv] raises, are subclasses of it. [FramingError] is the one the
    Frame Layer gives up with. *)
Inductive exn : Type :=
| StructError
| IndexError
| ValueError (m : value_error)
| UnicodeEncodeError
| OverflowError
| OSError
| TimeoutError
| BlockingIOError
| FramingError.

(** A call returns, raises, or (for the decoders, which recurse on a measure
    that is not structural) runs out of the fuel it was given. *)
Inductive result (A : Type) : Type :=
| Ok (a : A)
| Raise (e : exn)
| Fuel.

Arguments Ok {A} a.
Arguments Raise {A} e.
Arguments Fuel {A}.

Definition bind {A B : Type} (r : result A) (k : A -> result B) : result B :=
  match r with
  | Ok a => k a
  | Raise e => Raise e
  | Fuel => Fuel
  end.

Declare Scope result_scope.
Delimit Scope result_scope with result.
Notation "x <- r ;; k" := (bind r (fun x => k))
  (at level 61, r at next level, right associativity) : result_scope.
Notation "' p <- r ;; k" := (bind r (fun x => let 'p := x in k))
  (at level 61, p pattern, r at next level, right associativity) : result_scope.
Local Open Scope result_scope.

(** ** Bytes *)

Definition bytes : Type := list byte.

Definition byte_to_Z (b : byte) : Z := Z.of_N (Byte.to_N b).

(** The byte with the low eight bits of [z]. *)
Definition byte_of_Z (z : Z) : byte :=
  match Byte.of_N (Z.to_N (z mod 256)) with
  | Some b => b
  | None => x00
  end.

Definition len {A : Type} (l : list A) : Z := Z.of_nat (length l).

(** Python's slice [buf[start:stop]] on a sequence: negative bounds count from
    the end, and both bounds are clamped to the sequence. *)
Definition adjust_index (n i : Z) : Z :=
  if i <? 0 then Z.max 0 (i + n) else Z.min i n.

Definition slice {A : Type} (buf : list A) (start stop : Z) : list A :=
  let n := len buf in
  let a := adjust_index n start in
  let b := adjust_index n stop in
  firstn (Z.to_nat (b - a)) (skipn (Z.to_nat a) buf).

(** [buf[i]]: a negative index counts from the end; out of range is an
    [IndexError]. *)
Definition index (buf : bytes) (i : Z) : result byte :=
  let n := len buf in
  let j := if i <? 0 then i + n else i in
  if (j <? 0) || (n <=? j) then Raise IndexError
  else match nth_error buf (Z.to_nat j) with
       | Some b => Ok b
       | None => Raise IndexError
       end.

(** ** [struct] *)

(** The four big-endian bytes of [n]. *)
Definition be32 (n : Z) : bytes :=
  [byte_of_Z (n / 2 ^ 24); byte_of_Z (n / 2 ^ 16); byte_of_Z (n / 2 ^ 8); byte_of_Z n].

Definition of_be32 (b0 b1 b2 b3 : byte) : Z :=
  byte_to_Z b0 * 2 ^ 24 + byte_to_Z b1 * 2 ^ 16 + byte_to_Z b2 * 2 ^ 8 + byte_to_Z b3.

(** [struct.pack(">I", n)]: [struct.error] outside [0, 2^32). *)
Definition pack_u32 (n : Z) : result bytes :=
  if (0 <=? n) && (n <? 2 ^ 32) then Ok (be32 n) else Raise StructError.

(** [struct.pack(">i", n)]: [struct.error] outside [-2^31, 2^31). *)
Definition pack_i32 (n : Z) : result bytes :=
  if (- 2 ^ 31 <=? n) && (n <? 2 ^ 31) then Ok (be32 (Z.land n 0xFFFFFFFF))
  else Raise StructError.

(** [struct.unpack_from(">I", buf, ofs)[0]]: a negative offset counts from the
    end of the buffer; [struct.error] when four bytes are not there. *)
Definition unpack_from_u32 (buf : bytes) (ofs : Z) : result Z :=
  let n := len buf in
  if (ofs <? 0) && ((0 <? ofs + 4) || (ofs + n <? 0)) then Raise StructError
  else
    let pos := if ofs <? 0 then ofs + n else ofs in
    if n - pos <? 4 then Raise StructError
    else match skipn (Z.to_nat pos) buf with
         | b0 :: b1 :: b2 :: b3 :: _ => Ok (of_be32 b0 b1 b2 b3)
         | _ => Raise StructError
         end.

(** Two's complement reading of an unsigned 32-bit value. *)
Definition to_signed32 (u : Z) : Z :=
  if u <? 2 ^ 31 then u else u - 2 ^ 32.

(** [struct.unpack_from(">i", buf, ofs)[0]]. *)
Definition unpack_from_i32 (buf : bytes) (ofs : Z) : result Z :=
  u <- unpack_from_u32 buf ofs ;; Ok (to_signed32 u).

(** ** Constants ([const.py]) *)

Definition HDR_REQ : bytes := ["B"; "i"; "n"; x00]%byte.
Definition HDR_RES : bytes := ["B"; "i"; "n"; x01]%byte.

Definition T_INTEGER : Z := 0x00000001.
Definition T_BOOL : Z := 0x00000002.
Definition T_STRING : Z := 0x00000003.
Definition T_DOUBLE : Z := 0x00000004.
Definition T_ARRAY : Z := 0x00000100.
Definition T_STRUCT : Z := 0x00000101.
Definition T_BINARY : Z := 0x0000000E.

(** ** [support.py]: helpers *)

Definition _be_u32 (n : Z) : result bytes := pack_u32 n.

Definition _rd_u32 (buf : bytes) (ofs : Z) : result (Z * Z) :=
  v <- unpack_from_u32 buf ofs ;; Ok (v, ofs + 4).

(** ** Text *)

(** A Python [str]: its Unicode code points. *)
Definition pystr : Type := list Z.

(** A text encoding, as the two calls of the module use it:
    [s.encode(encoding, errors="strict")], which fails with a
    [UnicodeEncodeError] ([None]), and [b.decode(encoding, errors="replace")],
    which always returns. *)
Record codec : Type := Codec {
  str_encode : pystr -> option bytes;
  bytes_decode : bytes -> pystr
}.

(** U+FFFD, which the decoders put where the bytes are malformed. *)
Definition REPLACEMENT : Z := 0xFFFD.

(** *** latin-1 *)

Fixpoint latin1_encode (s : pystr) : option bytes :=
  match s with
  | [] => Some []
  | c :: s' =>
      if (0 <=? c) && (c <? 256) then option_map (cons (byte_of_Z c)) (latin1_encode s')
      else None
  end.

Definition latin1 : codec := Codec latin1_encode (map byte_to_Z).

(** *** ascii *)

Fixpoint ascii_encode (s : pystr) : option bytes :=
  match s with
  | [] => Some []
  | c :: s' =>
      if (0 <=? c) && (c <? 128) then option_map (cons (byte_of_Z c)) (ascii_encode s')
      else None
  end.

Definition ascii_decode (b : bytes) : pystr :=
  map (fun x => if byte_to_Z x <? 128 then byte_to_Z x else REPLACEMENT) b.

Definition ascii : codec := Codec ascii_encode ascii_decode.

(** *** utf-8 *)

Definition utf8_encode_char (c : Z) : option bytes :=
  if c <? 0 then None
  else if c <? 0x80 then Some [byte_of_Z c]
  else if c <? 0x800 then
    Some [byte_of_Z (0xC0 + c / 64); byte_of_Z (0x80 + c mod 64)]
  else if c <? 0x10000 then
    if (0xD800 <=? c) && (c <=? 0xDFFF) then None
    else
      Some [byte_of_Z (0xE0 + c / 4096); byte_of_Z (0x80 + (c / 64) mod 64);
            byte_of_Z (0x80 + c mod 64)]
  else if c <? 0x110000 then
    Some [byte_of_Z (0xF0 + c / 262144); byte_of_Z (0x80 + (c / 4096) mod 64);
          byte_of_Z (0x80 + (c / 64) mod 64); byte_of_Z (0x80 + c mod 64)]
  else None.

Fixpoint utf8_encode (s : pystr) : option bytes :=
  match s with
  | [] => Some []
  | c :: s' =>
      match utf8_encode_char c, utf8_encode s' with
      | Some b, Some bs => Some (b ++ bs)
      | _, _ => None
      end
  end.

Definition in_range (lo hi x : Z) : bool := (lo <=? x) && (x <=? hi).

(** The range of the second byte, which depends on the lead byte (it excludes
    overlong forms, surrogates and code points above U+10FFFF). *)
Definition utf8_second_ok (c0 c1 : Z) : bool :=
  if c0 =? 0xE0 then in_range 0xA0 0xBF c1
  else if c0 =? 0xED then in_range 0x80 0x9F c1
  else if c0 =? 0xF0 then in_range 0x90 0xBF c1
  else if c0 =? 0xF4 then in_range 0x80 0x8F c1
  else in_range 0x80 0xBF c1.

(** [errors="replace"]: each maximal ill-formed prefix of a sequence becomes
    one U+FFFD, and decoding resumes at the byte that broke it. *)
Fixpoint utf8_decode (bs : bytes) : pystr :=
  match bs with
  | [] => []
  | b0 :: r0 =>
      let c0 := byte_to_Z b0 in
      if c0 <? 0x80 then c0 :: utf8_decode r0
      else if in_range 0xC2 0xDF c0 then
        match r0 with
        | [] => [REPLACEMENT]
        | b1 :: r1 =>
            let c1 := byte_to_Z b1 in
            if in_range 0x80 0xBF c1
            then (c0 - 0xC0) * 64 + (c1 - 0x80) :: utf8_decode r1
            else REPLACEMENT :: utf8_decode r0
        end
      else if in_range 0xE0 0xEF c0 then
        match r0 with
        | [] => [REPLACEMENT]
        | b1 :: r1 =>
            let c1 := byte_to_Z b1 in
            if utf8_second_ok c0 c1 then
              match r1 with
              | [] => [REPLACEMENT]
              | b2 :: r2 =>
                  let c2 := byte_to_Z b2 in
                  if in_range 0x80 0xBF c2
                  then (c0 - 0xE0) * 4096 + (c1 - 0x80) * 64 + (c2 - 0x80)
                       :: utf8_decode r2
                  else REPLACEMENT :: utf8_decode r1
              end
            else REPLACEMENT :: utf8_decode r0
        end
      else if in_range 0xF0 0xF4 c0 then
        match r0 with
        | [] => [REPLACEMENT]
        | b1 :: r1 =>
            let c1 := byte_to_Z b1 in
            if utf8_second_ok c0 c1 then
              match r1 with
              | [] => [REPLACEMENT]
              | b2 :: r2 =>
                  let c2 := byte_to_Z b2 in
                  if in_range 0x80 0xBF c2 then
                    match r2 with
                    | [] => [REPLACEMENT]
                    | b3 :: r3 =>
                        let c3 := byte_to_Z b3 in
                        if in_range 0x80 0xBF c3
                        then (c0 - 0xF0) * 262144 + (c1 - 0x80) * 4096
                             + (c2 - 0x80) * 64 + (c3 - 0x80)
                             :: utf8_decode r3
                        else REPLACEMENT :: utf8_decode r2
                    end
                  else REPLACEMENT :: utf8_decode r1
              end
            else REPLACEMENT :: utf8_decode r0
        end
      else REPLACEMENT :: utf8_decode r0
  end.

Definition utf8 : codec := Codec utf8_encode utf8_decode.

(** *** utf-8-sig *)





Definition DEFAULT_ENCODING : codec := utf8.

(** A [str] literal, from its UTF-8 bytes. *)
Definition text (s : String.string) : pystr :=
  utf8_decode (String.list_byte_of_string s).

(** ** Floats *)

(** [float(z)] for a Python integer: the nearest double, or an
    [OverflowError] when there is none. *)
Definition float_of_int (z : Z) : result float :=
  let f := SF2Prim (binary_normalize prec emax z 0 false) in
  if is_infinity f then Raise OverflowError else Ok f.

(** [int(x)] for a float: truncation towards zero. *)
Definition int_of_float (x : float) : result Z :=
  match Prim2SF x with
  | S754_nan => Raise (ValueError FloatNaN)
  | S754_infinity _ => Raise OverflowError
  | S754_zero _ => Ok 0
  | S754_finite s m e =>
      let a := if 0 <=? e then Zpos m * 2 ^ e else Zpos m / 2 ^ (- e) in
      Ok (if s then - a else a)
  end.

(** [math.floor(x)]. *)
Definition math_floor (x : float) : result Z :=
  match Prim2SF x with
  | S754_nan => Raise (ValueError FloatNaN)
  | S754_infinity _ => Raise OverflowError
  | S754_zero _ => Ok 0
  | S754_finite s m e =>
      if 0 <=? e then Ok (if s then - (Zpos m * 2 ^ e) else Zpos m * 2 ^ e)
      else Ok (if s then - ((Zpos m + 2 ^ (- e) - 1) / 2 ^ (- e)) else Zpos m / 2 ^ (- e))
  end.

(** The float that [2 ** k] is in a product with a float: for [k < 0] Python's
    integer power already is the float [2.0 ** k] (zero once it underflows); for
    [0 <= k] it is an integer, converted when multiplied, which overflows from
    [2 ** 1024] on. *)
Definition float_of_pow2 (k : Z) : result float :=
  if 1024 <=? k then Raise OverflowError else Ok (Z.ldexp one k).

(** ** Values *)

(** The host values the codec handles: the five kinds with an encoding of
    their own, the float, tuples (encoded like lists), and any other object,
    of which only the text [str()] gives matters. A [dict] is the list of its
    items in insertion order. *)
#[local] Unset Elimination Schemes.
Inductive value : Type :=
| VBool (b : bool)
| VInt (n : Z)
| VFloat (x : float)
| VStr (s : pystr)
| VList (a : list value)
| VTuple (a : list value)
| VDict (d : list (pystr * value))
| VOther (repr : pystr).
#[local] Set Elimination Schemes.

Fixpoint pystr_eqb (s t : pystr) : bool :=
  match s, t with
  | [], [] => true
  | c :: s', d :: t' => (c =? d) && pystr_eqb s' t'
  | _, _ => false
  end.

Fixpoint bytes_eqb (a b : bytes) : bool :=
  match a, b with
  | [], [] => true
  | x :: a', y :: b' => Byte.eqb x y && bytes_eqb a' b'
  | _, _ => false
  end.

(** [d[key] = val] on a dict: a key already there keeps its place. *)
Fixpoint dict_set (d : list (pystr * value)) (key : pystr) (val : value)
  : list (pystr * value) :=
  match d with
  | [] => [(key, val)]
  | (k, v) :: d' =>
      if pystr_eqb key k then (k, val) :: d' else (k, v) :: dict_set d' key val
  end.

(** ** [support.py]: encoders *)

Definition _b (s : pystr) (encoding : codec) : result bytes :=
  match str_encode encoding s with
  | Some b => Ok b
  | None => Raise UnicodeEncodeError
  end.

Definition enc_string (s : pystr) (encoding : codec) : result bytes :=
  b <- _b s encoding ;;
  t <- _be_u32 T_STRING ;;
  n <- _be_u32 (len b) ;;
  Ok (t ++ n ++ b).

Definition enc_bool (v : bool) : result bytes :=
  t <- _be_u32 T_BOOL ;;
  Ok (t ++ (if v then [x01] else [x00])).

Definition enc_integer (n : Z) : result bytes :=
  t <- _be_u32 T_INTEGER ;;
  w <- _be_u32 (Z.land n 0xFFFFFFFF) ;;
  Ok (t ++ w).

Section Encoders.

(** [math.log(x, base)] of the C library, on the arguments it gets here
    (positive, infinite or not a number), where it never raises. *)
Variable math_log : float -> float -> float.

Definition _enc_double_parts (value : float) : result (Z * Z) :=
  if (value =? 0)%float then Ok (0, 0)
  else
    fl <- math_floor (math_log (abs value) 2%float) ;;
    let exponent := fl + 1 in
    p <- float_of_pow2 (- exponent) ;;
    q <- float_of_int (Z.shiftl 1 30) ;;
    mantissa <- int_of_float ((value * p) * q)%float ;;
    Ok (mantissa, exponent).

Definition enc_double (v : float) : result bytes :=
  '(m, e) <- _enc_double_parts v ;;
  t <- _be_u32 T_DOUBLE ;;
  eb <- pack_i32 e ;;
  mb <- pack_u32 (Z.land m 0xFFFFFFFF) ;;
  Ok (t ++ eb ++ mb).

Section Items.
Variable enc : value -> result bytes.
Variable encoding : codec.

(** The loop of [enc_array]. *)
Fixpoint enc_array_items (a : list value) : result bytes :=
  match a with
  | [] => Ok []
  | el :: a' =>
      b <- enc el ;;
      bs <- enc_array_items a' ;;
      Ok (b ++ bs)
  end.

(** The loop of [enc_struct]. *)
Fixpoint enc_struct_items (d : list (pystr * value)) : result bytes :=
  match d with
  | [] => Ok []
  | (k, v) :: d' =>
      kb <- _b k encoding ;;
      n <- _be_u32 (len kb) ;;
      b <- enc v ;;
      bs <- enc_struct_items d' ;;
      Ok (n ++ kb ++ b ++ bs)
  end.
End Items.

Fixpoint enc_data (v : value) (encoding : codec) {struct v} : result bytes :=
  match v with
  | VBool b => enc_bool b
  | VInt n => enc_integer n
  | VFloat x => enc_double x
  | VStr s => enc_string s encoding
  | VList a | VTuple a =>
      (* enc_array *)
      t <- _be_u32 T_ARRAY ;;
      n <- _be_u32 (len a) ;;
      items <- enc_array_items (fun el => enc_data el encoding) a ;;
      Ok (t ++ n ++ items)
  | VDict d =>
      (* enc_struct *)
      t <- _be_u32 T_STRUCT ;;
      n <- _be_u32 (len d) ;;
      items <- enc_struct_items (fun el => enc_data el encoding) encoding d ;;
      Ok (t ++ n ++ items)
  | VOther repr => enc_string repr encoding
  end.

Definition enc_array (a : list value) (encoding : codec) : result bytes :=
  enc_data (VList a) encoding.

Definition enc_struct (d : list (pystr * value)) (encoding : codec) : result bytes :=
  enc_data (VDict d) encoding.

Definition enc_request (method : pystr) (params : list value) (encoding : codec)
  : result bytes :=
  m <- _b method encoding ;;
  n <- _be_u32 (len m) ;;
  c <- _be_u32 (len params) ;;
  ps <- enc_array_items (fun p => enc_data p encoding) params ;;
  let body := n ++ m ++ c ++ ps in
  let total := 8 + len body in
  t <- _be_u32 total ;;
  Ok (HDR_REQ ++ t ++ body).

(** [ret] is [None] or a value. *)
Definition enc_response (ret : option value) (encoding : codec) : result bytes :=
  payload <- match ret with
             | None => enc_string [] encoding
             | Some v => enc_data v encoding
             end ;;
  s <- _be_u32 0 ;;
  let body := s ++ payload in
  let total := 8 + len body in
  t <- _be_u32 total ;;
  Ok (HDR_RES ++ t ++ body).

End Encoders.


(** ** [support.py]: decoders *)

Definition _dec_double (buf : bytes) (ofs : Z) : result (float * Z) :=
  e <- unpack_from_i32 buf ofs ;;
  let ofs := ofs + 4 in
  '(mu32, ofs) <- _rd_u32 buf ofs ;;
  m <- float_of_int mu32 ;;
  q <- float_of_int (Z.shiftl 1 30) ;;
  p <- float_of_pow2 e ;;
  Ok (((m / q) * p)%float, ofs).

Definition _dec_string (buf : bytes) (ofs : Z) (encoding : codec) : result (pystr * Z) :=
  '(length, ofs) <- _rd_u32 buf ofs ;;
  let s := bytes_decode encoding (slice buf ofs (ofs + length)) in
  Ok (s, ofs + length).

Definition _dec_bool (buf : bytes) (ofs : Z) : result (bool * Z) :=
  b <- index buf ofs ;;
  Ok (byte_to_Z b =? 1, ofs + 1).

Definition _dec_int (buf : bytes) (ofs : Z) : result (Z * Z) :=
  '(v, ofs) <- _rd_u32 buf ofs ;;
  if negb (Z.land v 0x80000000 =? 0)
  then Ok (- (Z.land (Z.lnot v + 1) 0xFFFFFFFF), ofs)
  else Ok (v, ofs).

(** [dec_data] recurses on what is left of the buffer, and its two loops run
    [n] times for a count [n] read from the wire: the three are one recursion
    on a fuel. [dec_data] below gives it one unit per byte of the buffer and
    one more, which is never used up ([dec_data_fuel_enough]). *)
Fixpoint dec_data_fuel (fuel : nat) (buf : bytes) (encoding : codec) (ofs : Z)
  {struct fuel} : result (value * Z) :=
  match fuel with
  | O => Fuel
  | S fuel' =>
      '(t, ofs) <- _rd_u32 buf ofs ;;
      if t =? T_STRING then
        '(s, ofs) <- _dec_string buf ofs encoding ;; Ok (VStr s, ofs)
      else if t =? T_BOOL then
        '(b, ofs) <- _dec_bool buf ofs ;; Ok (VBool b, ofs)
      else if t =? T_INTEGER then
        '(n, ofs) <- _dec_int buf ofs ;; Ok (VInt n, ofs)
      else if t =? T_DOUBLE then
        '(x, ofs) <- _dec_double buf ofs ;; Ok (VFloat x, ofs)
      else if t =? T_ARRAY then
        '(n, ofs) <- _rd_u32 buf ofs ;;
        '(outl, ofs) <- dec_array_loop fuel' buf encoding n ofs [] ;;
        Ok (VList outl, ofs)
      else if t =? T_STRUCT then
        '(n, ofs) <- _rd_u32 buf ofs ;;
        '(outd, ofs) <- dec_struct_loop fuel' buf encoding n ofs [] ;;
        Ok (VDict outd, ofs)
      else Raise (ValueError (UnsupportedType t))
  end

(** [for _ in range(n): val, ofs = dec_data(...); outl.append(val)] *)
with dec_array_loop (fuel : nat) (buf : bytes) (encoding : codec) (n ofs : Z)
  (outl : list value) {struct fuel} : result (list value * Z) :=
  if n <=? 0 then Ok (outl, ofs)
  else
    match fuel with
    | O => Fuel
    | S fuel' =>
        '(val, ofs) <- dec_data_fuel fuel' buf encoding ofs ;;
        dec_array_loop fuel' buf encoding (n - 1) ofs (outl ++ [val])
    end

(** [for _ in range(n): key, ofs = _dec_string(...); val, ofs = dec_data(...);
    outd[key] = val] *)
with dec_struct_loop (fuel : nat) (buf : bytes) (encoding : codec) (n ofs : Z)
  (outd : list (pystr * value)) {struct fuel} : result (list (pystr * value) * Z) :=
  if n <=? 0 then Ok (outd, ofs)
  else
    match fuel with
    | O => Fuel
    | S fuel' =>
        '(key, ofs) <- _dec_string buf ofs encoding ;;
        '(val, ofs) <- dec_data_fuel fuel' buf encoding ofs ;;
        dec_struct_loop fuel' buf encoding (n - 1) ofs (dict_set outd key val)
    end.

Definition dec_data (buf : bytes) (encoding : codec) (ofs : Z) : result (value * Z) :=
  dec_data_fuel (S (length buf)) buf encoding ofs.

(** The loop of [dec_request]. *)
Fixpoint dec_params_loop (fuel : nat) (body : bytes) (encoding : codec) (n ofs : Z)
  (params : list value) {struct fuel} : result (list value) :=
  if n <=? 0 then Ok params
  else
    match fuel with
    | O => Fuel
    | S fuel' =>
        '(v, ofs) <- dec_data body encoding ofs ;;
        dec_params_loop fuel' body encoding (n - 1) ofs (params ++ [v])
    end.

(** What [dec_request] does with the body, once the header is accepted. *)
Definition dec_request_body (body : bytes) (encoding : codec) : result (pystr * list value) :=
  let ofs := 0 in
  '(method, ofs) <- _dec_string body ofs encoding ;;
  '(n, ofs) <- _rd_u32 body ofs ;;
  params <- dec_params_loop (S (length body)) body encoding n ofs [] ;;
  Ok (method, params).

Definition dec_request (frame : bytes) (encoding : codec) : result (pystr * list value) :=
  if len frame <? 8 then Raise (ValueError InvalidRequestFrame)
  else if negb (bytes_eqb (slice frame 0 4) (slice HDR_REQ 0 4))
  then Raise (ValueError InvalidRequestFrame)
  else
    l <- _be_u32 (len frame) ;;
    if negb (bytes_eqb (slice frame 4 8) l) then Raise (ValueError InvalidRequestFrame)
    else dec_request_body (slice frame 8 (len frame)) encoding.

(** The result is [None] or a value. *)
Definition dec_response (frame : bytes) : result (option value) :=
  if len frame <? 8 then Raise (ValueError InvalidResponseFrame)
  else if negb (bytes_eqb (slice frame 0 4) (slice HDR_RES 0 4))
  then Raise (ValueError InvalidResponseFrame)
  else
    l <- _be_u32 (len frame) ;;
    if negb (bytes_eqb (slice frame 4 8) l) then Raise (ValueError InvalidResponseFrame)
    else
      let body := slice frame 8 (len frame) in
      let ofs := 0 in
      '(_status, ofs) <- _rd_u32 body ofs ;;
      if len body <=? ofs then Ok None
      else
        '(v, _) <- dec_data body DEFAULT_ENCODING ofs ;;
        Ok (Some v).

(** ** Sockets *)

(** A connected stream socket, as the receiving side has it: the chunks of
    bytes that are still to arrive, each with the seconds the receiver has to
    wait for it once it asks; what the peer does after the last chunk, which
    is to close the connection after so many seconds or to stay silent; the
    timeout that [settimeout] has set; and, of the platform, the exception
    with which it refuses a timeout that its C time types do not hold. *)
Record socket : Type := Socket {
  arriving : list (float * bytes);
  closing : option float;
  sock_timeout : float;
  time_error : float -> option exn
}.

(** The bytes that are still to arrive. *)
Definition stream (sock : socket) : bytes := concat (map snd (arriving sock)).

(** [sock.settimeout(timeout)] for a float: a [ValueError] for a NaN, the
    platform's exception for a number its C time types do not hold, and a
    [ValueError] for a negative number. *)
Definition settimeout (sock : socket) (timeout : float) : result socket :=
  if is_nan timeout then Raise (ValueError TimeoutNaN)
  else
    match time_error sock timeout with
    | Some e => Raise e
    | None =>
        if (timeout <? 0)%float then Raise (ValueError TimeoutOutOfRange)
        else Ok (Socket (arriving sock) (closing sock) timeout (time_error sock))
    end.

(** What arrives after [delay] seconds is there within the timeout. With the
    timeout 0 the socket does not wait: only what is there already is. *)
Definition in_time (timeout delay : float) : bool := (delay <=? timeout)%float.

(** The exception of a [recv] that finds nothing within the timeout:
    [BlockingIOError] on a socket that does not wait, [TimeoutError] on one
    that has waited. *)
Definition no_data (timeout : float) : exn :=
  if (timeout =? 0)%float then BlockingIOError else TimeoutError.

(** [sock.recv(bufsize)]: at most [bufsize] bytes of what arrives next, when
    it arrives within the timeout of the socket, and no byte once the peer
    has closed. What a chunk holds beyond [bufsize] is there for the next
    call. *)
Definition recv (sock : socket) (bufsize : Z) : result (bytes * socket) :=
  if bufsize <? 0 then Raise (ValueError NegativeBufsize)
  else if bufsize =? 0 then Ok ([], sock)
  else
    match arriving sock with
    | [] =>
        match closing sock with
        | Some delay =>
            if in_time (sock_timeout sock) delay
            then Ok ([], Socket [] (Some 0%float) (sock_timeout sock) (time_error sock))
            else Raise (no_data (sock_timeout sock))
        | None => Raise (no_data (sock_timeout sock))
        end
    | (delay, chunk) :: rest =>
        if negb (in_time (sock_timeout sock) delay) then Raise (no_data (sock_timeout sock))
        else if len chunk <=? bufsize
        then Ok (chunk, Socket rest (closing sock) (sock_timeout sock) (time_error sock))
        else Ok (firstn (Z.to_nat bufsize) chunk,
                 Socket ((0%float, skipn (Z.to_nat bufsize) chunk) :: rest)
                   (closing sock) (sock_timeout sock) (time_error sock))
    end.

(** The loop of [recv_exact]; an iteration takes a whole chunk or completes
    the data, so one unit of fuel per chunk and one more is enough
    ([recv_exact_fuel_enough]). *)
Fixpoint recv_exact_loop (fuel : nat) (sock : socket) (n : Z) (data : bytes)
  {struct fuel} : result (bytes * socket) :=
  if len data <? n then
    match fuel with
    | O => Fuel
    | S fuel' =>
        '(chunk, sock) <- recv sock (n - len data) ;;
        if len chunk =? 0 then Raise OSError
        else recv_exact_loop fuel' sock n (data ++ chunk)
    end
  else Ok (data, sock).

(** Returns the bytes and the socket as it is left. *)
Definition recv_exact (sock : socket) (n : Z) (timeout : float)
  : result (bytes * socket) :=
  sock <- settimeout sock timeout ;;
  recv_exact_loop (S (length (arriving sock))) sock n [].

(** ** The Frame Layer *)

(** An exception that a decoder raises when the buffer ends too early:
    [struct.error] from [unpack_from], [IndexError] from [buf[ofs]]. *)
Definition truncation (e : exn) : bool :=
  match e with
  | StructError | IndexError => true
  | _ => false
  end.


(** Modelled from the spec: the Frame Layer's read of one request
    (pybinrpc/server.py, which the test of the tolerance drives, is missing).
    The spec has it read the eight header bytes and check the magic, read the
    [declared_length - 8] body bytes the header claims, and attempt the
    decode; when the decode fails as it does on a truncated body, it reads
    further bytes from the socket, grows the body and decodes again, and it
    gives up with a [FramingError] once a budget of extra bytes is spent. The
    decode is [dec_request] on the whole frame, its length field set to what
    was read so far. *)
Fixpoint extend_and_decode (fuel : nat) (sock : socket) (budget : Z)
  (magic body : bytes) (encoding : codec) {struct fuel} : result (pystr * list value) :=
  l <- _be_u32 (8 + len body) ;;
  match dec_request (magic ++ l ++ body) encoding with
  | Ok r => Ok r
  | Raise e =>
      if negb (truncation e) then Raise e
      else if budget <=? 0 then Raise FramingError
      else
        match fuel with
        | O => Fuel
        | S fuel' =>
            '(chunk, sock) <- recv sock budget ;;
            if len chunk =? 0 then Raise OSError
            else
              extend_and_decode fuel' sock (budget - len chunk) magic (body ++ chunk)
                encoding
        end
  | Fuel => Fuel
  end.

(** Modelled from the spec: see [extend_and_decode]. *)
Definition read_request (sock : socket) (budget : Z) (timeout : float) (encoding : codec)
  : result (pystr * list value) :=
  '(hdr, sock) <- recv_exact sock 8 timeout ;;
  let magic := slice hdr 0 4 in
  if negb (bytes_eqb magic HDR_REQ || bytes_eqb magic HDR_RES) then Raise FramingError
  else
    '(declared, _) <- _rd_u32 hdr 4 ;;
    '(body, sock) <- recv_exact sock (declared - 8) timeout ;;
    extend_and_decode (S (length (arriving sock))) sock budget magic body encoding.

(** ** Vocabulary of the properties *)

(** The six type tags [dec_data] knows. *)
Definition recognized_tag (t : Z) : bool :=
  (t =? T_INTEGER) || (t =? T_BOOL) || (t =? T_STRING) || (t =? T_DOUBLE)
  || (t =? T_ARRAY) || (t =? T_STRUCT).

(** A stand-in for [math.log(x, base)] where an instance of it is needed: the
    exponent of [x], that is, the integer part of its base-2 logarithm for a
    positive finite [x]. *)
Definition log2_floor (x base : float) : float :=
  let e := snd (Z.frexp x) - 1 in
  if 0 <=? e then of_uint63 (Uint63.of_Z e)
  else (- (of_uint63 (Uint63.of_Z (- e))))%float.

(** A code point that UTF-8 encodes: any but the surrogates. *)
Definition scalar (c : Z) : bool :=
  (0 <=? c) && (c <? 0x110000) && negb (in_range 0xD800 0xDFFF c).

(** The text [s] survives the encoding: it can be encoded, and its bytes are
    decoded to [s] again. *)
Definition text_ok (encoding : codec) (s : pystr) : bool :=
  match str_encode encoding s with
  | Some b => pystr_eqb (bytes_decode encoding b) s
  | None => false
  end.

Fixpoint mem_str (k : pystr) (l : list pystr) : bool :=
  match l with
  | [] => false
  | k' :: l' => pystr_eqb k k' || mem_str k l'
  end.

(** The keys of a [dict] are distinct. *)
Fixpoint distinct (l : list pystr) : bool :=
  match l with
  | [] => true
  | k :: l' => negb (mem_str k l') && distinct l'
  end.

(** The values of the round trip: 32-bit signed integers, Bools, Strings that
    survive the encoding, and lists and string-keyed dicts of these. *)
Fixpoint representable (encoding : codec) (v : value) {struct v} : bool :=
  match v with
  | VBool _ => true
  | VInt n => (- 2 ^ 31 <=? n) && (n <? 2 ^ 31)
  | VStr s => text_ok encoding s
  | VList a => forallb (representable encoding) a
  | VDict d =>
      distinct (map fst d)
      && forallb (fun kv => match kv with
                            | (k, v') => text_ok encoding k && representable encoding v'
                            end) d
  | VFloat _ | VTuple _ | VOther _ => false
  end.

(** [rest] is what the buffer holds from the offset on. *)
Definition at_offset (buf : bytes) (ofs : Z) (rest : bytes) : Prop :=
  exists pre : bytes, buf = pre ++ rest /\ len pre = ofs.

(** What the round trip states of one value, at some fuel and anywhere in a
    buffer. *)
Definition round_trips (math_log : float -> float -> float) (encoding : codec)
  (v : value) : Prop :=
  forall bs : bytes,
    enc_data math_log v encoding = Ok bs ->
    exists fuel : nat,
      forall (buf : bytes) (ofs : Z) (rest : bytes),
        at_offset buf ofs (bs ++ rest) ->
        dec_data_fuel fuel buf encoding ofs = Ok (v, ofs + len bs).


(** A struct that holds an array that holds a struct:
    [{"a": [1, {"k": "é", "j": True}], "b": -5}]. *)
Definition nested_example : value :=
  VDict [(text "a", VList [VInt 1; VDict [(text "k", VStr (text "é"));
                                           (text "j", VBool true)]]);
         (text "b", VInt (-5))].

(** Structural induction on values, through the lists they nest. *)
Section ValueInd.

Variable P : value -> Prop.
Hypothesis HBool : forall b, P (VBool b).
Hypothesis HInt : forall n, P (VInt n).
Hypothesis HFloat : forall x, P (VFloat x).
Hypothesis HStr : forall s, P (VStr s).
Hypothesis HList : forall a, Forall P a -> P (VList a).
Hypothesis HTuple : forall a, Forall P a -> P (VTuple a).
Hypothesis HDict : forall d, Forall (fun kv => P (snd kv)) d -> P (VDict d).
Hypothesis HOther : forall repr, P (VOther repr).

Fixpoint value_ind (v : value) : P v :=
  match v with
  | VBool b => HBool b
  | VInt n => HInt n
  | VFloat x => HFloat x
  | VStr s => HStr s
  | VList a =>
      HList a ((fix all (l : list value) : Forall P l :=
                  match l with
                  | [] => Forall_nil P
                  | x :: l' => Forall_cons x (value_ind x) (all l')
                  end) a)
  | VTuple a =>
      HTuple a ((fix all (l : list value) : Forall P l :=
                   match l with
                   | [] => Forall_nil P
                   | x :: l' => Forall_cons x (value_ind x) (all l')
                   end) a)
  | VDict d =>
      HDict d ((fix all (l : list (pystr * value)) : Forall (fun kv => P (snd kv)) l :=
                  match l with
                  | [] => Forall_nil _
                  | kv :: l' => Forall_cons kv (value_ind (snd kv)) (all l')
                  end) d)
  | VOther repr => HOther repr
  end.

End ValueInd.


(** The outcome is such an exception. *)
Definition cut_short {A : Type} (r : result A) : Prop :=
  exists e : exn, r = Raise e /\ truncation e = true.

(** How a decoder's outcome [rP] on a buffer compares with its outcome [rF] on
    a longer buffer that starts with the same bytes: where the longer one
    gives a result, the shorter one is cut short or ends at the same offset;
    where the longer one is cut short, so is the shorter one. *)
Definition same_end {A : Type} (rP rF : result (A * Z)) : Prop :=
  match rF with
  | Ok (_, e) => cut_short rP \/ exists x : A, rP = Ok (x, e)
  | Raise e => truncation e = true -> cut_short rP
  | Fuel => True
  end.


Section LastHolds.
Context {A : Type}.
Variable f : A -> bool.

(** [f] holds of the last element of a list that has one. *)
Fixpoint last_holds (l : list A) : bool :=
  match l with
  | [] => false
  | x :: l' =>
      match l' with
      | [] => f x
      | _ :: _ => last_holds l'
      end
  end.
End LastHolds.

(** The encoding of the value ends with the bytes of a text: the value is a
    String whose text takes at least one byte, or a list or dict whose last
    element is such a value. *)
Fixpoint trailing_text (encoding : codec) (v : value) {struct v} : bool :=
  match v with
  | VStr s | VOther s =>
      match str_encode encoding s with
      | Some [] => false
      | _ => true
      end
  | VList a | VTuple a => last_holds (trailing_text encoding) a
  | VDict d => last_holds (fun kv => match kv with
                                     | (_, v') => trailing_text encoding v'
                                     end) d
  | VBool _ | VInt _ | VFloat _ => false
  end.

(** The buffer holds, from the offset on, all of [bs] but its last byte, and
    ends there. *)
Definition one_byte_short (buf : bytes) (ofs : Z) (bs : bytes) : Prop :=
  exists pre : bytes, buf = pre ++ removelast bs /\ len pre = ofs.


(** What being one byte short does to the decoding of one value, at every
    fuel from some fuel on. *)
Definition cut_when_short (math_log : float -> float -> float) (encoding : codec)
  (v : value) : Prop :=
  forall bs : bytes,
    enc_data math_log v encoding = Ok bs ->
    exists fuel0 : nat,
      forall fuel : nat,
        (fuel0 <= fuel)%nat ->
        forall (buf : bytes) (ofs : Z),
          one_byte_short buf ofs bs ->
          cut_short (dec_data_fuel fuel buf encoding ofs).


(** The frame with its total-length field overwritten, as the test of the
    tolerance builds it: [frame[:4] + struct.pack(">I", declared) + frame[8:]]. *)
Definition underreport (frame : bytes) (declared : Z) : bytes :=
  slice frame 0 4 ++ be32 declared ++ slice frame 8 (len frame).

(** The chunk holds bytes and is there within the timeout. *)
Definition timely (timeout : float) (dc : float * bytes) : Prop :=
  snd dc <> [] /\ in_time timeout (fst dc) = true.

(** The bytes [data] arrive on the socket, in chunks of any sizes (none is
    empty), each within the timeout. *)
Definition arrives (timeout : float) (sock : socket) (data : bytes) : Prop :=
  stream sock = data /\ Forall (timely timeout) (arriving sock).

(** [settimeout] takes the timeout: it is a number, not negative, that the
    platform's C time types hold. *)
Definition accepted (sock : socket) (timeout : float) : Prop :=
  is_nan timeout = false /\ (timeout <? 0)%float = false
  /\ time_error sock timeout = None.

(** The value that comes back for [v]: [enc_data] writes a tuple as it writes
    a list and any other object as the text [str()] gives, and [dec_data]
    returns lists and strings. *)
Fixpoint as_decoded (v : value) {struct v} : value :=
  match v with
  | VBool _ | VInt _ | VFloat _ | VStr _ => v
  | VList a | VTuple a => VList (map as_decoded a)
  | VDict d => VDict (map (fun kv => match kv with
                                     | (k, v') => (k, as_decoded v')
                                     end) d)
  | VOther repr => VStr repr
  end.

(** The values [dec_data] builds: Integers of 32 bits, no tuple and no other
    object, and dicts with distinct keys. *)
Fixpoint decoded_shape (v : value) {struct v} : bool :=
  match v with
  | VBool _ | VFloat _ | VStr _ => true
  | VInt n => (- 2 ^ 31 <=? n) && (n <? 2 ^ 31)
  | VList a => forallb decoded_shape a
  | VDict d =>
      distinct (map fst d)
      && forallb (fun kv => match kv with
                            | (_, v') => decoded_shape v'
                            end) d
  | VTuple _ | VOther _ => false
  end.

(** The exceptions that come out of decoding a value: [struct.error] and
    [IndexError] where the buffer ends, [OverflowError] from the arithmetic of
    a Double, and the [ValueError] of an unsupported type tag. *)
Definition decode_error (e : exn) : bool :=
  match e with
  | StructError | IndexError | OverflowError | ValueError (UnsupportedType _) => true
  | _ => false
  end.

(** Whatever the call raises satisfies [P]. *)
Definition raises_only {A : Type} (P : exn -> bool) (r : result A) : Prop :=
  forall e : exn, r = Raise e -> P e = true.

(** The outcome of a decoder with the offset it returns moved by [k]. *)
Definition shifted {A : Type} (k : Z) (r : result (A * Z)) : result (A * Z) :=
  match r with
  | Ok (x, ofs) => Ok (x, k + ofs)
  | Raise e => Raise e
  | Fuel => Fuel
  end.

(** The bytes of the text, when it can be encoded, are few enough for the
    32-bit length field. *)
Definition text_fits (encoding : codec) (s : pystr) : bool :=
  match str_encode encoding s with
  | Some b => len b <? 2 ^ 32
  | None => true
  end.

(** Every length that [enc_data] writes for the value fits its 32-bit field:
    the bytes of each text, the elements of each list and the items of each
    dict. *)
Fixpoint lengths_fit (encoding : codec) (v : value) {struct v} : bool :=
  match v with
  | VBool _ | VInt _ | VFloat _ => true
  | VStr s | VOther s => text_fits encoding s
  | VList a | VTuple a => (len a <? 2 ^ 32) && forallb (lengths_fit encoding) a
  | VDict d =>
      (len d <? 2 ^ 32)
      && forallb (fun kv => match kv with
                            | (k, v') => text_fits encoding k && lengths_fit encoding v'
                            end) d
  end.

(** The sign bit of the float is not set, or the float is no number. *)
Definition sign_clear (x : spec_float) : bool :=
  match x with
  | S754_zero s | S754_infinity s | S754_finite s _ _ => negb s
  | S754_nan => true
  end.

(** * Properties *)

(** Decides the integer comparisons of the goal, where the context settles
    them. *)
Ltac zbool :=
  repeat match goal with
    | |- context [?a <? ?b] => destruct (Z.ltb_spec a b); try lia
    | |- context [?a <=? ?b] => destruct (Z.leb_spec a b); try lia
    | |- context [?a =? ?b] => destruct (Z.eqb_spec a b); try lia
    end.

(** ** Bytes and [struct] *)

Lemma byte_to_Z_range (b : byte) : 0 <= byte_to_Z b < 256.
Proof.
  unfold byte_to_Z. pose proof (Byte.to_N_bounded b). lia.
Qed.

Lemma byte_to_of_Z (z : Z) : byte_to_Z (byte_of_Z z) = z mod 256.
Proof.
  unfold byte_to_Z, byte_of_Z.
  assert (Hr : 0 <= z mod 256 < 256) by (apply Z.mod_pos_bound; lia).
  destruct (Byte.of_N (Z.to_N (z mod 256))) as [b|] eqn:E.
  - apply Byte.to_of_N in E. rewrite E. lia.
  - apply Byte.of_N_None_iff in E. lia.
Qed.

Lemma byte_of_to_Z (b : byte) : byte_of_Z (byte_to_Z b) = b.
Proof.
  unfold byte_of_Z. pose proof (byte_to_Z_range b) as Hr.
  rewrite Z.mod_small by lia. unfold byte_to_Z.
  rewrite N2Z.id, Byte.of_to_N. reflexivity.
Qed.

Lemma len_app {A : Type} (l1 l2 : list A) : len (l1 ++ l2) = len l1 + len l2.
Proof. unfold len. rewrite length_app. lia. Qed.

Lemma len_nonneg {A : Type} (l : list A) : 0 <= len l.
Proof. unfold len. lia. Qed.

Lemma len_be32 (n : Z) : len (be32 n) = 4.
Proof. reflexivity. Qed.

Lemma of_be32_be32 (n : Z) :
  0 <= n < 2 ^ 32 ->
  of_be32 (byte_of_Z (n / 2 ^ 24)) (byte_of_Z (n / 2 ^ 16)) (byte_of_Z (n / 2 ^ 8))
    (byte_of_Z n) = n.
Proof.
  intros Hn. unfold of_be32. rewrite !byte_to_of_Z.
  change (2 ^ 32) with 4294967296 in Hn.
  change (2 ^ 24) with 16777216. change (2 ^ 16) with 65536. change (2 ^ 8) with 256.
  Z.to_euclidean_division_equations. lia.
Qed.

Lemma of_be32_range (b0 b1 b2 b3 : byte) : 0 <= of_be32 b0 b1 b2 b3 < 2 ^ 32.
Proof.
  unfold of_be32.
  pose proof (byte_to_Z_range b0). pose proof (byte_to_Z_range b1).
  pose proof (byte_to_Z_range b2). pose proof (byte_to_Z_range b3).
  change (2 ^ 32) with 4294967296.
  change (2 ^ 24) with 16777216. change (2 ^ 16) with 65536. change (2 ^ 8) with 256.
  lia.
Qed.

Lemma skipn_len_app {A : Type} (pre l : list A) : skipn (Z.to_nat (len pre)) (pre ++ l) = l.
Proof.
  unfold len. rewrite Nat2Z.id, skipn_app, skipn_all, Nat.sub_diag. reflexivity.
Qed.

(** Four bytes written by [be32] are read back where they were written. *)
Lemma unpack_from_u32_at (pre post : bytes) (n : Z) :
  0 <= n < 2 ^ 32 ->
  unpack_from_u32 (pre ++ be32 n ++ post) (len pre) = Ok n.
Proof.
  intros Hn. unfold unpack_from_u32.
  pose proof (len_nonneg pre) as Hp. pose proof (len_nonneg post) as Hq.
  destruct (len pre <? 0) eqn:E; [lia|]. cbn [andb].
  rewrite !len_app, len_be32.
  destruct (len pre + (4 + len post) - len pre <? 4) eqn:E2; [lia|].
  rewrite skipn_len_app. cbn [be32 app]. rewrite of_be32_be32 by assumption. reflexivity.
Qed.

Lemma _rd_u32_at (pre post : bytes) (n : Z) :
  0 <= n < 2 ^ 32 ->
  _rd_u32 (pre ++ be32 n ++ post) (len pre) = Ok (n, len pre + 4).
Proof.
  intros Hn. unfold _rd_u32. rewrite unpack_from_u32_at by assumption. reflexivity.
Qed.

Lemma _be_u32_ok (n : Z) (b : bytes) :
  _be_u32 n = Ok b -> 0 <= n < 2 ^ 32 /\ b = be32 n.
Proof.
  unfold _be_u32, pack_u32. destruct ((0 <=? n) && (n <? 2 ^ 32)) eqn:E; [|discriminate].
  intros [= <-]. split; [lia|reflexivity].
Qed.

Lemma _be_u32_in_range (n : Z) : 0 <= n < 2 ^ 32 -> _be_u32 n = Ok (be32 n).
Proof.
  intros Hn. unfold _be_u32, pack_u32.
  destruct ((0 <=? n) && (n <? 2 ^ 32)) eqn:E; [reflexivity|lia].
Qed.

(** A read that succeeds found its four bytes inside the buffer, and returns
    an unsigned 32-bit value. *)
Lemma _rd_u32_ok (buf : bytes) (ofs v ofs' : Z) :
  _rd_u32 buf ofs = Ok (v, ofs') ->
  ofs' = ofs + 4 /\ - len buf <= ofs <= len buf - 4 /\ 0 <= v < 2 ^ 32.
Proof.
  unfold _rd_u32, unpack_from_u32. pose proof (len_nonneg buf).
  destruct ((ofs <? 0) && ((0 <? ofs + 4) || (ofs + len buf <? 0))) eqn:E1;
    [discriminate|].
  destruct (len buf - (if ofs <? 0 then ofs + len buf else ofs) <? 4) eqn:E2;
    [discriminate|].
  destruct (skipn _ buf) as [|b0 [|b1 [|b2 [|b3 r]]]]; try discriminate.
  cbn [bind]. intros [= <- <-]. pose proof (of_be32_range b0 b1 b2 b3).
  destruct (ofs <? 0) eqn:E3; lia.
Qed.

(** ** Integers *)

Lemma land_mask32 (n : Z) : Z.land n 0xFFFFFFFF = n mod 2 ^ 32.
Proof. change 0xFFFFFFFF with (Z.ones 32). apply Z.land_ones. lia. Qed.

Lemma land_sign_bit (u : Z) :
  0 <= u < 2 ^ 32 ->
  (Z.land u 0x80000000 =? 0) = (u <? 2 ^ 31).
Proof.
  intros Hu.
  assert (E : Z.land u 0x80000000 = if Z.testbit u 31 then 2 ^ 31 else 0).
  { apply Z.bits_inj'. intros i Hi. rewrite Z.land_spec.
    change 0x80000000 with (2 ^ 31). rewrite Z.pow2_bits_eqb by lia.
    destruct (Z.eqb_spec 31 i) as [<-|Hne].
    - destruct (Z.testbit u 31) eqn:Eb; cbn [andb].
      + rewrite Z.pow2_bits_eqb by lia. reflexivity.
      + rewrite Z.bits_0. reflexivity.
    - rewrite andb_false_r. destruct (Z.testbit u 31).
      + rewrite Z.pow2_bits_eqb by lia. symmetry. apply Z.eqb_neq. exact Hne.
      + rewrite Z.bits_0. reflexivity. }
  rewrite E. rewrite Z.testbit_odd, Z.shiftr_div_pow2 by lia.
  change (2 ^ 32) with 4294967296 in Hu. change (2 ^ 31) with 2147483648.
  destruct (u <? 2147483648) eqn:Elt.
  - rewrite Z.div_small by lia. reflexivity.
  - assert (Hq : u / 2147483648 = 1) by (Z.to_euclidean_division_equations; lia).
    rewrite Hq. reflexivity.
Qed.

Lemma _dec_int_signed (buf : bytes) (ofs u ofs' : Z) :
  _rd_u32 buf ofs = Ok (u, ofs') ->
  _dec_int buf ofs = Ok (to_signed32 u, ofs').
Proof.
  intros H. unfold _dec_int. rewrite H. cbn [bind].
  apply _rd_u32_ok in H. destruct H as (_ & _ & Hu).
  rewrite land_sign_bit by assumption. unfold to_signed32.
  destruct (u <? 2 ^ 31) eqn:E; cbn [negb]; [reflexivity|].
  rewrite land_mask32. do 2 f_equal.
  replace (Z.lnot u + 1) with (- u) by (unfold Z.lnot; lia).
  change (2 ^ 32) with 4294967296 in *. change (2 ^ 31) with 2147483648 in *.
  Z.to_euclidean_division_equations. lia.
Qed.

(** C10: [enc_integer] returns for every integer [n], whatever its size, and
    writes [n] modulo 2^32 after the type tag; [_dec_int] reads from these four
    bytes the one value of [-2^31, 2^31 - 1] that is congruent to [n] modulo
    2^32. Integers out of the 32-bit range wrap and nothing is raised. *)
Theorem enc_integer_wraps (n : Z) :
  exists r : Z,
    enc_integer n = Ok (be32 T_INTEGER ++ be32 (n mod 2 ^ 32)) /\
    (forall pre post : bytes,
        _dec_int (pre ++ be32 (n mod 2 ^ 32) ++ post) (len pre) = Ok (r, len pre + 4)) /\
    - 2 ^ 31 <= r < 2 ^ 31 /\
    (r - n) mod 2 ^ 32 = 0 /\
    (forall r' : Z, - 2 ^ 31 <= r' < 2 ^ 31 -> (r' - n) mod 2 ^ 32 = 0 -> r' = r).
Proof.
  exists (to_signed32 (n mod 2 ^ 32)).
  assert (Hu : 0 <= n mod 2 ^ 32 < 2 ^ 32) by (apply Z.mod_pos_bound; lia).
  split; [|split].
  - unfold enc_integer. rewrite land_mask32.
    rewrite (_be_u32_in_range T_INTEGER) by (cbv; split; congruence).
    rewrite (_be_u32_in_range (n mod 2 ^ 32)) by assumption. reflexivity.
  - intros pre post. apply _dec_int_signed. apply _rd_u32_at. assumption.
  - unfold to_signed32.
    change (2 ^ 32) with 4294967296 in *. change (2 ^ 31) with 2147483648 in *.
    destruct (n mod 4294967296 <? 2147483648) eqn:E;
      (split; [|split]); try intros r' Hr' Hc;
      Z.to_euclidean_division_equations; lia.
Qed.

(** ** Booleans *)

Lemma index_at (pre post : bytes) (b : byte) : index (pre ++ b :: post) (len pre) = Ok b.
Proof.
  unfold index. pose proof (len_nonneg pre). pose proof (len_nonneg post).
  rewrite len_app.
  assert (Hl : len (b :: post) = 1 + len post) by (unfold len; cbn [length]; lia).
  rewrite Hl. zbool. cbn [orb].
  unfold len at 1. rewrite Nat2Z.id.
  rewrite nth_error_app2, Nat.sub_diag by lia. reflexivity.
Qed.

(** C4, as the code has it: the decoded Bool is true exactly when the stored
    byte is 1; every other byte, zero or not, is decoded as false. *)
Theorem _dec_bool_true_iff_one (pre post : bytes) (b : byte) :
  exists r : bool,
    _dec_bool (pre ++ b :: post) (len pre) = Ok (r, len pre + 1) /\
    (r = true <-> b = x01).
Proof.
  exists (byte_to_Z b =? 1). unfold _dec_bool. rewrite index_at. cbn [bind].
  split; [reflexivity|]. split.
  - intros H. apply Z.eqb_eq in H. rewrite <- (byte_of_to_Z b), H. reflexivity.
  - intros ->. reflexivity.
Qed.

(** C4, as the claim has it, fails: the stored byte 2 is not zero and is
    decoded as false, by [_dec_bool] and by [dec_data] on a Bool. *)
Lemma _dec_bool_nonzero_false :
  byte_to_Z x02 <> 0 /\
  _dec_bool [x02] 0 = Ok (false, 1) /\
  dec_data (be32 T_BOOL ++ [x02]) DEFAULT_ENCODING 0 = Ok (VBool false, 5).
Proof. repeat split. discriminate. Qed.

(** ** Type tags *)

(** C7: when the four bytes at the offset are a tag other than the six
    recognized ones, [dec_data] raises the [ValueError] for an unsupported
    type and returns no value. *)
Theorem dec_data_unsupported_tag (buf : bytes) (encoding : codec) (ofs t ofs' : Z) :
  _rd_u32 buf ofs = Ok (t, ofs') ->
  recognized_tag t = false ->
  dec_data buf encoding ofs = Raise (ValueError (UnsupportedType t)).
Proof.
  intros Hrd Htag. unfold dec_data. cbn [dec_data_fuel]. rewrite Hrd. cbn [bind].
  unfold recognized_tag in Htag.
  repeat (apply orb_false_elim in Htag; destruct Htag as [Htag ?]).
  repeat match goal with H : (_ =? _) = false |- _ => rewrite H; clear H end.
  reflexivity.
Qed.

Lemma dec_data_unsupported_tag_witness :
  _rd_u32 (be32 T_BINARY) 0 = Ok (T_BINARY, 4) /\
  recognized_tag T_BINARY = false /\
  dec_data (be32 T_BINARY) DEFAULT_ENCODING 0 = Raise (ValueError (UnsupportedType T_BINARY)).
Proof.
  split; [reflexivity|]. split; [reflexivity|].
  apply (dec_data_unsupported_tag (be32 T_BINARY) DEFAULT_ENCODING 0 T_BINARY 4);
    reflexivity.
Defined.

(** ** Doubles *)

(** C8: the double 0.0 is encoded with exponent 0 and mantissa 0 (and so is
    -0.0, which equals it): these are the parts [_enc_double_parts] returns,
    and the eight bytes [enc_double] writes after the type tag. *)
Theorem enc_double_zero (math_log : float -> float -> float) :
  _enc_double_parts math_log 0%float = Ok (0, 0) /\
  _enc_double_parts math_log (-0)%float = Ok (0, 0) /\
  enc_double math_log 0%float = Ok (be32 T_DOUBLE ++ be32 0 ++ be32 0).
Proof. repeat split. Qed.

(** C3 fails on negative doubles. [enc_double] writes the two's complement of
    a negative mantissa, and [_dec_double] reads the mantissa back as an
    unsigned number: -1.0 is encoded as exponent 1, mantissa 0xE0000000, and
    decoded as 7.0. The only fact about [math.log] this uses is that the
    logarithm of 1.0 is 0.0. *)
Theorem double_negative_one_decodes_as_seven (math_log : float -> float -> float) :
  math_log 1%float 2%float = 0%float ->
  _enc_double_parts math_log (-1)%float = Ok (- 2 ^ 29, 1) /\
  enc_double math_log (-1)%float = Ok (be32 T_DOUBLE ++ be32 1 ++ be32 0xE0000000) /\
  dec_data (be32 T_DOUBLE ++ be32 1 ++ be32 0xE0000000) DEFAULT_ENCODING 0
  = Ok (VFloat 7%float, 12).
Proof.
  intros Hlog.
  assert (Hp : _enc_double_parts math_log (-1)%float = Ok (- 2 ^ 29, 1)).
  { unfold _enc_double_parts.
    change ((-1 =? 0)%float) with false. cbv iota.
    change (abs (-1)%float) with 1%float. rewrite Hlog. reflexivity. }
  split; [exact Hp|]. split.
  - unfold enc_double. rewrite Hp. reflexivity.
  - reflexivity.
Qed.

Lemma double_negative_one_decodes_as_seven_witness :
  log2_floor 1%float 2%float = 0%float /\
  enc_double log2_floor (-1)%float = Ok (be32 T_DOUBLE ++ be32 1 ++ be32 0xE0000000) /\
  dec_data (be32 T_DOUBLE ++ be32 1 ++ be32 0xE0000000) DEFAULT_ENCODING 0
  = Ok (VFloat 7%float, 12).
Proof.
  split; [reflexivity|].
  destruct (double_negative_one_decodes_as_seven log2_floor) as (_ & He & Hd);
    [reflexivity|].
  split; [exact He|exact Hd].
Defined.

(** ** The result monad *)

Lemma bind_ok {A B : Type} (r : result A) (k : A -> result B) (b : B) :
  bind r k = Ok b -> exists a : A, r = Ok a /\ k a = Ok b.
Proof.
  destruct r as [a| |]; cbn [bind]; intros H; [|discriminate..].
  exists a. split; [reflexivity|exact H].
Qed.

(** Splits a successful chain of binds into its successful steps. *)
Ltac inv_ok :=
  repeat match goal with
    | H : bind _ _ = Ok _ |- _ =>
        let a := fresh "a" in
        let E := fresh "E" in
        apply bind_ok in H; destruct H as (a & E & H)
    | H : (let '(_, _) := ?p in _) = Ok _ |- _ => destruct p
    | H : Ok _ = Ok _ |- _ => injection H as H
    end.

(** ** Frames *)

Lemma slice_header_length (h t body : bytes) :
  len h = 4 -> len t = 4 -> slice (h ++ t ++ body) 4 8 = t.
Proof.
  intros Hh Ht. unfold slice, adjust_index. rewrite !len_app, Hh, Ht.
  pose proof (len_nonneg body). zbool.
  replace (Z.min 4 (4 + (4 + len body))) with (len h) by lia.
  rewrite skipn_len_app.
  replace (Z.min 8 (4 + (4 + len body)) - len h) with (len t) by lia.
  unfold len. rewrite Nat2Z.id, firstn_app, Nat.sub_diag, firstn_all. cbn [firstn].
  apply app_nil_r.
Qed.

(** C5: the total-length field that [enc_request] and [enc_response] write is
    the length of the frame they return, which is the 8 header bytes plus the
    body; whenever they return a frame, bytes 4 to 8 of it are that length in
    big-endian and [_rd_u32] reads it back. *)
Theorem enc_total_length_is_frame_length
  (math_log : float -> float -> float) (encoding : codec)
  (method : pystr) (params : list value) (ret : option value) (frame : bytes) :
  enc_request math_log method params encoding = Ok frame \/
  enc_response math_log ret encoding = Ok frame ->
  exists magic body : bytes,
    len magic = 4 /\
    frame = magic ++ be32 (8 + len body) ++ body /\
    len frame = 8 + len body /\
    slice frame 4 8 = be32 (len frame) /\
    _rd_u32 frame 4 = Ok (len frame, 8).
Proof.
  assert (Hgen : forall magic body t,
             len magic = 4 -> _be_u32 (8 + len body) = Ok t ->
             frame = magic ++ t ++ body ->
             exists magic body : bytes,
               len magic = 4 /\
               frame = magic ++ be32 (8 + len body) ++ body /\
               len frame = 8 + len body /\
               slice frame 4 8 = be32 (len frame) /\
               _rd_u32 frame 4 = Ok (len frame, 8)).
  { intros magic body t Hm Ht ->. apply _be_u32_ok in Ht. destruct Ht as [Hr ->].
    exists magic, body.
    assert (Hl : len (magic ++ be32 (8 + len body) ++ body) = 8 + len body)
      by (rewrite !len_app, len_be32; lia).
    rewrite Hl. repeat split; try assumption.
    - apply slice_header_length; [assumption|reflexivity].
    - pose proof (_rd_u32_at magic body (8 + len body) Hr) as Hrd.
      rewrite Hm in Hrd. exact Hrd. }
  intros [H|H].
  - unfold enc_request in H. inv_ok. subst frame.
    eapply (Hgen HDR_REQ); [reflexivity|eassumption|reflexivity].
  - unfold enc_response in H. inv_ok. subst frame.
    eapply (Hgen HDR_RES); [reflexivity|eassumption|reflexivity].
Qed.

Lemma enc_total_length_is_frame_length_witness :
  exists frame : bytes,
    enc_request log2_floor (text "event")
      [VStr (text "iface"); VStr (text "CUX3900001:1"); VStr (text "STATE"); VBool true]
      ascii = Ok frame /\
    len frame = 72 /\
    _rd_u32 frame 4 = Ok (72, 8).
Proof.
  destruct (enc_request log2_floor (text "event")
              [VStr (text "iface"); VStr (text "CUX3900001:1"); VStr (text "STATE");
               VBool true] ascii) as [frame| |] eqn:E; [|discriminate E..].
  exists frame. split; [reflexivity|].
  destruct (enc_total_length_is_frame_length log2_floor ascii (text "event")
              [VStr (text "iface"); VStr (text "CUX3900001:1"); VStr (text "STATE");
               VBool true] None frame (or_introl E))
    as (magic & body & _ & _ & _ & _ & Hrd).
  assert (Hl : len frame = 72) by (vm_compute in E; injection E as <-; reflexivity).
  rewrite Hl in Hrd. split; [exact Hl|exact Hrd].
Defined.

(** ** The decoders advance *)

Lemma _dec_string_ok (buf : bytes) (encoding : codec) (ofs : Z) (s : pystr) (ofs' : Z) :
  _dec_string buf ofs encoding = Ok (s, ofs') ->
  exists length : Z,
    _rd_u32 buf ofs = Ok (length, ofs + 4) /\
    0 <= length < 2 ^ 32 /\
    - len buf <= ofs <= len buf - 4 /\
    ofs' = ofs + 4 + length /\
    s = bytes_decode encoding (slice buf (ofs + 4) (ofs + 4 + length)).
Proof.
  unfold _dec_string. intros H. inv_ok.
  pose proof (_rd_u32_ok _ _ _ _ E) as (-> & Hb & Hr). subst.
  eexists. repeat split; try eassumption; lia.
Qed.

Lemma index_ok (buf : bytes) (i : Z) (b : byte) :
  index buf i = Ok b -> - len buf <= i < len buf.
Proof.
  unfold index. pose proof (len_nonneg buf).
  destruct (i <? 0) eqn:E; zbool; cbn [orb]; try discriminate; intros _; lia.
Qed.

Lemma _dec_bool_ok (buf : bytes) (ofs : Z) (b : bool) (ofs' : Z) :
  _dec_bool buf ofs = Ok (b, ofs') -> - len buf <= ofs < len buf /\ ofs' = ofs + 1.
Proof.
  unfold _dec_bool. intros H. inv_ok. apply index_ok in E. lia.
Qed.

Lemma _dec_int_ok (buf : bytes) (ofs n ofs' : Z) :
  _dec_int buf ofs = Ok (n, ofs') -> - len buf <= ofs <= len buf - 4 /\ ofs' = ofs + 4.
Proof.
  unfold _dec_int. intros H. inv_ok. apply _rd_u32_ok in E. destruct E as (-> & Hb & _).
  destruct (negb _); inv_ok; lia.
Qed.

Lemma unpack_from_u32_ok (buf : bytes) (ofs v : Z) :
  unpack_from_u32 buf ofs = Ok v -> _rd_u32 buf ofs = Ok (v, ofs + 4).
Proof. intros H. unfold _rd_u32. rewrite H. reflexivity. Qed.

Lemma _dec_double_ok (buf : bytes) (ofs : Z) (x : float) (ofs' : Z) :
  _dec_double buf ofs = Ok (x, ofs') -> - len buf <= ofs <= len buf - 4 /\ ofs' = ofs + 8.
Proof.
  unfold _dec_double, unpack_from_i32. intros H. inv_ok.
  repeat match goal with
         | E : unpack_from_u32 _ _ = Ok _ |- _ => apply unpack_from_u32_ok in E
         | E : _rd_u32 _ _ = Ok _ |- _ => apply _rd_u32_ok in E
         end.
  lia.
Qed.

(** A successful [dec_data] read its tag inside the buffer and ends at least
    four bytes further on; the loops never go back. *)
Lemma dec_fuel_advance (buf : bytes) (encoding : codec) (fuel : nat) :
  (forall ofs v ofs',
      dec_data_fuel fuel buf encoding ofs = Ok (v, ofs') ->
      - len buf <= ofs <= len buf - 4 /\ ofs + 4 <= ofs') /\
  (forall n ofs acc l ofs',
      dec_array_loop fuel buf encoding n ofs acc = Ok (l, ofs') -> ofs <= ofs') /\
  (forall n ofs acc d ofs',
      dec_struct_loop fuel buf encoding n ofs acc = Ok (d, ofs') -> ofs <= ofs').
Proof.
  induction fuel as [|fuel (IHd & IHa & IHs)]; (split; [|split]).
  - discriminate.
  - intros n ofs acc l ofs'. cbn. destruct (n <=? 0); [|discriminate].
    intros H. inv_ok. lia.
  - intros n ofs acc l ofs'. cbn. destruct (n <=? 0); [|discriminate].
    intros H. inv_ok. lia.
  - intros ofs v ofs'. cbn [dec_data_fuel]. intros H. inv_ok.
    apply _rd_u32_ok in E. destruct E as (-> & Hb & _).
    repeat match type of H with (if ?c then _ else _) = _ => destruct c end;
      inv_ok; try discriminate;
      repeat match goal with
        | E : _dec_string _ _ _ = Ok _ |- _ =>
            apply _dec_string_ok in E; destruct E as (? & _ & ? & ? & ? & _)
        | E : _dec_bool _ _ = Ok _ |- _ => apply _dec_bool_ok in E
        | E : _dec_int _ _ = Ok _ |- _ => apply _dec_int_ok in E
        | E : _dec_double _ _ = Ok _ |- _ => apply _dec_double_ok in E
        | E : _rd_u32 _ _ = Ok _ |- _ => apply _rd_u32_ok in E
        | E : dec_array_loop _ _ _ _ _ _ = Ok _ |- _ => apply IHa in E
        | E : dec_struct_loop _ _ _ _ _ _ = Ok _ |- _ => apply IHs in E
        end; lia.
  - intros n ofs acc l ofs'. cbn [dec_array_loop].
    destruct (n <=? 0); intros H; inv_ok; [lia|].
    apply IHd in E. apply IHa in H. lia.
  - intros n ofs acc l ofs'. cbn [dec_struct_loop].
    destruct (n <=? 0); intros H; inv_ok; [lia|].
    apply _dec_string_ok in E. destruct E as (k & _ & Hk & _ & -> & _).
    apply IHd in E0. apply IHs in H. lia.
Qed.

(** ** Fuel *)

(** More fuel does not change an outcome that is not [Fuel]. *)
Lemma dec_fuel_mono (buf : bytes) (encoding : codec) (fuel : nat) :
  (forall fuel' ofs,
      (fuel <= fuel')%nat ->
      dec_data_fuel fuel buf encoding ofs <> Fuel ->
      dec_data_fuel fuel' buf encoding ofs = dec_data_fuel fuel buf encoding ofs) /\
  (forall fuel' n ofs acc,
      (fuel <= fuel')%nat ->
      dec_array_loop fuel buf encoding n ofs acc <> Fuel ->
      dec_array_loop fuel' buf encoding n ofs acc
      = dec_array_loop fuel buf encoding n ofs acc) /\
  (forall fuel' n ofs acc,
      (fuel <= fuel')%nat ->
      dec_struct_loop fuel buf encoding n ofs acc <> Fuel ->
      dec_struct_loop fuel' buf encoding n ofs acc
      = dec_struct_loop fuel buf encoding n ofs acc).
Proof.
  induction fuel as [|fuel (IHd & IHa & IHs)]; (split; [|split]).
  - intros fuel' ofs _ H. exfalso. apply H. reflexivity.
  - intros fuel' n ofs acc _. destruct fuel'; cbn; destruct (n <=? 0); try reflexivity.
    intros H. exfalso. apply H. reflexivity.
  - intros fuel' n ofs acc _. destruct fuel'; cbn; destruct (n <=? 0); try reflexivity.
    intros H. exfalso. apply H. reflexivity.
  - intros [|fuel'] ofs Hle; [lia|]. cbn [dec_data_fuel].
    destruct (_rd_u32 buf ofs) as [[t o]| |]; cbn [bind]; try reflexivity.
    repeat match goal with |- context [if ?c then _ else _] => destruct c end;
      try reflexivity.
    + destruct (_rd_u32 buf o) as [[n o']| |]; cbn [bind]; try reflexivity.
      intros H. rewrite (IHa fuel' n o' []); [reflexivity|lia|].
      intros E. rewrite E in H. apply H. reflexivity.
    + destruct (_rd_u32 buf o) as [[n o']| |]; cbn [bind]; try reflexivity.
      intros H. rewrite (IHs fuel' n o' []); [reflexivity|lia|].
      intros E. rewrite E in H. apply H. reflexivity.
  - intros [|fuel'] n ofs acc Hle; [lia|]. cbn [dec_array_loop].
    destruct (n <=? 0); [reflexivity|]. intros H.
    rewrite (IHd fuel' ofs); [|lia|intros E; rewrite E in H; apply H; reflexivity].
    destruct (dec_data_fuel fuel buf encoding ofs) as [[v o]| |]; cbn [bind] in *;
      try reflexivity.
    apply IHa; [lia|exact H].
  - intros [|fuel'] n ofs acc Hle; [lia|]. cbn [dec_struct_loop].
    destruct (n <=? 0); [reflexivity|].
    destruct (_dec_string buf ofs encoding) as [[k o]| |]; cbn [bind]; try reflexivity.
    intros H.
    rewrite (IHd fuel' o); [|lia|intros E; rewrite E in H; apply H; reflexivity].
    destruct (dec_data_fuel fuel buf encoding o) as [[v o']| |]; cbn [bind] in *;
      try reflexivity.
    apply IHs; [lia|exact H].
Qed.

(** The primitives never answer [Fuel]. *)
Lemma _rd_u32_not_fuel (buf : bytes) (ofs : Z) : _rd_u32 buf ofs <> Fuel.
Proof.
  unfold _rd_u32, unpack_from_u32.
  repeat match goal with
         | |- context [if ?c then _ else _] => destruct c
         | |- context [match ?l with [] => _ | _ :: _ => _ end] => destruct l
         end; discriminate.
Qed.

Lemma _dec_string_not_fuel (buf : bytes) (ofs : Z) (encoding : codec) :
  _dec_string buf ofs encoding <> Fuel.
Proof.
  unfold _dec_string. pose proof (_rd_u32_not_fuel buf ofs).
  destruct (_rd_u32 buf ofs) as [[n o]| |]; cbn [bind]; congruence.
Qed.

Lemma leaf_decoders_not_fuel (buf : bytes) (ofs : Z) :
  _dec_bool buf ofs <> Fuel /\ _dec_int buf ofs <> Fuel /\ _dec_double buf ofs <> Fuel.
Proof.
  pose proof (_rd_u32_not_fuel buf ofs) as H1.
  pose proof (_rd_u32_not_fuel buf (ofs + 4)) as H2.
  repeat split.
  - unfold _dec_bool, index.
    repeat match goal with
           | |- context [if ?c then _ else _] => destruct c
           | |- context [match ?l with Some _ => _ | None => _ end] => destruct l
           end; discriminate.
  - unfold _dec_int. destruct (_rd_u32 buf ofs) as [[n o]| |]; cbn [bind];
      try congruence. destruct (negb _); discriminate.
  - unfold _dec_double, unpack_from_i32. unfold _rd_u32 in H1.
    destruct (unpack_from_u32 buf ofs); cbn [bind] in *; try congruence.
    destruct (_rd_u32 buf (ofs + 4)) as [[n o]| |]; cbn [bind]; try congruence.
    unfold float_of_int, float_of_pow2.
    repeat match goal with
           | |- context [if ?c then _ else _] => destruct c; cbn [bind]
           end; discriminate.
Qed.

(** One unit of fuel for every four bytes left, and one more, is enough. *)
Lemma dec_fuel_enough (buf : bytes) (encoding : codec) (fuel : nat) :
  (forall ofs,
      (1 <= fuel)%nat ->
      ofs < - len buf \/ len buf - ofs < 4 * Z.of_nat fuel ->
      dec_data_fuel fuel buf encoding ofs <> Fuel) /\
  (forall n ofs acc,
      - len buf <= ofs ->
      Z.max 0 (len buf - ofs) + 4 < 4 * Z.of_nat fuel ->
      dec_array_loop fuel buf encoding n ofs acc <> Fuel) /\
  (forall n ofs acc,
      - len buf <= ofs ->
      Z.max 0 (len buf - ofs) + 4 < 4 * Z.of_nat fuel ->
      dec_struct_loop fuel buf encoding n ofs acc <> Fuel).
Proof.
  induction fuel as [|fuel (IHd & IHa & IHs)]; (split; [|split]); try (intros; lia).
  - intros ofs _ Hf. cbn [dec_data_fuel].
    destruct (_rd_u32 buf ofs) as [[t o]| |] eqn:E; cbn [bind]; try discriminate;
      [|apply _rd_u32_not_fuel in E; destruct E].
    apply _rd_u32_ok in E. destruct E as (-> & Hb & _).
    pose proof (_dec_string_not_fuel buf (ofs + 4) encoding) as Hs.
    pose proof (leaf_decoders_not_fuel buf (ofs + 4)) as (Hbo & Hi & Hdo).
    repeat match goal with |- context [if ?c then _ else _] => destruct c end;
      try discriminate.
    + destruct (_dec_string buf (ofs + 4) encoding) as [[s o]| |]; cbn [bind]; congruence.
    + destruct (_dec_bool buf (ofs + 4)) as [[s o]| |]; cbn [bind]; congruence.
    + destruct (_dec_int buf (ofs + 4)) as [[s o]| |]; cbn [bind]; congruence.
    + destruct (_dec_double buf (ofs + 4)) as [[s o]| |]; cbn [bind]; congruence.
    + destruct (_rd_u32 buf (ofs + 4)) as [[n o]| |] eqn:E; cbn [bind]; try discriminate;
        [|apply _rd_u32_not_fuel in E; destruct E].
      apply _rd_u32_ok in E. destruct E as (-> & Hb' & _).
      specialize (IHa n (ofs + 4 + 4) []).
      destruct (dec_array_loop fuel buf encoding n (ofs + 4 + 4) []) as [[l o]| |];
        cbn [bind]; try discriminate. exfalso. apply IHa; [lia|lia|reflexivity].
    + destruct (_rd_u32 buf (ofs + 4)) as [[n o]| |] eqn:E; cbn [bind]; try discriminate;
        [|apply _rd_u32_not_fuel in E; destruct E].
      apply _rd_u32_ok in E. destruct E as (-> & Hb' & _).
      specialize (IHs n (ofs + 4 + 4) []).
      destruct (dec_struct_loop fuel buf encoding n (ofs + 4 + 4) []) as [[l o]| |];
        cbn [bind]; try discriminate. exfalso. apply IHs; [lia|lia|reflexivity].
  - intros n ofs acc Hlo Hf. cbn [dec_array_loop]. destruct (n <=? 0); [discriminate|].
    specialize (IHd ofs).
    destruct (dec_data_fuel fuel buf encoding ofs) as [[v o]| |] eqn:E; cbn [bind];
      try discriminate; [|exfalso; apply IHd; [lia|lia|reflexivity]].
    apply (proj1 (dec_fuel_advance buf encoding fuel)) in E.
    apply IHa; lia.
  - intros n ofs acc Hlo Hf. cbn [dec_struct_loop]. destruct (n <=? 0); [discriminate|].
    destruct (_dec_string buf ofs encoding) as [[k o]| |] eqn:E; cbn [bind];
      try discriminate; [|apply _dec_string_not_fuel in E; destruct E].
    apply _dec_string_ok in E. destruct E as (m & _ & Hm & Hb & -> & _).
    specialize (IHd (ofs + 4 + m)).
    destruct (dec_data_fuel fuel buf encoding (ofs + 4 + m)) as [[v o]| |] eqn:E;
      cbn [bind]; try discriminate; [|exfalso; apply IHd; [lia|lia|reflexivity]].
    apply (proj1 (dec_fuel_advance buf encoding fuel)) in E.
    apply IHs; lia.
Qed.

(** [dec_data] never runs out of the fuel it gives itself: it returns or it
    raises. *)
Lemma dec_data_fuel_enough (buf : bytes) (encoding : codec) (ofs : Z) :
  dec_data buf encoding ofs <> Fuel.
Proof.
  unfold dec_data. apply (proj1 (dec_fuel_enough buf encoding (S (length buf)))); [lia|].
  pose proof (len_nonneg buf). unfold len in *. lia.
Qed.

(** So [dec_data] is the decoder at any fuel on which it answers. *)
Lemma dec_data_of_fuel (buf : bytes) (encoding : codec) (ofs : Z) (fuel : nat)
  (r : value * Z) :
  dec_data_fuel fuel buf encoding ofs = Ok r -> dec_data buf encoding ofs = Ok r.
Proof.
  intros H. pose proof (dec_data_fuel_enough buf encoding ofs) as Hne. unfold dec_data in *.
  destruct (Nat.le_ge_cases fuel (S (length buf))) as [Hle|Hge].
  - rewrite (proj1 (dec_fuel_mono buf encoding fuel)); [exact H|exact Hle|].
    rewrite H. discriminate.
  - rewrite <- H. symmetry.
    apply (proj1 (dec_fuel_mono buf encoding (S (length buf)))); [exact Hge|exact Hne].
Qed.

(** ** What is read does not depend on the bytes before the offset *)

Lemma skipn_app_ge {A : Type} (s p : list A) (n : nat) :
  (length s <= n)%nat -> skipn n (s ++ p) = skipn (n - length s) p.
Proof.
  intros H. rewrite skipn_app, skipn_all2 by exact H. reflexivity.
Qed.

Section Suffix.

Variables s1 s2 p : bytes.
Hypothesis Hlen : len s1 = len s2.

Lemma len_app_same : len (s1 ++ p) = len (s2 ++ p).
Proof. rewrite !len_app, Hlen. reflexivity. Qed.

Lemma skipn_suffix (ofs : Z) :
  len s1 <= ofs -> skipn (Z.to_nat ofs) (s1 ++ p) = skipn (Z.to_nat ofs) (s2 ++ p).
Proof.
  intros H. unfold len in *. rewrite !skipn_app_ge by lia.
  replace (length s2) with (length s1) by lia. reflexivity.
Qed.

Lemma unpack_from_u32_suffix (ofs : Z) :
  len s1 <= ofs -> unpack_from_u32 (s1 ++ p) ofs = unpack_from_u32 (s2 ++ p) ofs.
Proof.
  intros H. unfold unpack_from_u32. rewrite len_app_same.
  pose proof (len_nonneg s1). destruct (ofs <? 0) eqn:E; [lia|]. cbn [andb].
  rewrite skipn_suffix by exact H. reflexivity.
Qed.

Lemma _rd_u32_suffix (ofs : Z) :
  len s1 <= ofs -> _rd_u32 (s1 ++ p) ofs = _rd_u32 (s2 ++ p) ofs.
Proof. intros H. unfold _rd_u32. rewrite unpack_from_u32_suffix by exact H. reflexivity. Qed.

Lemma slice_suffix (a b : Z) :
  len s1 <= a -> slice (s1 ++ p) a b = slice (s2 ++ p) a b.
Proof.
  intros H. unfold slice. rewrite len_app_same.
  pose proof (len_nonneg s1). pose proof (len_nonneg p).
  rewrite skipn_suffix; [reflexivity|].
  unfold adjust_index. rewrite len_app. destruct (a <? 0) eqn:E; lia.
Qed.

Lemma index_suffix (ofs : Z) :
  len s1 <= ofs -> index (s1 ++ p) ofs = index (s2 ++ p) ofs.
Proof.
  intros H. unfold index. rewrite len_app_same.
  pose proof (len_nonneg s1). destruct (ofs <? 0) eqn:E; [lia|].
  destruct ((ofs <? 0) || (len (s2 ++ p) <=? ofs)); [reflexivity|].
  rewrite !nth_error_app2 by (unfold len in *; lia).
  replace (length s2) with (length s1) by (unfold len in *; lia). reflexivity.
Qed.

Lemma _dec_string_suffix (encoding : codec) (ofs : Z) :
  len s1 <= ofs ->
  _dec_string (s1 ++ p) ofs encoding = _dec_string (s2 ++ p) ofs encoding.
Proof.
  intros H. unfold _dec_string. rewrite _rd_u32_suffix by exact H.
  destruct (_rd_u32 (s2 ++ p) ofs) as [[n o]| |] eqn:E; cbn [bind]; try reflexivity.
  apply _rd_u32_ok in E. rewrite slice_suffix by lia. reflexivity.
Qed.

Lemma leaf_decoders_suffix (ofs : Z) :
  len s1 <= ofs ->
  _dec_bool (s1 ++ p) ofs = _dec_bool (s2 ++ p) ofs /\
  _dec_int (s1 ++ p) ofs = _dec_int (s2 ++ p) ofs /\
  _dec_double (s1 ++ p) ofs = _dec_double (s2 ++ p) ofs.
Proof.
  intros H. unfold _dec_bool, _dec_int, _dec_double, unpack_from_i32.
  rewrite index_suffix, _rd_u32_suffix, unpack_from_u32_suffix by exact H.
  rewrite (_rd_u32_suffix (ofs + 4)) by lia. repeat split.
Qed.

Lemma dec_fuel_suffix (encoding : codec) (fuel : nat) :
  (forall ofs,
      len s1 <= ofs ->
      dec_data_fuel fuel (s1 ++ p) encoding ofs = dec_data_fuel fuel (s2 ++ p) encoding ofs) /\
  (forall n ofs acc,
      len s1 <= ofs ->
      dec_array_loop fuel (s1 ++ p) encoding n ofs acc
      = dec_array_loop fuel (s2 ++ p) encoding n ofs acc) /\
  (forall n ofs acc,
      len s1 <= ofs ->
      dec_struct_loop fuel (s1 ++ p) encoding n ofs acc
      = dec_struct_loop fuel (s2 ++ p) encoding n ofs acc).
Proof.
  induction fuel as [|fuel (IHd & IHa & IHs)]; (split; [|split]); try reflexivity.
  - intros ofs H. cbn [dec_data_fuel]. rewrite _rd_u32_suffix by exact H.
    destruct (_rd_u32 (s2 ++ p) ofs) as [[t o]| |] eqn:E; cbn [bind]; try reflexivity.
    apply _rd_u32_ok in E. destruct E as (-> & _ & _).
    rewrite _dec_string_suffix by lia.
    destruct (leaf_decoders_suffix (ofs + 4)) as (-> & -> & ->); [lia|].
    rewrite (_rd_u32_suffix (ofs + 4)) by lia.
    repeat match goal with |- context [if ?c then _ else _] => destruct c end;
      try reflexivity.
    + destruct (_rd_u32 (s2 ++ p) (ofs + 4)) as [[n o]| |] eqn:E; cbn [bind];
        try reflexivity.
      apply _rd_u32_ok in E. rewrite IHa by lia. reflexivity.
    + destruct (_rd_u32 (s2 ++ p) (ofs + 4)) as [[n o]| |] eqn:E; cbn [bind];
        try reflexivity.
      apply _rd_u32_ok in E. rewrite IHs by lia. reflexivity.
  - intros n ofs acc H. cbn [dec_array_loop]. destruct (n <=? 0); [reflexivity|].
    rewrite IHd by exact H.
    destruct (dec_data_fuel fuel (s2 ++ p) encoding ofs) as [[v o]| |] eqn:E; cbn [bind];
      try reflexivity.
    apply (proj1 (dec_fuel_advance _ _ _)) in E. apply IHa. lia.
  - intros n ofs acc H. cbn [dec_struct_loop]. destruct (n <=? 0); [reflexivity|].
    rewrite _dec_string_suffix by exact H.
    destruct (_dec_string (s2 ++ p) ofs encoding) as [[k o]| |] eqn:E; cbn [bind];
      try reflexivity.
    apply _dec_string_ok in E. destruct E as (m & _ & Hm & _ & -> & _).
    rewrite IHd by lia.
    destruct (dec_data_fuel fuel (s2 ++ p) encoding (ofs + 4 + m)) as [[v o]| |] eqn:E;
      cbn [bind]; try reflexivity.
    apply (proj1 (dec_fuel_advance _ _ _)) in E. apply IHs. lia.
Qed.

Lemma dec_data_suffix (encoding : codec) (ofs : Z) :
  len s1 <= ofs -> dec_data (s1 ++ p) encoding ofs = dec_data (s2 ++ p) encoding ofs.
Proof.
  intros H. unfold dec_data.
  replace (length (s2 ++ p)) with (length (s1 ++ p))
    by (pose proof len_app_same; unfold len in *; lia).
  apply (proj1 (dec_fuel_suffix encoding _)). exact H.
Qed.

End Suffix.

(** ** Responses *)

Lemma slice_in_prefix {A : Type} (h r : list A) (a b : Z) :
  0 <= a -> 0 <= b <= len h -> slice (h ++ r) a b = slice h a b.
Proof.
  intros Ha Hb. unfold slice, adjust_index. rewrite len_app.
  pose proof (len_nonneg r) as Hr.
  destruct (a <? 0) eqn:Ea; [lia|]. destruct (b <? 0) eqn:Eb; [lia|].
  replace (Z.min b (len h + len r)) with b by lia.
  replace (Z.min b (len h)) with b by lia.
  destruct (Z.le_gt_cases a b) as [Hab|Hab].
  - replace (Z.min a (len h + len r)) with a by lia.
    replace (Z.min a (len h)) with a by lia.
    rewrite skipn_app, firstn_app.
    replace (Z.to_nat (b - a) - length (skipn (Z.to_nat a) h))%nat with 0%nat
      by (rewrite length_skipn; unfold len in *; lia).
    cbn [firstn]. apply app_nil_r.
  - replace (Z.to_nat (b - Z.min a (len h + len r))) with 0%nat by lia.
    replace (Z.to_nat (b - Z.min a (len h))) with 0%nat by lia.
    reflexivity.
Qed.

Lemma slice_after_prefix {A : Type} (h r : list A) :
  slice (h ++ r) (len h) (len (h ++ r)) = r.
Proof.
  unfold slice, adjust_index. rewrite len_app.
  pose proof (len_nonneg h). pose proof (len_nonneg r).
  destruct (len h <? 0) eqn:Ea; [lia|]. destruct (len h + len r <? 0) eqn:Eb; [lia|].
  replace (Z.min (len h) (len h + len r)) with (len h) by lia.
  rewrite Z.min_id, skipn_len_app.
  replace (len h + len r - len h) with (len r) by lia.
  unfold len. rewrite Nat2Z.id. apply firstn_all.
Qed.

Lemma _rd_u32_first (s r : bytes) :
  len s = 4 -> exists v : Z, _rd_u32 (s ++ r) 0 = Ok (v, 4).
Proof.
  destruct s as [|b0 [|b1 [|b2 [|b3 [|b4 s]]]]]; try discriminate.
  - intros _. exists (of_be32 b0 b1 b2 b3). unfold _rd_u32, unpack_from_u32.
    pose proof (len_nonneg r).
    change (len (([b0; b1; b2; b3]) ++ r)) with (Z.of_nat (4 + length r)).
    zbool. reflexivity.
  - unfold len. cbn [length]. lia.
Qed.

Lemma slice_body (header body : bytes) :
  len header = 8 -> slice (header ++ body) 8 (len (header ++ body)) = body.
Proof. intros H. rewrite <- H. apply slice_after_prefix. Qed.

(** [dec_response] on a frame split into its eight header bytes and its body. *)
Lemma dec_response_frame (header body : bytes) :
  len header = 8 ->
  dec_response (header ++ body) =
  if negb (bytes_eqb (slice header 0 4) (slice HDR_RES 0 4))
  then Raise (ValueError InvalidResponseFrame)
  else
    l <- _be_u32 (8 + len body) ;;
    if negb (bytes_eqb (slice header 4 8) l) then Raise (ValueError InvalidResponseFrame)
    else
      '(_, ofs) <- _rd_u32 body 0 ;;
      if len body <=? ofs then Ok None
      else '(v, _) <- dec_data body DEFAULT_ENCODING ofs ;; Ok (Some v).
Proof.
  intros Hh. unfold dec_response. rewrite (slice_body header body Hh).
  rewrite !(slice_in_prefix header) by lia.
  rewrite len_app, Hh. pose proof (len_nonneg body).
  destruct (8 + len body <? 8) eqn:E; [lia|]. reflexivity.
Qed.

(** C6: two response frames that differ only in the four bytes of the status
    code are decoded to the same outcome. Whatever the status, the payload is
    decoded and returned, and a frame that is refused is refused for its
    header, never for its status. *)
Theorem dec_response_ignores_status (header status1 status2 payload : bytes) :
  len header = 8 -> len status1 = 4 -> len status2 = 4 ->
  dec_response (header ++ status1 ++ payload)
  = dec_response (header ++ status2 ++ payload).
Proof.
  intros Hh H1 H2. rewrite !dec_response_frame by exact Hh.
  replace (len (status2 ++ payload)) with (len (status1 ++ payload))
    by (rewrite !len_app; lia).
  destruct (negb (bytes_eqb (slice header 0 4) (slice HDR_RES 0 4))); [reflexivity|].
  destruct (_be_u32 (8 + len (status1 ++ payload))) as [l| |]; cbn [bind];
    try reflexivity.
  destruct (negb (bytes_eqb (slice header 4 8) l)); [reflexivity|].
  destruct (_rd_u32_first status1 payload H1) as (v1 & ->).
  destruct (_rd_u32_first status2 payload H2) as (v2 & ->).
  cbn [bind].
  rewrite (dec_data_suffix status1 status2 payload) by lia.
  reflexivity.
Qed.

Lemma dec_response_ignores_status_witness :
  dec_response ((HDR_RES ++ be32 17) ++ be32 0 ++ be32 T_BOOL ++ [x01])
  = dec_response ((HDR_RES ++ be32 17) ++ be32 7 ++ be32 T_BOOL ++ [x01]) /\
  dec_response ((HDR_RES ++ be32 17) ++ be32 7 ++ be32 T_BOOL ++ [x01])
  = Ok (Some (VBool true)).
Proof.
  split; [|reflexivity].
  apply (dec_response_ignores_status (HDR_RES ++ be32 17) (be32 0) (be32 7)
           (be32 T_BOOL ++ [x01])); reflexivity.
Defined.

Lemma split_header (frame : bytes) :
  8 <= len frame ->
  exists header body : bytes, frame = header ++ body /\ len header = 8.
Proof.
  intros H. exists (firstn 8 frame), (skipn 8 frame). split.
  - symmetry. apply firstn_skipn.
  - unfold len in *. rewrite length_firstn. lia.
Qed.



(** ** Reading what was written *)

Lemma at_offset_app (buf : bytes) (ofs : Z) (b rest : bytes) :
  at_offset buf ofs (b ++ rest) -> at_offset buf (ofs + len b) rest.
Proof.
  intros (pre & -> & <-). exists (pre ++ b). split.
  - rewrite <- app_assoc. reflexivity.
  - apply len_app.
Qed.

Lemma at_offset_start (b rest : bytes) : at_offset (b ++ rest) 0 (b ++ rest).
Proof. exists []. split; reflexivity. Qed.

Lemma _rd_u32_at_offset (buf : bytes) (ofs n : Z) (rest : bytes) :
  at_offset buf ofs (be32 n ++ rest) -> 0 <= n < 2 ^ 32 ->
  _rd_u32 buf ofs = Ok (n, ofs + 4).
Proof.
  intros (pre & -> & <-) Hn. apply _rd_u32_at. exact Hn.
Qed.

Lemma slice_at_offset (buf : bytes) (ofs : Z) (b rest : bytes) :
  at_offset buf ofs (b ++ rest) -> slice buf ofs (ofs + len b) = b.
Proof.
  intros (pre & -> & <-). unfold slice, adjust_index. rewrite !len_app.
  pose proof (len_nonneg pre). pose proof (len_nonneg b). pose proof (len_nonneg rest).
  destruct (len pre <? 0) eqn:E1; [lia|]. destruct (len pre + len b <? 0) eqn:E2; [lia|].
  replace (Z.min (len pre) (len pre + (len b + len rest))) with (len pre) by lia.
  replace (Z.min (len pre + len b) (len pre + (len b + len rest)) - len pre)
    with (len b) by lia.
  rewrite skipn_len_app. unfold len. rewrite Nat2Z.id, firstn_app, Nat.sub_diag, firstn_all.
  cbn [firstn]. apply app_nil_r.
Qed.

Lemma index_at_offset (buf : bytes) (ofs : Z) (b : byte) (rest : bytes) :
  at_offset buf ofs (b :: rest) -> index buf ofs = Ok b.
Proof. intros (pre & -> & <-). apply index_at. Qed.

Lemma pystr_eqb_eq (s t : pystr) : pystr_eqb s t = true <-> s = t.
Proof.
  revert t. induction s as [|c s IH]; intros [|d t]; cbn; split; try congruence.
  - intros H. apply andb_true_iff in H. destruct H as [H1 H2].
    apply Z.eqb_eq in H1. apply IH in H2. congruence.
  - intros [= -> ->]. rewrite Z.eqb_refl. apply IH. reflexivity.
Qed.

Lemma text_ok_spec (encoding : codec) (s : pystr) :
  text_ok encoding s = true ->
  exists b : bytes, str_encode encoding s = Some b /\ bytes_decode encoding b = s.
Proof.
  unfold text_ok. destruct (str_encode encoding s) as [b|]; [|discriminate].
  intros H. exists b. split; [reflexivity|]. apply pystr_eqb_eq. exact H.
Qed.

Lemma _b_ok (s : pystr) (encoding : codec) (b : bytes) :
  _b s encoding = Ok b -> str_encode encoding s = Some b.
Proof. unfold _b. destruct (str_encode encoding s); congruence. Qed.

(** A length and its bytes, as [enc_string] and [enc_struct] write them, are read
    back by [_dec_string] as the text they encode. *)
Lemma _dec_string_at_offset (buf : bytes) (encoding : codec) (ofs : Z) (s : pystr)
  (b n rest : bytes) :
  text_ok encoding s = true ->
  _b s encoding = Ok b ->
  _be_u32 (len b) = Ok n ->
  at_offset buf ofs (n ++ b ++ rest) ->
  _dec_string buf ofs encoding = Ok (s, ofs + 4 + len b).
Proof.
  intros Hs Hb Hn Hat. apply _b_ok in Hb. apply text_ok_spec in Hs.
  destruct Hs as (b' & Hb' & Hdec). rewrite Hb in Hb'. injection Hb' as <-.
  apply _be_u32_ok in Hn. destruct Hn as (Hr & ->).
  unfold _dec_string. rewrite (_rd_u32_at_offset buf ofs (len b) (b ++ rest) Hat Hr).
  cbn [bind]. apply at_offset_app in Hat. rewrite len_be32 in Hat.
  rewrite (slice_at_offset buf (ofs + 4) b rest Hat), Hdec. reflexivity.
Qed.

(** ** Round trip *)

Lemma dec_data_fuel_ge (buf : bytes) (encoding : codec) (ofs : Z) (r : value * Z)
  (fuel fuel' : nat) :
  dec_data_fuel fuel buf encoding ofs = Ok r -> (fuel <= fuel')%nat ->
  dec_data_fuel fuel' buf encoding ofs = Ok r.
Proof.
  intros H Hle. rewrite <- H. apply (proj1 (dec_fuel_mono buf encoding fuel)); [exact Hle|].
  rewrite H. discriminate.
Qed.

Lemma dec_array_loop_ge (buf : bytes) (encoding : codec) (n ofs : Z) (acc : list value)
  (r : list value * Z) (fuel fuel' : nat) :
  dec_array_loop fuel buf encoding n ofs acc = Ok r -> (fuel <= fuel')%nat ->
  dec_array_loop fuel' buf encoding n ofs acc = Ok r.
Proof.
  intros H Hle. rewrite <- H.
  apply (proj1 (proj2 (dec_fuel_mono buf encoding fuel))); [exact Hle|].
  rewrite H. discriminate.
Qed.

Lemma dec_struct_loop_ge (buf : bytes) (encoding : codec) (n ofs : Z)
  (acc : list (pystr * value)) (r : list (pystr * value) * Z) (fuel fuel' : nat) :
  dec_struct_loop fuel buf encoding n ofs acc = Ok r -> (fuel <= fuel')%nat ->
  dec_struct_loop fuel' buf encoding n ofs acc = Ok r.
Proof.
  intros H Hle. rewrite <- H.
  apply (proj2 (proj2 (dec_fuel_mono buf encoding fuel))); [exact Hle|].
  rewrite H. discriminate.
Qed.

Lemma mem_str_app (k : pystr) (l1 l2 : list pystr) :
  mem_str k (l1 ++ l2) = mem_str k l1 || mem_str k l2.
Proof.
  induction l1 as [|x l1 IH]; cbn; [reflexivity|]. rewrite IH. apply orb_assoc.
Qed.

Lemma pystr_eqb_refl (s : pystr) : pystr_eqb s s = true.
Proof. apply pystr_eqb_eq. reflexivity. Qed.

Lemma pystr_eqb_sym (s t : pystr) : pystr_eqb s t = pystr_eqb t s.
Proof.
  destruct (pystr_eqb s t) eqn:E1, (pystr_eqb t s) eqn:E2; try reflexivity.
  - apply pystr_eqb_eq in E1. subst. rewrite pystr_eqb_refl in E2. discriminate.
  - apply pystr_eqb_eq in E2. subst. rewrite pystr_eqb_refl in E1. discriminate.
Qed.

(** Setting a key that the dict does not have appends the item. *)
Lemma dict_set_fresh (d : list (pystr * value)) (k : pystr) (v : value) :
  mem_str k (map fst d) = false -> dict_set d k v = d ++ [(k, v)].
Proof.
  induction d as [|[k' v'] d IH]; cbn; [reflexivity|]. intros H.
  apply orb_false_elim in H. destruct H as [H1 H2]. rewrite H1, IH by exact H2.
  reflexivity.
Qed.

Section RoundTrip.

Variable math_log : float -> float -> float.
Variable encoding : codec.

Lemma array_items_round_trip (a : list value) :
  Forall (fun v => representable encoding v = true -> round_trips math_log encoding v) a ->
  forallb (representable encoding) a = true ->
  forall items : bytes,
    enc_array_items (fun el => enc_data math_log el encoding) a = Ok items ->
    exists fuel : nat,
      forall (buf : bytes) (ofs : Z) (rest : bytes) (acc : list value),
        at_offset buf ofs (items ++ rest) ->
        dec_array_loop fuel buf encoding (len a) ofs acc = Ok (acc ++ a, ofs + len items).
Proof.
  induction 1 as [|v a Hv _ IH]; intros Hrep items Henc.
  - injection Henc as <-. exists 0%nat. intros buf ofs rest acc _. cbn.
    rewrite app_nil_r, Z.add_0_r. reflexivity.
  - cbn [forallb] in Hrep. apply andb_true_iff in Hrep. destruct Hrep as [Hr1 Hr2].
    cbn [enc_array_items] in Henc. inv_ok. subst items.
    destruct (Hv Hr1 _ E) as (f1 & Hf1). destruct (IH Hr2 _ E0) as (f2 & Hf2).
    exists (S (Nat.max f1 f2)). intros buf ofs rest acc Hat.
    cbn [dec_array_loop].
    assert (Hl : len (v :: a) = 1 + len a) by (unfold len; cbn [length]; lia).
    pose proof (len_nonneg a). rewrite Hl. destruct (1 + len a <=? 0) eqn:E1; [lia|].
    rewrite <- app_assoc in Hat.
    rewrite (dec_data_fuel_ge _ _ _ _ f1 _ (Hf1 buf ofs _ Hat)) by lia. cbn [bind].
    apply at_offset_app in Hat.
    replace (1 + len a - 1) with (len a) by lia.
    rewrite (dec_array_loop_ge _ _ _ _ _ _ f2 _ (Hf2 buf _ rest (acc ++ [v]) Hat)) by lia.
    rewrite <- app_assoc, len_app. cbn [app]. f_equal. f_equal. lia.
Qed.

Lemma struct_items_round_trip (d : list (pystr * value)) :
  Forall (fun kv => representable encoding (snd kv) = true -> round_trips math_log encoding (snd kv)) d ->
  forallb (fun kv => match kv with
                     | (k, v') => text_ok encoding k && representable encoding v'
                     end) d = true ->
  distinct (map fst d) = true ->
  forall items : bytes,
    enc_struct_items (fun el => enc_data math_log el encoding) encoding d = Ok items ->
    exists fuel : nat,
      forall (buf : bytes) (ofs : Z) (rest : bytes) (acc : list (pystr * value)),
        (forall k, In k (map fst d) -> mem_str k (map fst acc) = false) ->
        at_offset buf ofs (items ++ rest) ->
        dec_struct_loop fuel buf encoding (len d) ofs acc = Ok (acc ++ d, ofs + len items).
Proof.
  induction 1 as [|[k v] d Hv _ IH]; intros Hrep Hdis items Henc.
  - injection Henc as <-. exists 0%nat. intros buf ofs rest acc _ _. cbn.
    rewrite app_nil_r, Z.add_0_r. reflexivity.
  - cbn [forallb] in Hrep. apply andb_true_iff in Hrep. destruct Hrep as [Hr1 Hr2].
    apply andb_true_iff in Hr1. destruct Hr1 as [Hk Hr1].
    cbn [map fst distinct] in Hdis. apply andb_true_iff in Hdis.
    destruct Hdis as [Hfresh Hdis]. apply negb_true_iff in Hfresh.
    cbn [enc_struct_items] in Henc. inv_ok. subst items. cbn [snd] in Hv.
    destruct (Hv Hr1 _ E1) as (f1 & Hf1). destruct (IH Hr2 Hdis _ E2) as (f2 & Hf2).
    exists (S (Nat.max f1 f2)). intros buf ofs rest acc Hacc Hat.
    cbn [dec_struct_loop].
    assert (Hl : len ((k, v) :: d) = 1 + len d) by (unfold len; cbn [length]; lia).
    pose proof (len_nonneg d). rewrite Hl. destruct (1 + len d <=? 0) eqn:E3; [lia|].
    rewrite <- !app_assoc in Hat.
    rewrite (_dec_string_at_offset buf encoding ofs k a a0 _ Hk E E0 Hat). cbn [bind].
    apply at_offset_app in Hat. apply at_offset_app in Hat.
    apply _be_u32_ok in E0. destruct E0 as (_ & ->). rewrite len_be32 in Hat.
    rewrite (dec_data_fuel_ge _ _ _ _ f1 _ (Hf1 buf _ _ Hat)) by lia. cbn [bind].
    apply at_offset_app in Hat.
    replace (1 + len d - 1) with (len d) by lia.
    rewrite dict_set_fresh by (apply Hacc; left; reflexivity).
    assert (Hacc' : forall k', In k' (map fst d) ->
                               mem_str k' (map fst (acc ++ [(k, v)])) = false).
    { intros k' Hin. rewrite map_app, mem_str_app. cbn [map fst mem_str].
      rewrite (Hacc k') by (right; exact Hin). rewrite orb_false_r. cbn [orb].
      destruct (pystr_eqb k' k) eqn:Ek; [|reflexivity].
      apply pystr_eqb_eq in Ek. subst k'. exfalso.
      clear - Hin Hfresh. induction (map fst d) as [|x l IHl]; [destruct Hin|].
      cbn [mem_str] in Hfresh. apply orb_false_elim in Hfresh. destruct Hfresh as [H1 H2].
      destruct Hin as [->|Hin]; [rewrite pystr_eqb_refl in H1; discriminate|].
      apply IHl; assumption. }
    rewrite (dec_struct_loop_ge _ _ _ _ _ _ f2 _
               (Hf2 buf _ rest (acc ++ [(k, v)]) Hacc' Hat)) by lia.
    rewrite <- app_assoc, !len_app, len_be32. cbn [app]. f_equal. f_equal. lia.
Qed.

Lemma tag_in_range (t : Z) : recognized_tag t = true -> 0 <= t < 2 ^ 32.
Proof.
  unfold recognized_tag. intros H.
  repeat (apply orb_true_iff in H; destruct H as [H|H]);
    apply Z.eqb_eq in H; subst t; cbv; split; congruence.
Qed.

Lemma representable_round_trips (v : value) :
  representable encoding v = true -> round_trips math_log encoding v.
Proof.
  induction v as [b|n|x|s|a IH|a IH|d IH|repr] using value_ind;
    intros Hrep bs Henc; cbn [representable] in Hrep; try discriminate;
    cbn [enc_data] in Henc.
  - (* Bool *)
    unfold enc_bool in Henc. inv_ok. subst bs.
    apply _be_u32_ok in E. destruct E as (Ht & ->).
    exists 1%nat. intros buf ofs rest Hat. cbn [dec_data_fuel].
    rewrite <- app_assoc in Hat. rewrite (_rd_u32_at_offset _ _ _ _ Hat Ht). cbn [bind].
    change (T_BOOL =? T_STRING) with false. change (T_BOOL =? T_BOOL) with true.
    cbv iota. apply at_offset_app in Hat. rewrite len_be32 in Hat. unfold _dec_bool.
    destruct b; cbn [app] in Hat; rewrite (index_at_offset _ _ _ _ Hat); cbn [bind];
      rewrite len_app; do 2 f_equal; cbn; lia.
  - (* Integer *)
    unfold enc_integer in Henc. inv_ok. subst bs.
    apply _be_u32_ok in E. destruct E as (Ht & ->).
    apply _be_u32_ok in E0. destruct E0 as (Hw & ->).
    exists 1%nat. intros buf ofs rest Hat. cbn [dec_data_fuel].
    rewrite <- app_assoc in Hat. rewrite (_rd_u32_at_offset _ _ _ _ Hat Ht). cbn [bind].
    change (T_INTEGER =? T_STRING) with false. change (T_INTEGER =? T_BOOL) with false.
    change (T_INTEGER =? T_INTEGER) with true.
    cbv iota. apply at_offset_app in Hat. rewrite len_be32 in Hat.
    rewrite (_dec_int_signed _ _ _ _ (_rd_u32_at_offset _ _ _ _ Hat Hw)). cbn [bind].
    rewrite len_app, !len_be32. f_equal. f_equal; [|lia]. f_equal.
    rewrite land_mask32. unfold to_signed32.
    change (2 ^ 32) with 4294967296 in *. change (2 ^ 31) with 2147483648 in *.
    destruct (n mod 4294967296 <? 2147483648) eqn:En;
      Z.to_euclidean_division_equations; lia.
  - (* String *)
    unfold enc_string in Henc. inv_ok. subst bs.
    pose proof (_be_u32_ok _ _ E0) as (Ht & ->).
    exists 1%nat. intros buf ofs rest Hat. cbn [dec_data_fuel].
    rewrite <- !app_assoc in Hat. rewrite (_rd_u32_at_offset _ _ _ _ Hat Ht). cbn [bind].
    change (T_STRING =? T_STRING) with true. cbv iota.
    apply at_offset_app in Hat. rewrite len_be32 in Hat.
    rewrite (_dec_string_at_offset _ _ _ s a a1 rest Hrep E E1 Hat). cbn [bind].
    apply _be_u32_ok in E1. destruct E1 as (_ & ->).
    rewrite !len_app, !len_be32. do 2 f_equal. lia.
  - (* Array *)
    inv_ok. subst bs.
    pose proof (_be_u32_ok _ _ E) as (Ht & ->).
    pose proof (_be_u32_ok _ _ E0) as (Hn & ->).
    destruct (array_items_round_trip a IH Hrep _ E1) as (f & Hf).
    exists (S f). intros buf ofs rest Hat. cbn [dec_data_fuel].
    rewrite <- !app_assoc in Hat. rewrite (_rd_u32_at_offset _ _ _ _ Hat Ht). cbn [bind].
    change (T_ARRAY =? T_STRING) with false. change (T_ARRAY =? T_BOOL) with false.
    change (T_ARRAY =? T_INTEGER) with false. change (T_ARRAY =? T_DOUBLE) with false.
    change (T_ARRAY =? T_ARRAY) with true. cbv iota.
    apply at_offset_app in Hat. rewrite len_be32 in Hat.
    rewrite (_rd_u32_at_offset _ _ _ _ Hat Hn). cbn [bind].
    apply at_offset_app in Hat. rewrite len_be32 in Hat.
    rewrite (Hf buf _ rest [] Hat). cbn [bind app].
    rewrite !len_app, !len_be32. do 2 f_equal. lia.
  - (* Struct *)
    apply andb_true_iff in Hrep. destruct Hrep as [Hdis Hrep].
    inv_ok. subst bs.
    pose proof (_be_u32_ok _ _ E) as (Ht & ->).
    pose proof (_be_u32_ok _ _ E0) as (Hn & ->).
    destruct (struct_items_round_trip d IH Hrep Hdis _ E1) as (f & Hf).
    exists (S f). intros buf ofs rest Hat. cbn [dec_data_fuel].
    rewrite <- !app_assoc in Hat. rewrite (_rd_u32_at_offset _ _ _ _ Hat Ht). cbn [bind].
    change (T_STRUCT =? T_STRING) with false. change (T_STRUCT =? T_BOOL) with false.
    change (T_STRUCT =? T_INTEGER) with false. change (T_STRUCT =? T_DOUBLE) with false.
    change (T_STRUCT =? T_ARRAY) with false. change (T_STRUCT =? T_STRUCT) with true.
    cbv iota.
    apply at_offset_app in Hat. rewrite len_be32 in Hat.
    rewrite (_rd_u32_at_offset _ _ _ _ Hat Hn). cbn [bind].
    apply at_offset_app in Hat. rewrite len_be32 in Hat.
    rewrite (Hf buf _ rest [] (fun _ _ => eq_refl) Hat). cbn [bind app].
    rewrite !len_app, !len_be32. do 2 f_equal. lia.
Qed.

End RoundTrip.

(** C1: for every value built from 32-bit signed Integers, Bools, Strings
    that survive the text encoding, and lists and string-keyed dicts of
    these, [dec_data] applied to the bytes [enc_data] returns gives exactly
    the value back, the elements of every Array and the keys of every Struct
    in their order, and the offset it returns is the length of the bytes. The
    same holds wherever the bytes stand in a larger buffer. *)
Theorem dec_data_enc_data
  (math_log : float -> float -> float) (encoding : codec) (v : value) (bs : bytes) :
  representable encoding v = true ->
  enc_data math_log v encoding = Ok bs ->
  dec_data bs encoding 0 = Ok (v, len bs) /\
  (forall pre post : bytes,
      dec_data (pre ++ bs ++ post) encoding (len pre) = Ok (v, len pre + len bs)).
Proof.
  intros Hrep Henc.
  destruct (representable_round_trips math_log encoding v Hrep bs Henc) as (fuel & Hf).
  split.
  - apply (dec_data_of_fuel _ _ _ fuel). apply (Hf bs 0 []).
    exists []. rewrite app_nil_r. split; reflexivity.
  - intros pre post. apply (dec_data_of_fuel _ _ _ fuel).
    apply (Hf (pre ++ bs ++ post) (len pre) post). exists pre. split; reflexivity.
Qed.

Lemma dec_data_enc_data_witness :
  exists bs : bytes,
    enc_data log2_floor nested_example DEFAULT_ENCODING = Ok bs /\
    dec_data bs DEFAULT_ENCODING 0 = Ok (nested_example, len bs).
Proof.
  destruct (enc_data log2_floor nested_example DEFAULT_ENCODING) as [bs| |] eqn:E;
    [|discriminate E..].
  exists bs. split; [reflexivity|].
  destruct (dec_data_enc_data log2_floor DEFAULT_ENCODING nested_example bs eq_refl E)
    as [H _].
  exact H.
Defined.

(** ** A buffer that ends too early *)

Section Shorter.

Variables P tail : bytes.

Lemma cut_short_same_end {A : Type} (rP rF : result (A * Z)) :
  cut_short rP -> same_end rP rF.
Proof.
  intros H. unfold same_end. destruct rF as [[x e]|e|]; auto.
Qed.

Lemma same_end_refl {A : Type} (r : result (A * Z)) : same_end r r.
Proof.
  unfold same_end. destruct r as [[x e]|e|]; auto.
  - right. exists x. reflexivity.
  - intros H. exists e. split; [reflexivity|exact H].
Qed.

Lemma unpack_from_u32_shorter (ofs : Z) :
  0 <= ofs ->
  unpack_from_u32 P ofs = unpack_from_u32 (P ++ tail) ofs \/
  unpack_from_u32 P ofs = Raise StructError.
Proof.
  intros Hofs. unfold unpack_from_u32. rewrite len_app. pose proof (len_nonneg tail).
  destruct (ofs <? 0) eqn:E; [lia|]. cbn [andb].
  destruct (len P - ofs <? 4) eqn:E1; [right; reflexivity|].
  destruct (len P + len tail - ofs <? 4) eqn:E2; [lia|]. left.
  rewrite skipn_app.
  assert (Hl : (4 <= length (skipn (Z.to_nat ofs) P))%nat)
    by (rewrite length_skipn; unfold len in *; lia).
  destruct (skipn (Z.to_nat ofs) P) as [|b0 [|b1 [|b2 [|b3 r]]]]; cbn [length] in Hl;
    try lia.
  reflexivity.
Qed.

Lemma unpack_from_u32_raises (buf : bytes) (ofs : Z) (e : exn) :
  unpack_from_u32 buf ofs = Raise e -> e = StructError.
Proof.
  unfold unpack_from_u32.
  repeat match goal with
         | |- context [if ?c then _ else _] => destruct c
         | |- context [match ?l with [] => _ | _ :: _ => _ end] => destruct l
         end; congruence.
Qed.

Lemma _rd_u32_shorter (ofs : Z) :
  0 <= ofs ->
  _rd_u32 P ofs = _rd_u32 (P ++ tail) ofs \/ _rd_u32 P ofs = Raise StructError.
Proof.
  intros Hofs. unfold _rd_u32.
  destruct (unpack_from_u32_shorter ofs Hofs) as [->| ->]; [left|right]; reflexivity.
Qed.

Lemma _rd_u32_raises (buf : bytes) (ofs : Z) (e : exn) :
  _rd_u32 buf ofs = Raise e -> e = StructError.
Proof.
  unfold _rd_u32. destruct (unpack_from_u32 buf ofs) eqn:E; cbn [bind]; try discriminate.
  intros [= <-]. apply unpack_from_u32_raises in E. exact E.
Qed.

Lemma index_shorter (ofs : Z) :
  0 <= ofs ->
  index P ofs = index (P ++ tail) ofs \/ index P ofs = Raise IndexError.
Proof.
  intros Hofs. unfold index. rewrite len_app. pose proof (len_nonneg tail).
  destruct (ofs <? 0) eqn:E; [lia|]. cbv beta iota zeta. rewrite E. cbn [orb].
  destruct (len P <=? ofs) eqn:E1; [right; reflexivity|].
  destruct (len P + len tail <=? ofs) eqn:E2; [lia|]. left.
  rewrite nth_error_app1 by (unfold len in *; lia). reflexivity.
Qed.

Lemma index_raises (buf : bytes) (ofs : Z) (e : exn) :
  index buf ofs = Raise e -> e = IndexError.
Proof.
  unfold index.
  repeat match goal with
         | |- context [if ?c then _ else _] => destruct c
         | |- context [match ?l with Some _ => _ | None => _ end] => destruct l
         end; congruence.
Qed.

Lemma struct_error_cut_short {A : Type} : cut_short (@Raise A StructError).
Proof. exists StructError. split; reflexivity. Qed.

Lemma index_error_cut_short {A : Type} : cut_short (@Raise A IndexError).
Proof. exists IndexError. split; reflexivity. Qed.

Lemma _dec_string_shorter (encoding : codec) (ofs : Z) :
  0 <= ofs ->
  same_end (_dec_string P ofs encoding) (_dec_string (P ++ tail) ofs encoding).
Proof.
  intros Hofs. unfold _dec_string.
  destruct (_rd_u32_shorter ofs Hofs) as [->| ->].
  - destruct (_rd_u32 (P ++ tail) ofs) as [[n o]|e|] eqn:E; cbn [bind same_end]; auto.
    + right. eexists. reflexivity.
    + intros _. apply _rd_u32_raises in E. subst e. apply struct_error_cut_short.
  - apply cut_short_same_end. apply struct_error_cut_short.
Qed.

Lemma _dec_bool_shorter (ofs : Z) :
  0 <= ofs -> same_end (_dec_bool P ofs) (_dec_bool (P ++ tail) ofs).
Proof.
  intros Hofs. unfold _dec_bool.
  destruct (index_shorter ofs Hofs) as [->| ->].
  - apply same_end_refl.
  - apply cut_short_same_end. apply index_error_cut_short.
Qed.

Lemma _dec_int_shorter (ofs : Z) :
  0 <= ofs -> same_end (_dec_int P ofs) (_dec_int (P ++ tail) ofs).
Proof.
  intros Hofs. unfold _dec_int.
  destruct (_rd_u32_shorter ofs Hofs) as [->| ->].
  - apply same_end_refl.
  - apply cut_short_same_end. apply struct_error_cut_short.
Qed.

Lemma _dec_double_shorter (ofs : Z) :
  0 <= ofs -> same_end (_dec_double P ofs) (_dec_double (P ++ tail) ofs).
Proof.
  intros Hofs. unfold _dec_double, unpack_from_i32.
  destruct (unpack_from_u32_shorter ofs Hofs) as [->| ->];
    [|apply cut_short_same_end; apply struct_error_cut_short].
  destruct (unpack_from_u32 (P ++ tail) ofs) as [u|e|] eqn:E; cbn [bind];
    [|apply same_end_refl..].
  destruct (_rd_u32_shorter (ofs + 4)) as [->| ->]; [lia|apply same_end_refl|].
  apply cut_short_same_end. apply struct_error_cut_short.
Qed.

(** Mapping the value of an outcome keeps the comparison. *)
Lemma same_end_map {A B : Type} (rP rF : result (A * Z)) (f g : A -> B) :
  same_end rP rF ->
  same_end ('(x, o) <- rP ;; Ok (f x, o)) ('(x, o) <- rF ;; Ok (g x, o)).
Proof.
  unfold same_end. destruct rF as [[x e]|e|]; cbn [bind]; auto.
  - intros [(e' & -> & He')|(y & ->)]; cbn [bind].
    + left. exists e'. split; [reflexivity|exact He'].
    + right. eexists. reflexivity.
  - intros H He. destruct (H He) as (e' & -> & He'). cbn [bind].
    exists e'. split; [reflexivity|exact He'].
Qed.

Lemma dec_fuel_shorter (encoding : codec) (fuel : nat) :
  (forall ofs,
      0 <= ofs ->
      same_end (dec_data_fuel fuel P encoding ofs)
        (dec_data_fuel fuel (P ++ tail) encoding ofs)) /\
  (forall n ofs accP acc,
      0 <= ofs ->
      same_end (dec_array_loop fuel P encoding n ofs accP)
        (dec_array_loop fuel (P ++ tail) encoding n ofs acc)) /\
  (forall n ofs accP acc,
      0 <= ofs ->
      same_end (dec_struct_loop fuel P encoding n ofs accP)
        (dec_struct_loop fuel (P ++ tail) encoding n ofs acc)).
Proof.
  induction fuel as [|fuel (IHd & IHa & IHs)]; (split; [|split]).
  - intros ofs _. exact I.
  - intros n ofs accP acc _. cbn. destruct (n <=? 0); cbn; auto.
    right. eexists. reflexivity.
  - intros n ofs accP acc _. cbn. destruct (n <=? 0); cbn; auto.
    right. eexists. reflexivity.
  - intros ofs Hofs. cbn [dec_data_fuel].
    destruct (_rd_u32_shorter ofs Hofs) as [->| ->];
      [|apply cut_short_same_end; apply struct_error_cut_short].
    destruct (_rd_u32 (P ++ tail) ofs) as [[t o]|e|] eqn:E; cbn [bind];
      [|apply same_end_refl..].
    apply _rd_u32_ok in E. destruct E as (-> & _ & _).
    repeat match goal with |- context [if ?c then _ else _] => destruct c end.
    + apply (same_end_map _ _ VStr VStr). apply _dec_string_shorter. lia.
    + apply (same_end_map _ _ VBool VBool). apply _dec_bool_shorter. lia.
    + apply (same_end_map _ _ VInt VInt). apply _dec_int_shorter. lia.
    + apply (same_end_map _ _ VFloat VFloat). apply _dec_double_shorter. lia.
    + destruct (_rd_u32_shorter (ofs + 4)) as [->| ->];
        [lia| |apply cut_short_same_end; apply struct_error_cut_short].
      destruct (_rd_u32 (P ++ tail) (ofs + 4)) as [[n o]|e|] eqn:E; cbn [bind];
        [|apply same_end_refl..].
      apply _rd_u32_ok in E. destruct E as (-> & _ & _).
      apply (same_end_map _ _ VList VList). apply IHa. lia.
    + destruct (_rd_u32_shorter (ofs + 4)) as [->| ->];
        [lia| |apply cut_short_same_end; apply struct_error_cut_short].
      destruct (_rd_u32 (P ++ tail) (ofs + 4)) as [[n o]|e|] eqn:E; cbn [bind];
        [|apply same_end_refl..].
      apply _rd_u32_ok in E. destruct E as (-> & _ & _).
      apply (same_end_map _ _ VDict VDict). apply IHs. lia.
    + apply same_end_refl.
  - intros n ofs accP acc Hofs. cbn [dec_array_loop].
    destruct (n <=? 0); [right; eexists; reflexivity|].
    specialize (IHd ofs Hofs). unfold same_end in IHd.
    destruct (dec_data_fuel fuel (P ++ tail) encoding ofs) as [[v o]|e|] eqn:E;
      cbn [bind].
    + destruct IHd as [Hc|(v' & ->)]; cbn [bind].
      * apply cut_short_same_end. destruct Hc as (e & -> & He). exists e. split; auto.
      * apply IHa. apply (proj1 (dec_fuel_advance _ _ _)) in E. lia.
    + intros He. destruct (IHd He) as (e' & -> & He'). exists e'. split; auto.
    + exact I.
  - intros n ofs accP acc Hofs. cbn [dec_struct_loop].
    destruct (n <=? 0); [right; eexists; reflexivity|].
    pose proof (_dec_string_shorter encoding ofs Hofs) as Hk. unfold same_end in Hk.
    destruct (_dec_string (P ++ tail) ofs encoding) as [[k o]|e|] eqn:E; cbn [bind].
    + apply _dec_string_ok in E. destruct E as (m & _ & Hm & _ & -> & _).
      destruct Hk as [Hc|(k' & ->)]; cbn [bind].
      * apply cut_short_same_end. destruct Hc as (e & -> & He). exists e. split; auto.
      * assert (Ho : 0 <= ofs + 4 + m) by lia.
        specialize (IHd (ofs + 4 + m) Ho). unfold same_end in IHd.
        destruct (dec_data_fuel fuel (P ++ tail) encoding (ofs + 4 + m))
          as [[v o]|e|] eqn:E; cbn [bind].
        -- destruct IHd as [Hc|(v' & ->)]; cbn [bind].
           ++ apply cut_short_same_end. destruct Hc as (e & -> & He).
              exists e. split; auto.
           ++ apply IHs. apply (proj1 (dec_fuel_advance _ _ _)) in E. lia.
        -- intros He. destruct (IHd He) as (e' & -> & He'). exists e'. split; auto.
        -- exact I.
    + intros He. destruct (Hk He) as (e' & -> & He'). exists e'. split; auto.
    + exact I.
Qed.

End Shorter.

(** ** The loop of [dec_request] *)

Lemma dec_data_at_fuel (buf : bytes) (encoding : codec) (ofs : Z) (fuel : nat) :
  (S (length buf) <= fuel)%nat ->
  dec_data_fuel fuel buf encoding ofs = dec_data buf encoding ofs.
Proof.
  intros H. unfold dec_data. apply (proj1 (dec_fuel_mono buf encoding _)); [exact H|].
  apply dec_data_fuel_enough.
Qed.

Lemma dec_data_advance (buf : bytes) (encoding : codec) (ofs : Z) (v : value) (ofs' : Z) :
  dec_data buf encoding ofs = Ok (v, ofs') ->
  - len buf <= ofs <= len buf - 4 /\ ofs + 4 <= ofs'.
Proof. apply (proj1 (dec_fuel_advance buf encoding _)). Qed.

Lemma dec_data_shorter (P tail : bytes) (encoding : codec) (ofs : Z) :
  0 <= ofs -> same_end (dec_data P encoding ofs) (dec_data (P ++ tail) encoding ofs).
Proof.
  intros Hofs.
  rewrite <- (dec_data_at_fuel P encoding ofs (S (length (P ++ tail))))
    by (rewrite length_app; lia).
  apply (proj1 (dec_fuel_shorter P tail encoding _)). exact Hofs.
Qed.

Lemma dec_params_loop_mono (body : bytes) (encoding : codec) (fuel : nat) :
  forall fuel' n ofs acc,
    (fuel <= fuel')%nat ->
    dec_params_loop fuel body encoding n ofs acc <> Fuel ->
    dec_params_loop fuel' body encoding n ofs acc
    = dec_params_loop fuel body encoding n ofs acc.
Proof.
  induction fuel as [|fuel IH]; intros [|fuel'] n ofs acc Hle; cbn [dec_params_loop];
    destruct (n <=? 0); try reflexivity; try lia.
  - intros H. exfalso. apply H. reflexivity.
  - destruct (dec_data body encoding ofs) as [[v o]| |]; cbn [bind]; try reflexivity.
    apply IH. lia.
Qed.

Lemma dec_params_loop_enough (body : bytes) (encoding : codec) (fuel : nat) :
  forall n ofs acc,
    (1 <= fuel)%nat -> - len body <= ofs ->
    Z.max 0 (len body - ofs) < 4 * Z.of_nat fuel ->
    dec_params_loop fuel body encoding n ofs acc <> Fuel.
Proof.
  induction fuel as [|fuel IH]; intros n ofs acc Hf Hlo Hm; [lia|].
  cbn [dec_params_loop]. destruct (n <=? 0); [discriminate|].
  pose proof (dec_data_fuel_enough body encoding ofs) as Hne.
  destruct (dec_data body encoding ofs) as [[v o]| |] eqn:E; cbn [bind];
    [|discriminate|exfalso; apply Hne; reflexivity].
  apply dec_data_advance in E. apply IH; lia.
Qed.

Lemma dec_params_loop_shorter (P tail : bytes) (encoding : codec) (fuel : nat) :
  forall n ofs accP acc,
    0 <= ofs ->
    cut_short (dec_params_loop fuel (P ++ tail) encoding n ofs acc) ->
    cut_short (dec_params_loop fuel P encoding n ofs accP).
Proof.
  induction fuel as [|fuel IH]; intros n ofs accP acc Hofs; cbn [dec_params_loop];
    destruct (n <=? 0); try (intros (e & [=] & _); fail).
  pose proof (dec_data_shorter P tail encoding ofs Hofs) as Hd. unfold same_end in Hd.
  destruct (dec_data (P ++ tail) encoding ofs) as [[v o]|e|] eqn:E; cbn [bind].
  - apply dec_data_advance in E.
    destruct Hd as [(e & -> & He)|(v' & ->)]; cbn [bind].
    + intros _. exists e. split; auto.
    + apply IH. lia.
  - intros (e' & [= <-] & He). destruct (Hd He) as (e'' & -> & He'').
    exists e''. split; auto.
  - intros (e' & [=] & _).
Qed.

(** [dec_request_body] on a buffer that ends too early for a longer one also
    ends too early. *)
Lemma dec_request_body_shorter (P tail : bytes) (encoding : codec) :
  cut_short (dec_request_body (P ++ tail) encoding) ->
  cut_short (dec_request_body P encoding).
Proof.
  unfold dec_request_body.
  pose proof (_dec_string_shorter P tail encoding 0 (Z.le_refl 0)) as Hs.
  unfold same_end in Hs.
  destruct (_dec_string (P ++ tail) 0 encoding) as [[m o]|e|] eqn:E; cbn [bind].
  - apply _dec_string_ok in E. destruct E as (k & _ & Hk & _ & -> & _).
    destruct Hs as [(e & -> & He)|(m' & ->)]; cbn [bind].
    { intros _. exists e. split; auto. }
    destruct (_rd_u32_shorter P tail (0 + 4 + k)) as [->| ->]; [lia| |].
    + destruct (_rd_u32 (P ++ tail) (0 + 4 + k)) as [[n o]|e|] eqn:E; cbn [bind].
      * apply _rd_u32_ok in E. destruct E as (-> & Hb & _).
        intros Hc.
        assert (Hl : cut_short (dec_params_loop (S (length (P ++ tail))) (P ++ tail)
                                  encoding n (0 + 4 + k + 4) [])).
        { destruct (dec_params_loop _ (P ++ tail) encoding n _ []) as [l|e|];
            cbn [bind] in Hc; destruct Hc as (e' & Heq & He); try discriminate.
          injection Heq as <-. exists e. split; auto. }
        apply (dec_params_loop_shorter P tail encoding _ n _ [] []) in Hl; [|lia].
        rewrite (dec_params_loop_mono P encoding (S (length P))
                   (S (length (P ++ tail)))) in Hl.
        -- destruct Hl as (e & -> & He). exists e. split; auto.
        -- rewrite length_app. lia.
        -- pose proof (len_nonneg P).
           destruct (Z.le_gt_cases (- len P) (0 + 4 + k + 4)) as [Hle|Hgt]; [|lia].
           apply dec_params_loop_enough; [lia|exact Hle|]. unfold len in *. lia.
      * intros (e' & [= <-] & He). exists e. split; auto.
      * intros (e' & [=] & _).
    + intros _. cbn [bind]. apply struct_error_cut_short.
  - intros (e' & [= <-] & He). destruct (Hs He) as (e'' & -> & He'').
    exists e''. split; auto.
  - intros (e' & [=] & _).
Qed.

(** ** One byte short *)

Lemma _rd_u32_past_end (buf : bytes) (ofs : Z) :
  0 <= ofs -> len buf - ofs < 4 -> _rd_u32 buf ofs = Raise StructError.
Proof.
  intros H1 H2. unfold _rd_u32, unpack_from_u32.
  destruct (ofs <? 0) eqn:E; [lia|]. cbn [andb].
  destruct (len buf - ofs <? 4) eqn:E1; [reflexivity|lia].
Qed.

Lemma index_past_end (buf : bytes) (ofs : Z) :
  0 <= ofs -> len buf <= ofs -> index buf ofs = Raise IndexError.
Proof.
  intros H1 H2. unfold index. destruct (ofs <? 0) eqn:E; [lia|].
  cbv beta iota zeta. rewrite E. cbn [orb].
  destruct (len buf <=? ofs) eqn:E1; [reflexivity|lia].
Qed.

Lemma one_byte_short_app (buf : bytes) (ofs : Z) (b rest : bytes) :
  rest <> [] ->
  one_byte_short buf ofs (b ++ rest) ->
  at_offset buf ofs (b ++ removelast rest) /\ one_byte_short buf (ofs + len b) rest.
Proof.
  intros Hne (pre & -> & <-). rewrite removelast_app by exact Hne. split.
  - exists pre. split; reflexivity.
  - exists (pre ++ b). rewrite <- app_assoc, len_app. split; reflexivity.
Qed.

Lemma one_byte_short_len (buf : bytes) (ofs : Z) (bs : bytes) :
  bs <> [] -> one_byte_short buf ofs bs -> len buf = ofs + len bs - 1 /\ 0 <= ofs.
Proof.
  intros Hne (pre & -> & <-). rewrite len_app. pose proof (len_nonneg pre).
  split; [|lia]. destruct (exists_last Hne) as (l & x & ->).
  rewrite removelast_last, len_app. unfold len. cbn [length]. lia.
Qed.

Lemma be32_not_nil (n : Z) : be32 n <> [].
Proof. discriminate. Qed.

Lemma app_not_nil_l {A : Type} (l1 l2 : list A) : l1 <> [] -> l1 ++ l2 <> [].
Proof. destruct l1; [congruence|discriminate]. Qed.

Lemma enc_data_not_nil (math_log : float -> float -> float) (encoding : codec)
  (v : value) (bs : bytes) :
  enc_data math_log v encoding = Ok bs -> bs <> [].
Proof.
  assert (Htag : forall t r (b : bytes), _be_u32 t = Ok r -> r ++ b <> []).
  { intros t r b H. apply _be_u32_ok in H. destruct H as (_ & ->). discriminate. }
  destruct v; cbn [enc_data];
    unfold enc_bool, enc_integer, enc_double, enc_string; intros H; inv_ok; subst bs;
    eapply Htag; eassumption.
Qed.

Lemma cut_short_bind {A B : Type} (r : result A) (k : A -> result B) :
  cut_short r -> cut_short (bind r k).
Proof. intros (e & -> & He). exists e. split; [reflexivity|exact He]. Qed.

Lemma not_cut_short_ok {A : Type} (a : A) : ~ cut_short (Ok a).
Proof. intros (e & [=] & _). Qed.

Section OneByteShort.

Variable math_log : float -> float -> float.
Variable encoding : codec.

Lemma enc_array_items_not_nil (a : list value) (items : bytes) :
  a <> [] ->
  enc_array_items (fun el => enc_data math_log el encoding) a = Ok items ->
  items <> [].
Proof.
  destruct a as [|v a]; [congruence|]. intros _ H. cbn [enc_array_items] in H.
  inv_ok. subst items. apply app_not_nil_l. eapply enc_data_not_nil. eassumption.
Qed.

Lemma enc_struct_items_not_nil (d : list (pystr * value)) (items : bytes) :
  d <> [] ->
  enc_struct_items (fun el => enc_data math_log el encoding) encoding d = Ok items ->
  items <> [].
Proof.
  destruct d as [|[k v] d]; [congruence|]. intros _ H. cbn [enc_struct_items] in H.
  inv_ok. subst items. apply _be_u32_ok in E0. destruct E0 as (_ & ->). discriminate.
Qed.

Lemma array_loop_short (a : list value) :
  a <> [] ->
  Forall (fun v => representable encoding v = true ->
                   trailing_text encoding v = false -> cut_when_short math_log encoding v) a ->
  forallb (representable encoding) a = true ->
  last_holds (trailing_text encoding) a = false ->
  forall items : bytes,
    enc_array_items (fun el => enc_data math_log el encoding) a = Ok items ->
    exists fuel0 : nat,
      forall fuel : nat,
        (fuel0 <= fuel)%nat ->
        forall (buf : bytes) (ofs : Z) (acc : list value),
          one_byte_short buf ofs items ->
          cut_short (dec_array_loop fuel buf encoding (len a) ofs acc).
Proof.
  intros Hne Hall. induction Hall as [|v a Hv Hall IH]; [congruence|].
  intros Hrep Hlast items Henc.
  cbn [forallb] in Hrep. apply andb_true_iff in Hrep. destruct Hrep as [Hr1 Hr2].
  cbn [enc_array_items] in Henc. inv_ok. subst items.
  assert (Hl : len (v :: a) = 1 + len a) by (unfold len; cbn [length]; lia).
  pose proof (len_nonneg a) as Hla.
  destruct a as [|v' a'].
  - injection E0 as <-. cbn [last_holds] in Hlast.
    destruct (Hv Hr1 Hlast _ E) as (f1 & Hf1).
    exists (S f1). intros [|fuel] Hf buf ofs acc Hshort; [lia|].
    cbn [dec_array_loop]. rewrite Hl. destruct (1 + len [] <=? 0) eqn:E1; [lia|].
    rewrite app_nil_r in Hshort. apply cut_short_bind. apply Hf1; [lia|exact Hshort].
  - assert (Hne' : v' :: a' <> []) by discriminate.
    pose proof (enc_array_items_not_nil _ _ Hne' E0) as Hitems.
    destruct (IH Hne' Hr2 Hlast _ E0) as (f2 & Hf2).
    destruct (representable_round_trips math_log encoding v Hr1 _ E) as (fr & Hfr).
    exists (S (Nat.max fr f2)). intros [|fuel] Hf buf ofs acc Hshort; [lia|].
    cbn [dec_array_loop]. rewrite Hl. destruct (1 + len (v' :: a') <=? 0) eqn:E1; [lia|].
    apply one_byte_short_app in Hshort; [|exact Hitems]. destruct Hshort as [Hat Hshort].
    rewrite (dec_data_fuel_ge _ _ _ _ fr fuel (Hfr buf ofs _ Hat)) by lia. cbn [bind].
    replace (1 + len (v' :: a') - 1) with (len (v' :: a')) by lia.
    apply Hf2; [lia|exact Hshort].
Qed.

Lemma one_byte_short_app2 (buf : bytes) (ofs : Z) (a b rest : bytes) :
  rest <> [] ->
  one_byte_short buf ofs (a ++ b ++ rest) ->
  at_offset buf ofs (a ++ b ++ removelast rest) /\
  one_byte_short buf (ofs + len a + len b) rest.
Proof.
  intros Hne H. rewrite app_assoc in H. apply one_byte_short_app in H; [|exact Hne].
  rewrite <- app_assoc, len_app, Z.add_assoc in H. exact H.
Qed.

Lemma struct_loop_short (d : list (pystr * value)) :
  d <> [] ->
  Forall (fun kv => representable encoding (snd kv) = true ->
                    trailing_text encoding (snd kv) = false ->
                    cut_when_short math_log encoding (snd kv)) d ->
  forallb (fun kv => match kv with
                     | (k, v') => text_ok encoding k && representable encoding v'
                     end) d = true ->
  last_holds (fun kv => match kv with
                        | (_, v') => trailing_text encoding v'
                        end) d = false ->
  forall items : bytes,
    enc_struct_items (fun el => enc_data math_log el encoding) encoding d = Ok items ->
    exists fuel0 : nat,
      forall fuel : nat,
        (fuel0 <= fuel)%nat ->
        forall (buf : bytes) (ofs : Z) (acc : list (pystr * value)),
          one_byte_short buf ofs items ->
          cut_short (dec_struct_loop fuel buf encoding (len d) ofs acc).
Proof.
  intros Hne Hall. induction Hall as [|[k v] d Hv Hall IH]; [congruence|].
  intros Hrep Hlast items Henc.
  cbn [forallb] in Hrep. apply andb_true_iff in Hrep. destruct Hrep as [Hr1 Hr2].
  apply andb_true_iff in Hr1. destruct Hr1 as [Hk Hr1].
  cbn [enc_struct_items] in Henc. inv_ok. subst items. cbn [snd] in Hv.
  assert (Hl : len ((k, v) :: d) = 1 + len d) by (unfold len; cbn [length]; lia).
  pose proof (len_nonneg d) as Hld.
  pose proof (enc_data_not_nil _ _ _ _ E1) as Hb.
  pose proof (_be_u32_ok _ _ E0) as (_ & Hn4).
  destruct d as [|kv' d'].
  - injection E2 as <-. cbn [last_holds] in Hlast.
    destruct (Hv Hr1 Hlast _ E1) as (f1 & Hf1).
    exists (S f1). intros [|fuel] Hf buf ofs acc Hshort; [lia|].
    cbn [dec_struct_loop]. rewrite Hl. destruct (1 + len [] <=? 0) eqn:E3; [lia|].
    rewrite app_nil_r in Hshort.
    apply one_byte_short_app2 in Hshort; [|exact Hb]. destruct Hshort as [Hat Hshort].
    rewrite (_dec_string_at_offset buf encoding ofs k a a0 _ Hk E E0 Hat). cbn [bind].
    apply cut_short_bind. apply Hf1; [lia|].
    subst a0. rewrite len_be32 in Hshort. exact Hshort.
  - assert (Hne' : kv' :: d' <> []) by discriminate.
    pose proof (enc_struct_items_not_nil _ _ Hne' E2) as Hitems.
    destruct (IH Hne' Hr2 Hlast _ E2) as (f2 & Hf2).
    destruct (representable_round_trips math_log encoding v Hr1 _ E1) as (fr & Hfr).
    exists (S (Nat.max fr f2)). intros [|fuel] Hf buf ofs acc Hshort; [lia|].
    cbn [dec_struct_loop]. rewrite Hl.
    destruct (1 + len (kv' :: d') <=? 0) eqn:E3; [lia|].
    assert (Hrest : a1 ++ a2 <> []) by (apply app_not_nil_l; exact Hb).
    apply one_byte_short_app2 in Hshort; [|exact Hrest].
    destruct Hshort as [Hat Hshort].
    rewrite (_dec_string_at_offset buf encoding ofs k a a0 _ Hk E E0 Hat). cbn [bind].
    apply one_byte_short_app in Hshort; [|exact Hitems]. destruct Hshort as [Hat' Hshort].
    subst a0. rewrite len_be32 in Hat', Hshort.
    rewrite (dec_data_fuel_ge _ _ _ _ fr fuel (Hfr buf _ _ Hat')) by lia. cbn [bind].
    replace (1 + len (kv' :: d') - 1) with (len (kv' :: d')) by lia.
    apply Hf2; [lia|exact Hshort].
Qed.

(** A representable value whose encoding does not end with the bytes of a
    text is not decoded from a buffer that lacks the last byte of it: the
    decoder is cut short. *)
Lemma representable_cut_when_short (v : value) :
  representable encoding v = true -> trailing_text encoding v = false ->
  cut_when_short math_log encoding v.
Proof.
  induction v as [b|n|x|s|a IH|a IH|d IH|repr] using value_ind;
    intros Hrep Htt bs Henc; cbn [representable] in Hrep; try discriminate;
    cbn [enc_data trailing_text] in Henc, Htt.
  - (* Bool *)
    unfold enc_bool in Henc. inv_ok. subst bs.
    apply _be_u32_ok in E. destruct E as (Ht & ->).
    exists 1%nat. intros [|fuel] Hf buf ofs Hshort; [lia|]. cbn [dec_data_fuel].
    pose proof (one_byte_short_len _ _ _ (app_not_nil_l _ _ (be32_not_nil _)) Hshort)
      as (Hlen & Hofs).
    assert (Hat : at_offset buf ofs (be32 T_BOOL ++ [])).
    { destruct Hshort as (pre & -> & <-). exists pre.
      destruct b; split; reflexivity. }
    rewrite (_rd_u32_at_offset _ _ _ _ Hat Ht). cbn [bind].
    change (T_BOOL =? T_STRING) with false. change (T_BOOL =? T_BOOL) with true.
    cbv iota. unfold _dec_bool. rewrite index_past_end.
    + apply index_error_cut_short.
    + lia.
    + rewrite len_app, len_be32 in Hlen. destruct b; cbn in Hlen; lia.
  - (* Integer *)
    unfold enc_integer in Henc. inv_ok. subst bs.
    apply _be_u32_ok in E. destruct E as (Ht & ->).
    apply _be_u32_ok in E0. destruct E0 as (Hw & ->).
    exists 1%nat. intros [|fuel] Hf buf ofs Hshort; [lia|]. cbn [dec_data_fuel].
    pose proof (one_byte_short_len _ _ _ (app_not_nil_l _ _ (be32_not_nil _)) Hshort)
      as (Hlen & Hofs).
    apply one_byte_short_app in Hshort; [|apply be32_not_nil].
    destruct Hshort as [Hat _].
    rewrite (_rd_u32_at_offset _ _ _ _ Hat Ht). cbn [bind].
    change (T_INTEGER =? T_STRING) with false. change (T_INTEGER =? T_BOOL) with false.
    change (T_INTEGER =? T_INTEGER) with true. cbv iota.
    unfold _dec_int. rewrite _rd_u32_past_end.
    + apply struct_error_cut_short.
    + lia.
    + rewrite len_app, !len_be32 in Hlen. lia.
  - (* String *)
    unfold enc_string in Henc. inv_ok. subst bs.
    pose proof (_b_ok _ _ _ E) as Hb. rewrite Hb in Htt.
    destruct a; [|discriminate].
    apply _be_u32_ok in E0. destruct E0 as (Ht & ->).
    apply _be_u32_ok in E1. destruct E1 as (Hw & ->).
    exists 1%nat. intros [|fuel] Hf buf ofs Hshort; [lia|]. cbn [dec_data_fuel].
    rewrite app_nil_r in Hshort.
    pose proof (one_byte_short_len _ _ _ (app_not_nil_l _ _ (be32_not_nil _)) Hshort)
      as (Hlen & Hofs).
    apply one_byte_short_app in Hshort; [|apply be32_not_nil].
    destruct Hshort as [Hat _].
    rewrite (_rd_u32_at_offset _ _ _ _ Hat Ht). cbn [bind].
    change (T_STRING =? T_STRING) with true. cbv iota.
    unfold _dec_string. rewrite _rd_u32_past_end.
    + apply struct_error_cut_short.
    + lia.
    + rewrite len_app, !len_be32 in Hlen. lia.
  - (* Array *)
    inv_ok. subst bs.
    pose proof (_be_u32_ok _ _ E) as (Ht & ->).
    pose proof (_be_u32_ok _ _ E0) as (Hn & ->).
    destruct a as [|v a].
    + injection E1 as <-.
      exists 1%nat. intros [|fuel] Hf buf ofs Hshort; [lia|]. cbn [dec_data_fuel].
      rewrite app_nil_r in Hshort.
      pose proof (one_byte_short_len _ _ _ (app_not_nil_l _ _ (be32_not_nil _)) Hshort)
        as (Hlen & Hofs).
      apply one_byte_short_app in Hshort; [|apply be32_not_nil].
      destruct Hshort as [Hat _].
      rewrite (_rd_u32_at_offset _ _ _ _ Hat Ht). cbn [bind].
      change (T_ARRAY =? T_STRING) with false. change (T_ARRAY =? T_BOOL) with false.
      change (T_ARRAY =? T_INTEGER) with false. change (T_ARRAY =? T_DOUBLE) with false.
      change (T_ARRAY =? T_ARRAY) with true. cbv iota.
      rewrite _rd_u32_past_end.
      * apply struct_error_cut_short.
      * lia.
      * rewrite len_app, !len_be32 in Hlen. lia.
    + assert (Hne : v :: a <> []) by discriminate.
      pose proof (enc_array_items_not_nil _ _ Hne E1) as Hitems.
      destruct (array_loop_short (v :: a) Hne IH Hrep Htt _ E1) as (f & Hf).
      exists (S f). intros [|fuel] Hfu buf ofs Hshort; [lia|]. cbn [dec_data_fuel].
      apply one_byte_short_app2 in Hshort; [|exact Hitems].
      destruct Hshort as [Hat Hshort].
      rewrite (_rd_u32_at_offset _ _ _ _ Hat Ht). cbn [bind].
      change (T_ARRAY =? T_STRING) with false. change (T_ARRAY =? T_BOOL) with false.
      change (T_ARRAY =? T_INTEGER) with false. change (T_ARRAY =? T_DOUBLE) with false.
      change (T_ARRAY =? T_ARRAY) with true. cbv iota.
      apply at_offset_app in Hat. rewrite len_be32 in Hat.
      rewrite (_rd_u32_at_offset _ _ _ _ Hat Hn). cbn [bind].
      apply cut_short_bind. rewrite !len_be32 in Hshort. apply Hf; [lia|exact Hshort].
  - (* Struct *)
    apply andb_true_iff in Hrep. destruct Hrep as [Hdis Hrep].
    inv_ok. subst bs.
    pose proof (_be_u32_ok _ _ E) as (Ht & ->).
    pose proof (_be_u32_ok _ _ E0) as (Hn & ->).
    destruct d as [|kv d].
    + injection E1 as <-.
      exists 1%nat. intros [|fuel] Hf buf ofs Hshort; [lia|]. cbn [dec_data_fuel].
      rewrite app_nil_r in Hshort.
      pose proof (one_byte_short_len _ _ _ (app_not_nil_l _ _ (be32_not_nil _)) Hshort)
        as (Hlen & Hofs).
      apply one_byte_short_app in Hshort; [|apply be32_not_nil].
      destruct Hshort as [Hat _].
      rewrite (_rd_u32_at_offset _ _ _ _ Hat Ht). cbn [bind].
      change (T_STRUCT =? T_STRING) with false. change (T_STRUCT =? T_BOOL) with false.
      change (T_STRUCT =? T_INTEGER) with false. change (T_STRUCT =? T_DOUBLE) with false.
      change (T_STRUCT =? T_ARRAY) with false. change (T_STRUCT =? T_STRUCT) with true.
      cbv iota. rewrite _rd_u32_past_end.
      * apply struct_error_cut_short.
      * lia.
      * rewrite len_app, !len_be32 in Hlen. lia.
    + assert (Hne : kv :: d <> []) by discriminate.
      pose proof (enc_struct_items_not_nil _ _ Hne E1) as Hitems.
      destruct (struct_loop_short (kv :: d) Hne IH Hrep Htt _ E1) as (f & Hf).
      exists (S f). intros [|fuel] Hfu buf ofs Hshort; [lia|]. cbn [dec_data_fuel].
      apply one_byte_short_app2 in Hshort; [|exact Hitems].
      destruct Hshort as [Hat Hshort].
      rewrite (_rd_u32_at_offset _ _ _ _ Hat Ht). cbn [bind].
      change (T_STRUCT =? T_STRING) with false. change (T_STRUCT =? T_BOOL) with false.
      change (T_STRUCT =? T_INTEGER) with false. change (T_STRUCT =? T_DOUBLE) with false.
      change (T_STRUCT =? T_ARRAY) with false. change (T_STRUCT =? T_STRUCT) with true.
      cbv iota.
      apply at_offset_app in Hat. rewrite len_be32 in Hat.
      rewrite (_rd_u32_at_offset _ _ _ _ Hat Hn). cbn [bind].
      apply cut_short_bind. rewrite !len_be32 in Hshort. apply Hf; [lia|exact Hshort].
Qed.

Lemma params_loop_round_trip (params : list value) :
  forallb (representable encoding) params = true ->
  forall items : bytes,
    enc_array_items (fun p => enc_data math_log p encoding) params = Ok items ->
    exists fuel0 : nat,
      forall fuel : nat,
        (fuel0 <= fuel)%nat ->
        forall (buf : bytes) (ofs : Z) (rest : bytes) (acc : list value),
          at_offset buf ofs (items ++ rest) ->
          dec_params_loop fuel buf encoding (len params) ofs acc = Ok (acc ++ params).
Proof.
  induction params as [|v params IH]; intros Hrep items Henc.
  - injection Henc as <-. exists 0%nat. intros fuel _ buf ofs rest acc _.
    destruct fuel; cbn; rewrite app_nil_r; reflexivity.
  - cbn [forallb] in Hrep. apply andb_true_iff in Hrep. destruct Hrep as [Hr1 Hr2].
    cbn [enc_array_items] in Henc. inv_ok. subst items.
    destruct (IH Hr2 _ E0) as (f2 & Hf2).
    destruct (representable_round_trips math_log encoding v Hr1 _ E) as (fr & Hfr).
    exists (S f2). intros [|fuel] Hf buf ofs rest acc Hat; [lia|].
    cbn [dec_params_loop].
    assert (Hl : len (v :: params) = 1 + len params) by (unfold len; cbn [length]; lia).
    pose proof (len_nonneg params). rewrite Hl.
    destruct (1 + len params <=? 0) eqn:E1; [lia|].
    rewrite <- app_assoc in Hat.
    rewrite (dec_data_of_fuel _ _ _ fr _ (Hfr buf ofs _ Hat)). cbn [bind].
    apply at_offset_app in Hat.
    replace (1 + len params - 1) with (len params) by lia.
    rewrite (Hf2 fuel) with (rest := rest) by (lia || exact Hat).
    rewrite <- app_assoc. reflexivity.
Qed.

Lemma dec_data_cut_when_short (v : value) (bs buf : bytes) (ofs : Z) :
  representable encoding v = true -> trailing_text encoding v = false ->
  enc_data math_log v encoding = Ok bs ->
  one_byte_short buf ofs bs ->
  cut_short (dec_data buf encoding ofs).
Proof.
  intros Hrep Htt Henc Hshort.
  destruct (representable_cut_when_short v Hrep Htt bs Henc) as (f0 & Hf0).
  rewrite <- (dec_data_at_fuel buf encoding ofs (Nat.max f0 (S (length buf)))) by lia.
  apply Hf0; [lia|exact Hshort].
Qed.

Lemma params_loop_short (params : list value) :
  params <> [] ->
  forallb (representable encoding) params = true ->
  last_holds (trailing_text encoding) params = false ->
  forall items : bytes,
    enc_array_items (fun p => enc_data math_log p encoding) params = Ok items ->
    exists fuel0 : nat,
      forall fuel : nat,
        (fuel0 <= fuel)%nat ->
        forall (buf : bytes) (ofs : Z) (acc : list value),
          one_byte_short buf ofs items ->
          cut_short (dec_params_loop fuel buf encoding (len params) ofs acc).
Proof.
  induction params as [|v params IH]; [congruence|].
  intros _ Hrep Hlast items Henc.
  cbn [forallb] in Hrep. apply andb_true_iff in Hrep. destruct Hrep as [Hr1 Hr2].
  cbn [enc_array_items] in Henc. inv_ok. subst items.
  assert (Hl : len (v :: params) = 1 + len params) by (unfold len; cbn [length]; lia).
  pose proof (len_nonneg params) as Hlp.
  destruct params as [|v' params'].
  - injection E0 as <-. cbn [last_holds] in Hlast.
    exists 1%nat. intros [|fuel] Hf buf ofs acc Hshort; [lia|].
    cbn [dec_params_loop]. rewrite Hl. destruct (1 + len [] <=? 0) eqn:E1; [lia|].
    rewrite app_nil_r in Hshort. apply cut_short_bind.
    apply (dec_data_cut_when_short v a); assumption.
  - assert (Hne' : v' :: params' <> []) by discriminate.
    pose proof (enc_array_items_not_nil _ _ Hne' E0) as Hitems.
    destruct (IH Hne' Hr2 Hlast _ E0) as (f2 & Hf2).
    destruct (representable_round_trips math_log encoding v Hr1 _ E) as (fr & Hfr).
    exists (S f2). intros [|fuel] Hf buf ofs acc Hshort; [lia|].
    cbn [dec_params_loop]. rewrite Hl.
    destruct (1 + len (v' :: params') <=? 0) eqn:E1; [lia|].
    apply one_byte_short_app in Hshort; [|exact Hitems]. destruct Hshort as [Hat Hshort].
    rewrite (dec_data_of_fuel _ _ _ fr _ (Hfr buf ofs _ Hat)). cbn [bind].
    replace (1 + len (v' :: params') - 1) with (len (v' :: params')) by lia.
    apply Hf2; [lia|exact Hshort].
Qed.

(** The body [enc_request] writes, read back by [dec_request_body]. *)
Lemma dec_request_body_round_trip (method : pystr) (params : list value)
  (m n c ps : bytes) :
  text_ok encoding method = true ->
  forallb (representable encoding) params = true ->
  _b method encoding = Ok m ->
  _be_u32 (len m) = Ok n ->
  _be_u32 (len params) = Ok c ->
  enc_array_items (fun p => enc_data math_log p encoding) params = Ok ps ->
  dec_request_body (n ++ m ++ c ++ ps) encoding = Ok (method, params).
Proof.
  intros Hm Hrep Em En Ec Eps. unfold dec_request_body.
  set (body := n ++ m ++ c ++ ps).
  assert (Hat : at_offset body 0 (n ++ m ++ c ++ ps)) by (exists []; split; reflexivity).
  rewrite (_dec_string_at_offset body encoding 0 method m n _ Hm Em En Hat). cbn [bind].
  apply at_offset_app in Hat. apply at_offset_app in Hat.
  pose proof (_be_u32_ok _ _ En) as (_ & ->). pose proof (_be_u32_ok _ _ Ec) as (Hc & ->).
  rewrite len_be32 in Hat. rewrite (_rd_u32_at_offset _ _ _ _ Hat Hc). cbn [bind].
  apply at_offset_app in Hat. rewrite len_be32 in Hat.
  destruct (params_loop_round_trip params Hrep ps Eps) as (f0 & Hf0).
  rewrite <- (app_nil_r ps) in Hat.
  pose proof (Hf0 (Nat.max f0 (S (length body))) (Nat.le_max_l _ _) body _ [] [] Hat)
    as Hloop.
  rewrite (dec_params_loop_mono body encoding (S (length body))) in Hloop.
  - rewrite Hloop. reflexivity.
  - apply Nat.le_max_r.
  - pose proof (len_nonneg body). pose proof (len_nonneg m).
    apply dec_params_loop_enough; [lia|lia|]. unfold len in *. lia.
Qed.

Lemma dec_request_body_one_short (method : pystr) (params : list value)
  (m n c ps : bytes) :
  text_ok encoding method = true ->
  forallb (representable encoding) params = true ->
  last_holds (trailing_text encoding) params = false ->
  _b method encoding = Ok m ->
  _be_u32 (len m) = Ok n ->
  _be_u32 (len params) = Ok c ->
  enc_array_items (fun p => enc_data math_log p encoding) params = Ok ps ->
  cut_short (dec_request_body (removelast (n ++ m ++ c ++ ps)) encoding).
Proof.
  intros Hm Hrep Hlast Em En Ec Eps. unfold dec_request_body.
  set (body := removelast (n ++ m ++ c ++ ps)).
  assert (Hshort : one_byte_short body 0 (n ++ m ++ c ++ ps))
    by (exists []; split; reflexivity).
  pose proof (_be_u32_ok _ _ Ec) as (Hc & Hc4).
  assert (Hcne : c ++ ps <> []) by (subst c; discriminate).
  apply one_byte_short_app2 in Hshort; [|exact Hcne]. destruct Hshort as [Hat Hshort].
  rewrite (_dec_string_at_offset body encoding 0 method m n _ Hm Em En Hat). cbn [bind].
  pose proof (_be_u32_ok _ _ En) as (_ & Hn4). subst n. rewrite len_be32 in Hshort.
  pose proof (len_nonneg m) as Hlm.
  destruct params as [|v params].
  - injection Eps as <-. rewrite app_nil_r in Hshort.
    assert (Hcne' : c <> []) by (subst c; discriminate).
    apply (one_byte_short_len _ _ _ Hcne') in Hshort. destruct Hshort as (Hlen & _).
    subst c. rewrite len_be32 in Hlen.
    rewrite _rd_u32_past_end by lia. cbn [bind]. apply struct_error_cut_short.
  - assert (Hne : v :: params <> []) by discriminate.
    pose proof (enc_array_items_not_nil _ _ Hne Eps) as Hitems.
    apply one_byte_short_app in Hshort; [|exact Hitems]. destruct Hshort as [Hat' Hshort].
    subst c. rewrite len_be32 in Hshort.
    rewrite (_rd_u32_at_offset _ _ _ _ Hat' Hc). cbn [bind].
    apply cut_short_bind.
    destruct (params_loop_short (v :: params) Hne Hrep Hlast ps Eps) as (f0 & Hf0).
    pose proof (Hf0 (Nat.max f0 (S (length body))) (Nat.le_max_l _ _) body _ [] Hshort)
      as Hloop.
    rewrite (dec_params_loop_mono body encoding (S (length body))) in Hloop.
    + exact Hloop.
    + apply Nat.le_max_r.
    + pose proof (len_nonneg body).
      apply dec_params_loop_enough; [lia|lia|]. unfold len in *. lia.
Qed.

(** The body of a request that does not end with the bytes of a text is not
    decoded from any shorter start of it: the decoder is cut short. *)
Lemma dec_request_body_strict_prefix (method : pystr) (params : list value)
  (m n c ps P tail : bytes) :
  text_ok encoding method = true ->
  forallb (representable encoding) params = true ->
  last_holds (trailing_text encoding) params = false ->
  _b method encoding = Ok m ->
  _be_u32 (len m) = Ok n ->
  _be_u32 (len params) = Ok c ->
  enc_array_items (fun p => enc_data math_log p encoding) params = Ok ps ->
  P ++ tail = n ++ m ++ c ++ ps -> tail <> [] ->
  cut_short (dec_request_body P encoding).
Proof.
  intros Hm Hrep Hlast Em En Ec Eps Hsplit Hne.
  pose proof (dec_request_body_one_short method params m n c ps Hm Hrep Hlast Em En Ec Eps)
    as Hone.
  rewrite <- Hsplit in Hone. rewrite removelast_app in Hone by exact Hne.
  apply dec_request_body_shorter in Hone. exact Hone.
Qed.

End OneByteShort.

(** ** Requests *)

Lemma bytes_eqb_refl (b : bytes) : bytes_eqb b b = true.
Proof.
  induction b as [|x b IH]; cbn; [reflexivity|]. rewrite IH, andb_true_r.
  apply Byte.byte_dec_lb. reflexivity.
Qed.

(** [dec_request] on a frame split into its eight header bytes and its body. *)
Lemma dec_request_frame (header body : bytes) (encoding : codec) :
  len header = 8 ->
  dec_request (header ++ body) encoding =
  if negb (bytes_eqb (slice header 0 4) (slice HDR_REQ 0 4))
  then Raise (ValueError InvalidRequestFrame)
  else
    l <- _be_u32 (8 + len body) ;;
    if negb (bytes_eqb (slice header 4 8) l) then Raise (ValueError InvalidRequestFrame)
    else dec_request_body body encoding.
Proof.
  intros Hh. unfold dec_request. rewrite (slice_body header body Hh).
  rewrite !(slice_in_prefix header) by lia.
  rewrite len_app, Hh. pose proof (len_nonneg body).
  destruct (8 + len body <? 8) eqn:E; [lia|]. reflexivity.
Qed.

(** A frame with the request magic and the length of what it holds is decoded
    as its body is. *)
Lemma dec_request_restamped (body : bytes) (encoding : codec) :
  8 + len body < 2 ^ 32 ->
  dec_request (HDR_REQ ++ be32 (8 + len body) ++ body) encoding
  = dec_request_body body encoding.
Proof.
  intros Hl. pose proof (len_nonneg body).
  change (HDR_REQ ++ be32 (8 + len body) ++ body)
    with ((HDR_REQ ++ be32 (8 + len body)) ++ body).
  rewrite dec_request_frame by reflexivity.
  rewrite _be_u32_in_range by lia. cbn [bind].
  change (slice (HDR_REQ ++ be32 (8 + len body)) 0 4) with HDR_REQ.
  change (slice HDR_REQ 0 4) with HDR_REQ.
  change (slice (HDR_REQ ++ be32 (8 + len body)) 4 8) with (be32 (8 + len body)).
  rewrite !bytes_eqb_refl. reflexivity.
Qed.

(** The parts of a frame that [enc_request] returns. *)
Lemma enc_request_ok (math_log : float -> float -> float) (encoding : codec)
  (method : pystr) (params : list value) (frame : bytes) :
  enc_request math_log method params encoding = Ok frame ->
  exists m n c ps : bytes,
    _b method encoding = Ok m /\
    _be_u32 (len m) = Ok n /\
    _be_u32 (len params) = Ok c /\
    enc_array_items (fun p => enc_data math_log p encoding) params = Ok ps /\
    8 + len (n ++ m ++ c ++ ps) < 2 ^ 32 /\
    frame = HDR_REQ ++ be32 (8 + len (n ++ m ++ c ++ ps)) ++ n ++ m ++ c ++ ps.
Proof.
  intros Henc. unfold enc_request in Henc. inv_ok. subst frame.
  match goal with
  | H : _be_u32 (8 + _) = Ok _ |- _ => pose proof (_be_u32_ok _ _ H) as (Ht & ->)
  end.
  do 4 eexists. repeat split; try eassumption. lia.
Qed.

(** The round trip of a request: a representable method name and
    representable parameters come back from the frame [enc_request] builds. *)
Lemma dec_request_enc_request (math_log : float -> float -> float) (encoding : codec)
  (method : pystr) (params : list value) (frame : bytes) :
  text_ok encoding method = true ->
  forallb (representable encoding) params = true ->
  enc_request math_log method params encoding = Ok frame ->
  dec_request frame encoding = Ok (method, params).
Proof.
  intros Hm Hrep Henc. apply enc_request_ok in Henc.
  destruct Henc as (m & n & c & ps & Em & En & Ec & Eps & Hl & ->).
  rewrite dec_request_restamped by exact Hl.
  apply (dec_request_body_round_trip math_log); assumption.
Qed.

(** ** Receiving *)

Lemma len_zero_nil {A : Type} (l : list A) : len l = 0 -> l = [].
Proof. destruct l; [reflexivity|]. unfold len. cbn [length]. lia. Qed.

Lemma len_pos {A : Type} (l : list A) : l <> [] -> 0 < len l.
Proof. destruct l; [congruence|]. unfold len. cbn [length]. lia. Qed.

Lemma app_eq_app_le {A : Type} (c r a b : list A) :
  c ++ r = a ++ b -> (length c <= length a)%nat ->
  exists a' : list A, a = c ++ a' /\ r = a' ++ b.
Proof.
  revert a. induction c as [|x c IH]; intros a H Hl.
  - exists a. split; [reflexivity|exact H].
  - destruct a as [|y a]; [cbn in Hl; lia|]. cbn in H. injection H as <- H.
    destruct (IH a H) as (a' & -> & ->); [cbn in Hl; lia|].
    exists a'. split; reflexivity.
Qed.

(** A timeout that is a number and not negative: what is there already is
    there in time. *)
Lemma in_time_now (timeout : float) :
  is_nan timeout = false -> (timeout <? 0)%float = false -> in_time timeout 0 = true.
Proof.
  unfold in_time, is_nan. rewrite eqb_spec, ltb_spec, leb_spec.
  change (Prim2SF 0) with (S754_zero false).
  destruct (Prim2SF timeout) as [s|s| |s m e]; cbn; try discriminate;
    destruct s; try discriminate; reflexivity.
Qed.

Lemma settimeout_accepted (sock : socket) (timeout : float) :
  accepted sock timeout ->
  settimeout sock timeout
  = Ok (Socket (arriving sock) (closing sock) timeout (time_error sock)).
Proof.
  intros (Hn & Hneg & Ht). unfold settimeout. rewrite Hn, Ht, Hneg. reflexivity.
Qed.

Lemma accepted_in_time_now (sock : socket) (timeout : float) :
  accepted sock timeout -> in_time timeout 0 = true.
Proof. intros (Hn & Hneg & _). apply in_time_now; assumption. Qed.

(** [recv] on a socket whose next chunk is there in time. *)
Lemma recv_timely (d : float) (c : bytes) (rest : list (float * bytes))
  (cl : option float) (timeout : float) (te : float -> option exn) (bufsize : Z) :
  0 < bufsize -> in_time timeout d = true ->
  recv (Socket ((d, c) :: rest) cl timeout te) bufsize
  = if len c <=? bufsize then Ok (c, Socket rest cl timeout te)
    else Ok (firstn (Z.to_nat bufsize) c,
             Socket ((0%float, skipn (Z.to_nat bufsize) c) :: rest) cl timeout te).
Proof.
  intros Hb Ht. unfold recv. cbn [arriving closing sock_timeout time_error].
  destruct (bufsize <? 0) eqn:E1; [lia|]. destruct (bufsize =? 0) eqn:E2; [lia|].
  rewrite Ht. reflexivity.
Qed.

Section Arrival.

Variable cl : option float.
Variable timeout : float.
Variable te : float -> option exn.
Hypothesis Hnow : in_time timeout 0 = true.

(** [recv_exact] returns the first [n] bytes of what arrives and leaves the
    rest to arrive. *)
Lemma recv_exact_loop_arrives (arr : list (float * bytes)) :
  forall (fuel : nat) (n : Z) (data a b : bytes),
    (length arr < fuel)%nat ->
    concat (map snd arr) = a ++ b ->
    Forall (timely timeout) arr ->
    len data + len a = n ->
    exists arr' : list (float * bytes),
      recv_exact_loop fuel (Socket arr cl timeout te) n data
      = Ok (data ++ a, Socket arr' cl timeout te) /\
      concat (map snd arr') = b /\ Forall (timely timeout) arr'.
Proof.
  induction arr as [|[d c] arr IH]; intros fuel n data a b Hf Hc Hne Hn.
  - cbn in Hc. symmetry in Hc. apply app_eq_nil in Hc. destruct Hc as [-> ->].
    exists []. destruct fuel; [cbn in Hf; lia|]. cbn [recv_exact_loop].
    change (len []) with 0 in Hn. destruct (len data <? n) eqn:E; [lia|].
    rewrite app_nil_r. split; [reflexivity|]. split; [reflexivity|constructor].
  - destruct fuel as [|fuel]; [cbn in Hf; lia|]. cbn [recv_exact_loop].
    pose proof (len_nonneg a) as Hla. subst n.
    destruct (len data <? len data + len a) eqn:E.
    + inversion Hne as [|? ? [Hc1 Ht1] Hrest]; subst. cbn [fst snd] in Hc1, Ht1.
      cbn [map snd concat] in Hc. pose proof (len_pos c Hc1) as Hlc.
      replace (len data + len a - len data) with (len a) by lia.
      rewrite recv_timely by (lia || exact Ht1).
      destruct (len c <=? len a) eqn:E1; cbn [bind].
      * destruct (len c =? 0) eqn:E0; [lia|].
        destruct (app_eq_app_le c (concat (map snd arr)) a b Hc) as (a' & -> & Hc');
          [unfold len in *; lia|].
        destruct (IH fuel (len data + len (c ++ a')) (data ++ c) a' b)
          as (arr' & Hr & Ha & Hta).
        -- cbn [length] in Hf. lia.
        -- exact Hc'.
        -- exact Hrest.
        -- rewrite !len_app. lia.
        -- exists arr'. rewrite Hr, <- app_assoc. split; [reflexivity|].
           split; assumption.
      * symmetry in Hc.
        destruct (app_eq_app_le a b c (concat (map snd arr)) Hc) as (c' & -> & ->);
          [unfold len in *; lia|].
        assert (Hc'ne : c' <> []).
        { intros ->. rewrite app_nil_r in E1. lia. }
        replace (Z.to_nat (len a)) with (length a) by (unfold len; lia).
        rewrite firstn_app, Nat.sub_diag, firstn_all. cbn [firstn]. rewrite app_nil_r.
        rewrite skipn_app, skipn_all, Nat.sub_diag. cbn [skipn app].
        destruct (len a =? 0) eqn:E0; [lia|].
        exists ((0%float, c') :: arr). split.
        -- destruct fuel; cbn [recv_exact_loop]; rewrite len_app;
             destruct (len data + len a <? len data + len a) eqn:E2; try lia; reflexivity.
        -- split; [reflexivity|]. constructor; [|exact Hrest].
           split; [exact Hc'ne|exact Hnow].
    + assert (Ha : a = []) by (apply len_zero_nil; lia). subst a.
      exists ((d, c) :: arr). rewrite app_nil_r. split; [reflexivity|].
      split; [exact Hc|exact Hne].
Qed.

End Arrival.

Lemma recv_exact_arrives (sock : socket) (timeout : float) (a b : bytes) :
  accepted sock timeout ->
  arrives timeout sock (a ++ b) ->
  exists arr' : list (float * bytes),
    recv_exact sock (len a) timeout
    = Ok (a, Socket arr' (closing sock) timeout (time_error sock)) /\
    concat (map snd arr') = b /\ Forall (timely timeout) arr'.
Proof.
  intros Hacc [Hs Ht]. unfold recv_exact. rewrite (settimeout_accepted _ _ Hacc).
  cbn [bind arriving].
  destruct (recv_exact_loop_arrives (closing sock) timeout (time_error sock)
              (accepted_in_time_now _ _ Hacc) (arriving sock)
              (S (length (arriving sock))) (len a) [] a b)
    as (arr' & Hr & Ha & Hta); [lia|exact Hs|exact Ht|reflexivity|].
  exists arr'. split; [exact Hr|]. split; assumption.
Qed.

Lemma recv_exact_nonpos (sock : socket) (n : Z) (timeout : float) :
  accepted sock timeout -> n <= 0 ->
  recv_exact sock n timeout
  = Ok ([], Socket (arriving sock) (closing sock) timeout (time_error sock)).
Proof.
  intros Hacc H. unfold recv_exact. rewrite (settimeout_accepted _ _ Hacc).
  cbn [bind recv_exact_loop]. change (len []) with 0.
  destruct (0 <? n) eqn:E; [lia|reflexivity].
Qed.

Lemma recv_not_fuel (sock : socket) (bufsize : Z) : recv sock bufsize <> Fuel.
Proof.
  unfold recv.
  repeat match goal with
         | |- context [if ?c then _ else _] => destruct c
         | |- context [match ?x with _ => _ end] => destruct x
         end; discriminate.
Qed.

(** What [recv] returns is at most [bufsize] bytes, and it takes a whole
    chunk off the socket or as many bytes as were asked for. *)
Lemma recv_progress (sock : socket) (bufsize : Z) (chunk : bytes) (sock' : socket) :
  0 < bufsize -> recv sock bufsize = Ok (chunk, sock') ->
  len chunk <= bufsize /\
  ((length (arriving sock') < length (arriving sock))%nat \/ len chunk = bufsize
   \/ len chunk = 0).
Proof.
  intros Hb. unfold recv.
  destruct (bufsize <? 0) eqn:E1; [lia|]. destruct (bufsize =? 0) eqn:E2; [lia|].
  destruct (arriving sock) as [|[d c] rest].
  - destruct (closing sock) as [dl|]; [|discriminate].
    destruct (in_time _ dl); [|discriminate]. intros [= <- <-].
    change (len (@nil byte)) with 0. split; [lia|]. right. right. reflexivity.
  - destruct (negb _); [discriminate|].
    destruct (len c <=? bufsize) eqn:E3; intros [= <- <-]; cbn [arriving length].
    + split; [lia|]. left. lia.
    + unfold len in *. rewrite length_firstn. split; [lia|]. right. left. lia.
Qed.

(** [recv_exact] never runs out of the fuel it gives itself. *)
Lemma recv_exact_fuel_enough (sock : socket) (n : Z) (timeout : float) :
  recv_exact sock n timeout <> Fuel.
Proof.
  unfold recv_exact.
  assert (H : forall fuel sock data,
             (length (arriving sock) < fuel)%nat \/ n <= len data ->
             recv_exact_loop fuel sock n data <> Fuel).
  { induction fuel as [|fuel IH]; intros s data Hf; cbn [recv_exact_loop];
      destruct (len data <? n) eqn:E; try discriminate; [lia|].
    pose proof (recv_not_fuel s (n - len data)) as Hnf.
    destruct (recv s (n - len data)) as [[chunk s']| |] eqn:Er; cbn [bind];
      [|discriminate|congruence].
    apply recv_progress in Er; [|lia]. destruct Er as [Hle Hp].
    destruct (len chunk =? 0) eqn:E0; [discriminate|].
    apply IH. rewrite len_app. destruct Hp as [Hp|[Hp|Hp]]; [left|right|]; lia. }
  destruct (settimeout sock timeout) as [s| |] eqn:Es; cbn [bind]; try discriminate.
  - apply H. left. lia.
  - unfold settimeout in Es.
    repeat match type of Es with
           | (if ?c then _ else _) = _ => destruct c
           | match ?x with _ => _ end = _ => destruct x
           end; discriminate Es.
Qed.

Section Tolerance.

Variable math_log : float -> float -> float.
Variable encoding : codec.
Variables (method : pystr) (params : list value) (m n c ps : bytes).

Hypothesis Hmethod : text_ok encoding method = true.
Hypothesis Hparams : forallb (representable encoding) params = true.
Hypothesis Hlast : last_holds (trailing_text encoding) params = false.
Hypothesis Em : _b method encoding = Ok m.
Hypothesis En : _be_u32 (len m) = Ok n.
Hypothesis Ec : _be_u32 (len params) = Ok c.
Hypothesis Eps : enc_array_items (fun p => enc_data math_log p encoding) params = Ok ps.
Hypothesis Hsize : 8 + len (n ++ m ++ c ++ ps) < 2 ^ 32.

Variable cl : option float.
Variable timeout : float.
Variable te : float -> option exn.

(** Once the body the header claims has been read, the Frame Layer reads on
    until the body is whole, and decodes it. *)
Lemma extend_and_decode_arrives (arr : list (float * bytes)) :
  forall (fuel : nat) (budget : Z) (sofar rest : bytes),
    sofar ++ rest = n ++ m ++ c ++ ps ->
    concat (map snd arr) = rest ->
    Forall (timely timeout) arr ->
    len rest <= budget ->
    (length arr < fuel)%nat ->
    extend_and_decode fuel (Socket arr cl timeout te) budget HDR_REQ sofar encoding
    = Ok (method, params).
Proof.
  induction arr as [|[d chunk] arr IH]; intros fuel budget sofar rest Hsplit Hc Harr Hb Hf.
  - cbn in Hc. subst rest. rewrite app_nil_r in Hsplit.
    subst sofar. destruct fuel as [|fuel]; [cbn in Hf; lia|]. cbn [extend_and_decode].
    pose proof (len_nonneg (n ++ m ++ c ++ ps)).
    rewrite _be_u32_in_range by lia. cbn [bind].
    rewrite dec_request_restamped by exact Hsize.
    rewrite (dec_request_body_round_trip math_log encoding method params m n c ps)
      by assumption.
    reflexivity.
  - inversion Harr as [|? ? [Hc1 Ht1] Hrest]; subst. cbn [fst snd] in Hc1, Ht1.
    cbn [map snd concat] in *. pose proof (len_pos chunk Hc1) as Hlc.
    pose proof (len_nonneg sofar). pose proof (len_nonneg (concat (map snd arr))).
    assert (Hlen : len sofar + len chunk + len (concat (map snd arr))
                   = len (n ++ m ++ c ++ ps))
      by (rewrite <- Hsplit, !len_app; lia).
    destruct fuel as [|fuel]; [cbn in Hf; lia|]. cbn [extend_and_decode].
    rewrite _be_u32_in_range by lia. cbn [bind].
    rewrite dec_request_restamped by lia.
    assert (Hcut : cut_short (dec_request_body sofar encoding)).
    { apply (dec_request_body_strict_prefix math_log encoding method params m n c ps
               sofar (chunk ++ concat (map snd arr))); try assumption.
      apply app_not_nil_l. exact Hc1. }
    destruct Hcut as (e & -> & He). rewrite He. cbn [negb].
    rewrite len_app in Hb.
    destruct (budget <=? 0) eqn:E0; [lia|].
    rewrite recv_timely by (lia || exact Ht1).
    destruct (len chunk <=? budget) eqn:E1; [|lia]. cbn [bind].
    destruct (len chunk =? 0) eqn:E2; [lia|].
    apply (IH fuel (budget - len chunk) (sofar ++ chunk) (concat (map snd arr))).
    + rewrite <- app_assoc. exact Hsplit.
    + reflexivity.
    + exact Hrest.
    + lia.
    + cbn [length] in Hf. lia.
Qed.

End Tolerance.

(** Where the tolerance of the Frame Layer holds: take a request frame that
    [enc_request] builds from a representable method name and representable
    parameters and that does not end with the bytes of a String, and set its
    total-length field to any lower value. With a timeout that [settimeout]
    takes, however the bytes arrive within it, and as long as the bytes the
    header does not account for are within the budget of extra bytes, the
    Frame Layer reads the whole request and returns the method name and the
    parameter list, as [dec_request] does on the frame with its true
    length. *)
Lemma read_request_underreported
  (math_log : float -> float -> float) (encoding : codec)
  (method : pystr) (params : list value) (frame : bytes)
  (declared budget : Z) (timeout : float) (sock : socket) :
  text_ok encoding method = true ->
  forallb (representable encoding) params = true ->
  last_holds (trailing_text encoding) params = false ->
  enc_request math_log method params encoding = Ok frame ->
  0 <= declared < len frame ->
  len frame - Z.max declared 8 <= budget ->
  accepted sock timeout ->
  arrives timeout sock (underreport frame declared) ->
  read_request sock budget timeout encoding = Ok (method, params) /\
  dec_request frame encoding = Ok (method, params).
Proof.
  intros Hm Hrep Hlast Henc Hdecl Hbudget Hacc Harr.
  split; [|apply (dec_request_enc_request math_log); assumption].
  apply enc_request_ok in Henc.
  destruct Henc as (m & n & c & ps & Em & En & Ec & Eps & Hl & ->).
  set (body := n ++ m ++ c ++ ps) in *.
  pose proof (len_nonneg body) as Hlb.
  assert (Hlf : len (HDR_REQ ++ be32 (8 + len body) ++ body) = 8 + len body)
    by (rewrite !len_app, len_be32; change (len HDR_REQ) with 4; lia).
  rewrite Hlf in Hdecl, Hbudget.
  assert (Hunder : underreport (HDR_REQ ++ be32 (8 + len body) ++ body) declared
                   = (HDR_REQ ++ be32 declared) ++ body).
  { unfold underreport. rewrite (slice_in_prefix HDR_REQ) by (cbn; lia).
    change (HDR_REQ ++ be32 (8 + len body) ++ body)
      with ((HDR_REQ ++ be32 (8 + len body)) ++ body).
    rewrite slice_body by reflexivity. reflexivity. }
  rewrite Hunder in Harr. unfold read_request.
  destruct (recv_exact_arrives sock timeout (HDR_REQ ++ be32 declared) body Hacc Harr)
    as (arr1 & Hr1 & Hc1 & Ht1).
  change (len (HDR_REQ ++ be32 declared)) with 8 in Hr1. rewrite Hr1. cbn [bind].
  change (slice (HDR_REQ ++ be32 declared) 0 4) with HDR_REQ.
  change (bytes_eqb HDR_REQ HDR_REQ) with true. cbn [orb negb].
  assert (Hrd : _rd_u32 (HDR_REQ ++ be32 declared) 4 = Ok (declared, 8)).
  { pose proof (_rd_u32_at HDR_REQ [] declared) as H. rewrite app_nil_r in H.
    apply H. lia. }
  rewrite Hrd. cbn [bind].
  set (sock1 := Socket arr1 (closing sock) timeout (time_error sock)).
  assert (Hacc1 : accepted sock1 timeout).
  { destruct Hacc as (Hn & Hneg & Hte). repeat split; assumption. }
  destruct (Z.le_gt_cases declared 8) as [Hle|Hgt].
  - rewrite recv_exact_nonpos by (assumption || lia). cbn [bind arriving sock1].
    apply (extend_and_decode_arrives math_log encoding method params m n c ps)
      with (rest := body); try assumption; [reflexivity|lia|lia].
  - assert (Hsplit : body = firstn (Z.to_nat (declared - 8)) body
                            ++ skipn (Z.to_nat (declared - 8)) body)
      by (symmetry; apply firstn_skipn).
    assert (Hlfirst : len (firstn (Z.to_nat (declared - 8)) body) = declared - 8)
      by (unfold len in *; rewrite length_firstn; lia).
    assert (Ha1 : arrives timeout sock1
                    (firstn (Z.to_nat (declared - 8)) body
                       ++ skipn (Z.to_nat (declared - 8)) body)).
    { rewrite <- Hsplit. split; [exact Hc1|exact Ht1]. }
    destruct (recv_exact_arrives sock1 timeout _ _ Hacc1 Ha1) as (arr2 & Hr2 & Hc2 & Ht2).
    rewrite Hlfirst in Hr2. rewrite Hr2. cbn [bind arriving].
    apply (extend_and_decode_arrives math_log encoding method params m n c ps)
      with (rest := skipn (Z.to_nat (declared - 8)) body); try assumption.
    + symmetry. exact Hsplit.
    + unfold len in *. rewrite length_skipn. lia.
    + lia.
Qed.

(** The frame of the repository's test of the tolerance, three bytes
    under-reported, arriving in two chunks: the final parameter is a Bool,
    and the Frame Layer returns the whole request. *)
Lemma read_request_underreported_example :
  exists frame : bytes,
    enc_request log2_floor (text "event")
      [VStr (text "iface"); VStr (text "CUX3900001:1"); VStr (text "STATE"); VBool true]
      ascii = Ok frame /\
    read_request
      (Socket [(0%float, firstn 30 (underreport frame (len frame - 3)));
               (0.25%float, skipn 30 (underreport frame (len frame - 3)))]
         None 0 (fun _ => None)) 16 0.5 ascii
    = Ok (text "event",
          [VStr (text "iface"); VStr (text "CUX3900001:1"); VStr (text "STATE");
           VBool true]).
Proof.
  destruct (enc_request log2_floor (text "event")
              [VStr (text "iface"); VStr (text "CUX3900001:1"); VStr (text "STATE");
               VBool true] ascii) as [frame| |] eqn:E; [|discriminate E..].
  exists frame. split; [reflexivity|].
  assert (Hl : len frame = 72) by (vm_compute in E; injection E as <-; reflexivity).
  destruct (read_request_underreported log2_floor ascii (text "event")
              [VStr (text "iface"); VStr (text "CUX3900001:1"); VStr (text "STATE");
               VBool true] frame (len frame - 3) 16 0.5
              (Socket [(0%float, firstn 30 (underreport frame (len frame - 3)));
                       (0.25%float, skipn 30 (underreport frame (len frame - 3)))]
                 None 0 (fun _ => None))
              eq_refl eq_refl eq_refl E) as [H _].
  - rewrite Hl. lia.
  - rewrite Hl. lia.
  - repeat split.
  - vm_compute in E. injection E as <-. split; [reflexivity|].
    repeat constructor; discriminate.
  - exact H.
Qed.


(** ** The response to [None] *)





(** ** The frame decoders and the Frame Layer return or raise *)

Lemma bind_not_fuel {A B : Type} (r : result A) (k : A -> result B) :
  r <> Fuel -> (forall a, r = Ok a -> k a <> Fuel) -> bind r k <> Fuel.
Proof.
  intros Hr Hk. destruct r as [a|e|]; cbn [bind]; [apply Hk; reflexivity|discriminate|].
  exfalso. apply Hr. reflexivity.
Qed.

Lemma _be_u32_not_fuel (n : Z) : _be_u32 n <> Fuel.
Proof. unfold _be_u32, pack_u32. destruct (_ && _); discriminate. Qed.

Lemma dec_request_body_fuel_enough (body : bytes) (encoding : codec) :
  dec_request_body body encoding <> Fuel.
Proof.
  unfold dec_request_body. apply bind_not_fuel; [apply _dec_string_not_fuel|].
  intros [method o] Hs. apply _dec_string_ok in Hs.
  destruct Hs as (k & _ & Hk & Hb & -> & _).
  apply bind_not_fuel; [apply _rd_u32_not_fuel|].
  intros [n o] Hr. apply _rd_u32_ok in Hr. destruct Hr as (-> & Hb' & _).
  apply bind_not_fuel; [|discriminate].
  pose proof (len_nonneg body).
  apply dec_params_loop_enough; [lia|lia|]. unfold len in *. lia.
Qed.

Lemma dec_request_fuel_enough (frame : bytes) (encoding : codec) :
  dec_request frame encoding <> Fuel.
Proof.
  unfold dec_request.
  destruct (len frame <? 8); [discriminate|].
  destruct (negb (bytes_eqb (slice frame 0 4) (slice HDR_REQ 0 4))); [discriminate|].
  apply bind_not_fuel; [apply _be_u32_not_fuel|]. intros l _.
  destruct (negb (bytes_eqb (slice frame 4 8) l)); [discriminate|].
  apply dec_request_body_fuel_enough.
Qed.

Lemma dec_response_fuel_enough (frame : bytes) : dec_response frame <> Fuel.
Proof.
  unfold dec_response.
  destruct (len frame <? 8); [discriminate|].
  destruct (negb (bytes_eqb (slice frame 0 4) (slice HDR_RES 0 4))); [discriminate|].
  apply bind_not_fuel; [apply _be_u32_not_fuel|]. intros l _.
  destruct (negb (bytes_eqb (slice frame 4 8) l)); [discriminate|].
  apply bind_not_fuel; [apply _rd_u32_not_fuel|]. intros [st o] _.
  destruct (len _ <=? o); [discriminate|].
  apply bind_not_fuel; [apply dec_data_fuel_enough|]. intros [v o'] _. discriminate.
Qed.

Lemma extend_and_decode_fuel_enough (encoding : codec) (magic : bytes) (fuel : nat) :
  forall (sock : socket) (budget : Z) (body : bytes),
    (length (arriving sock) < fuel)%nat \/ budget <= 0 ->
    extend_and_decode fuel sock budget magic body encoding <> Fuel.
Proof.
  induction fuel as [|fuel IH]; intros sock budget body Hf.
  - cbn [extend_and_decode]. apply bind_not_fuel; [apply _be_u32_not_fuel|]. intros l _.
    pose proof (dec_request_fuel_enough (magic ++ l ++ body) encoding) as Hd.
    destruct (dec_request (magic ++ l ++ body) encoding) as [r|e|];
      [discriminate| |exfalso; apply Hd; reflexivity].
    destruct (negb (truncation e)); [discriminate|].
    destruct (budget <=? 0) eqn:E; [discriminate|lia].
  - cbn [extend_and_decode]. apply bind_not_fuel; [apply _be_u32_not_fuel|]. intros l _.
    pose proof (dec_request_fuel_enough (magic ++ l ++ body) encoding) as Hd.
    destruct (dec_request (magic ++ l ++ body) encoding) as [r|e|];
      [discriminate| |exfalso; apply Hd; reflexivity].
    destruct (negb (truncation e)); [discriminate|].
    destruct (budget <=? 0) eqn:E; [discriminate|].
    apply bind_not_fuel; [apply recv_not_fuel|]. intros [chunk sock'] Er.
    apply recv_progress in Er; [|lia]. destruct Er as [Hle Hp].
    destruct (len chunk =? 0) eqn:E0; [discriminate|].
    apply IH. lia.
Qed.

Lemma read_request_fuel_enough (sock : socket) (budget : Z) (timeout : float)
  (encoding : codec) :
  read_request sock budget timeout encoding <> Fuel.
Proof.
  unfold read_request. apply bind_not_fuel; [apply recv_exact_fuel_enough|].
  intros [hdr sock1] _.
  destruct (negb _); [discriminate|].
  apply bind_not_fuel; [apply _rd_u32_not_fuel|]. intros [declared o] _.
  apply bind_not_fuel; [apply recv_exact_fuel_enough|]. intros [body sock2] _.
  apply extend_and_decode_fuel_enough. left. lia.
Qed.

(** ** Large doubles *)

(** A second defect of the double path, on the positive side: a double from
    2^1023 on is encoded with exponent 1024, and [_dec_double] then multiplies
    by the integer [2 ** 1024], which no float holds. Here for 1.5 * 2^1023;
    the only fact about [math.log] this uses is that its base-2 logarithm
    lies between 1023 and 1024. *)
Lemma double_huge_decode_overflows (math_log : float -> float -> float) :
  math_floor (math_log 0x1.8p+1023%float 2%float) = Ok 1023 ->
  exists bs : bytes,
    enc_double math_log 0x1.8p+1023%float = Ok bs /\
    dec_data bs DEFAULT_ENCODING 0 = Raise OverflowError.
Proof.
  intros Hlog. unfold enc_double, _enc_double_parts.
  change ((0x1.8p+1023 =? 0)%float) with false. cbv iota.
  change (abs 0x1.8p+1023%float) with 0x1.8p+1023%float. rewrite Hlog.
  eexists. split; reflexivity.
Qed.

(** ** The text encodings *)

Example utf8_text : text "aé€😀" = [97; 233; 0x20AC; 0x1F600].
Proof. vm_compute. reflexivity. Qed.

Example utf8_encode_text :
  utf8_encode [97; 233; 0x20AC; 0x1F600] = Some (list_byte_of_string "aé€😀").
Proof. vm_compute. reflexivity. Qed.

(** Ill-formed input under [errors="replace"], as CPython decodes it. *)
Example utf8_decode_replaces :
  utf8_decode [xe1; x80; xc2; x80] = [0xFFFD; 0x80] /\
  utf8_decode [xf4; x90; x80; x80] = [0xFFFD; 0xFFFD; 0xFFFD; 0xFFFD] /\
  utf8_decode [xf0; x9f; x98] = [0xFFFD] /\
  utf8_decode [xf0; x90; x80; "A"%byte] = [0xFFFD; 65] /\
  utf8_decode [xc0; x80] = [0xFFFD; 0xFFFD] /\
  utf8_decode [xed; xa0; x80] = [0xFFFD; 0xFFFD; 0xFFFD] /\
  utf8_decode [xff; xfe] = [0xFFFD; 0xFFFD].
Proof. vm_compute. repeat split. Qed.

Lemma utf8_decode_cons (b0 : byte) (r0 : bytes) :
  utf8_decode (b0 :: r0) =
  let c0 := byte_to_Z b0 in
  if c0 <? 0x80 then c0 :: utf8_decode r0
  else if in_range 0xC2 0xDF c0 then
    match r0 with
    | [] => [REPLACEMENT]
    | b1 :: r1 =>
        let c1 := byte_to_Z b1 in
        if in_range 0x80 0xBF c1
        then (c0 - 0xC0) * 64 + (c1 - 0x80) :: utf8_decode r1
        else REPLACEMENT :: utf8_decode r0
    end
  else if in_range 0xE0 0xEF c0 then
    match r0 with
    | [] => [REPLACEMENT]
    | b1 :: r1 =>
        let c1 := byte_to_Z b1 in
        if utf8_second_ok c0 c1 then
          match r1 with
          | [] => [REPLACEMENT]
          | b2 :: r2 =>
              let c2 := byte_to_Z b2 in
              if in_range 0x80 0xBF c2
              then (c0 - 0xE0) * 4096 + (c1 - 0x80) * 64 + (c2 - 0x80) :: utf8_decode r2
              else REPLACEMENT :: utf8_decode r1
          end
        else REPLACEMENT :: utf8_decode r0
    end
  else if in_range 0xF0 0xF4 c0 then
    match r0 with
    | [] => [REPLACEMENT]
    | b1 :: r1 =>
        let c1 := byte_to_Z b1 in
        if utf8_second_ok c0 c1 then
          match r1 with
          | [] => [REPLACEMENT]
          | b2 :: r2 =>
              let c2 := byte_to_Z b2 in
              if in_range 0x80 0xBF c2 then
                match r2 with
                | [] => [REPLACEMENT]
                | b3 :: r3 =>
                    let c3 := byte_to_Z b3 in
                    if in_range 0x80 0xBF c3
                    then (c0 - 0xF0) * 262144 + (c1 - 0x80) * 4096
                         + (c2 - 0x80) * 64 + (c3 - 0x80)
                         :: utf8_decode r3
                    else REPLACEMENT :: utf8_decode r2
                end
              else REPLACEMENT :: utf8_decode r1
          end
        else REPLACEMENT :: utf8_decode r0
    end
  else REPLACEMENT :: utf8_decode r0.
Proof. reflexivity. Qed.

(** Decides the integer comparisons of the goal that [lia] settles. *)
Ltac decide_cmp :=
  repeat match goal with
    | |- context [?a <? ?b] =>
        first [ replace (a <? b) with true by (symmetry; apply Z.ltb_lt; lia)
              | replace (a <? b) with false by (symmetry; apply Z.ltb_ge; lia) ]
    | |- context [?a <=? ?b] =>
        first [ replace (a <=? b) with true by (symmetry; apply Z.leb_le; lia)
              | replace (a <=? b) with false by (symmetry; apply Z.leb_gt; lia) ]
    | |- context [?a =? ?b] =>
        first [ replace (a =? b) with true by (symmetry; apply Z.eqb_eq; lia)
              | replace (a =? b) with false by (symmetry; apply Z.eqb_neq; lia) ]
    end;
  cbn [andb orb negb].

Lemma some_inj {A : Type} (x y : A) : Some x = Some y -> x = y.
Proof. congruence. Qed.

(** One code point, encoded, is decoded to itself, whatever follows. *)
Lemma utf8_decode_encode_char (c : Z) (bs rest : bytes) :
  utf8_encode_char c = Some bs -> utf8_decode (bs ++ rest) = c :: utf8_decode rest.
Proof.
  unfold utf8_encode_char.
  destruct (c <? 0) eqn:E0; [discriminate|].
  destruct (c <? 0x80) eqn:E1.
  { intros H. apply some_inj in H. subst bs. cbn [app]. rewrite utf8_decode_cons. cbv beta iota zeta.
    rewrite byte_to_of_Z. rewrite Z.mod_small by lia. rewrite E1. reflexivity. }
  destruct (c <? 0x800) eqn:E2.
  { intros H. apply some_inj in H. subst bs. cbn [app]. rewrite utf8_decode_cons. cbv beta iota zeta.
    rewrite !byte_to_of_Z.
    assert (Hq : 2 <= c / 64 < 32) by (Z.to_euclidean_division_equations; lia).
    assert (Hr : 0 <= c mod 64 < 64) by (apply Z.mod_pos_bound; lia).
    rewrite !(Z.mod_small (_ + _) 256) by lia. unfold in_range. decide_cmp.
    f_equal. Z.to_euclidean_division_equations. lia. }
  destruct (c <? 0x10000) eqn:E3.
  { destruct ((0xD800 <=? c) && (c <=? 0xDFFF)) eqn:Es; [discriminate|].
    intros H. apply some_inj in H. subst bs. cbn [app]. rewrite utf8_decode_cons. cbv beta iota zeta.
    rewrite !byte_to_of_Z.
    assert (Hq : 0 <= c / 4096 < 16) by (Z.to_euclidean_division_equations; lia).
    assert (Hm : 0 <= (c / 64) mod 64 < 64) by (apply Z.mod_pos_bound; lia).
    assert (Hr : 0 <= c mod 64 < 64) by (apply Z.mod_pos_bound; lia).
    assert (Hlo : c / 4096 = 0 -> 32 <= (c / 64) mod 64)
      by (Z.to_euclidean_division_equations; lia).
    assert (Hsur : c / 4096 = 13 -> (c / 64) mod 64 < 32)
      by (apply andb_false_iff in Es; Z.to_euclidean_division_equations; lia).
    rewrite !(Z.mod_small (_ + _) 256) by lia. unfold in_range, utf8_second_ok, in_range. decide_cmp.
    destruct (Z.eq_dec (c / 4096) 0) as [H0|H0];
      [|destruct (Z.eq_dec (c / 4096) 13) as [H13|H13]];
      decide_cmp; f_equal; Z.to_euclidean_division_equations; lia. }
  destruct (c <? 0x110000) eqn:E4; [|discriminate].
  intros H. apply some_inj in H. subst bs. cbn [app]. rewrite utf8_decode_cons. cbv beta iota zeta.
  rewrite !byte_to_of_Z.
  assert (Hq : 0 <= c / 262144 < 5) by (Z.to_euclidean_division_equations; lia).
  assert (Hm1 : 0 <= (c / 4096) mod 64 < 64) by (apply Z.mod_pos_bound; lia).
  assert (Hm2 : 0 <= (c / 64) mod 64 < 64) by (apply Z.mod_pos_bound; lia).
  assert (Hr : 0 <= c mod 64 < 64) by (apply Z.mod_pos_bound; lia).
  assert (Hlo : c / 262144 = 0 -> 16 <= (c / 4096) mod 64)
    by (Z.to_euclidean_division_equations; lia).
  assert (Hhi : c / 262144 = 4 -> (c / 4096) mod 64 < 16)
    by (Z.to_euclidean_division_equations; lia).
  rewrite !(Z.mod_small (_ + _) 256) by lia. unfold in_range, utf8_second_ok, in_range. decide_cmp.
  destruct (Z.eq_dec (c / 262144) 0) as [H0|H0];
    [|destruct (Z.eq_dec (c / 262144) 4) as [H4|H4]];
    decide_cmp; f_equal; Z.to_euclidean_division_equations; lia.
Qed.

Lemma utf8_decode_encode (s : pystr) (bs : bytes) :
  utf8_encode s = Some bs -> utf8_decode bs = s.
Proof.
  revert bs. induction s as [|c s IH]; intros bs; cbn [utf8_encode].
  - intros H. apply some_inj in H. subst bs. reflexivity.
  - destruct (utf8_encode_char c) as [b|] eqn:Ec; [|discriminate].
    destruct (utf8_encode s) as [bs'|]; [|discriminate].
    intros H. apply some_inj in H. subst bs.
    rewrite (utf8_decode_encode_char c b bs' Ec), (IH bs' eq_refl). reflexivity.
Qed.

Lemma utf8_encode_char_scalar (c : Z) :
  scalar c = true -> exists b : bytes, utf8_encode_char c = Some b.
Proof.
  unfold scalar, in_range, utf8_encode_char. intros H.
  apply andb_true_iff in H. destruct H as [H Hs].
  apply andb_true_iff in H. destruct H as [H0 H1].
  apply negb_true_iff in Hs. rewrite Hs.
  destruct (c <? 0) eqn:E0; [lia|].
  destruct (c <? 0x80); [eexists; reflexivity|].
  destruct (c <? 0x800); [eexists; reflexivity|].
  destruct (c <? 0x10000); [eexists; reflexivity|].
  rewrite H1. eexists. reflexivity.
Qed.

(** Every text without surrogates survives UTF-8, the default encoding. *)
Lemma utf8_text_ok (s : pystr) : forallb scalar s = true -> text_ok utf8 s = true.
Proof.
  intros H. unfold text_ok. cbn [str_encode bytes_decode utf8].
  assert (He : exists bs, utf8_encode s = Some bs).
  { induction s as [|c s IH]; [eexists; reflexivity|].
    cbn [forallb] in H. apply andb_true_iff in H. destruct H as [Hc Hs].
    destruct (utf8_encode_char_scalar c Hc) as (b & Hb). destruct (IH Hs) as (bs & Hbs).
    exists (b ++ bs). cbn [utf8_encode]. rewrite Hb, Hbs. reflexivity. }
  destruct He as (bs & He). rewrite He. apply pystr_eqb_eq.
  apply utf8_decode_encode. exact He.
Qed.

(** Every text of code points below 256 survives latin-1. *)
Lemma latin1_text_ok (s : pystr) :
  forallb (fun c => (0 <=? c) && (c <? 256)) s = true -> text_ok latin1 s = true.
Proof.
  intros H. unfold text_ok. cbn [str_encode bytes_decode latin1].
  induction s as [|c s IH]; [reflexivity|].
  cbn [forallb] in H. apply andb_true_iff in H. destruct H as [Hc Hs].
  cbn [latin1_encode]. rewrite Hc. specialize (IH Hs).
  destruct (latin1_encode s) as [bs|]; [|discriminate]. cbn [option_map map pystr_eqb].
  rewrite byte_to_of_Z, Z.mod_small by lia. rewrite Z.eqb_refl. exact IH.
Qed.

(** Every text of code points below 128 survives ascii. *)
Lemma ascii_text_ok (s : pystr) :
  forallb (fun c => (0 <=? c) && (c <? 128)) s = true -> text_ok ascii s = true.
Proof.
  intros H. unfold text_ok. cbn [str_encode bytes_decode ascii]. unfold ascii_decode.
  induction s as [|c s IH]; [reflexivity|].
  cbn [forallb] in H. apply andb_true_iff in H. destruct H as [Hc Hs].
  cbn [ascii_encode]. rewrite Hc. specialize (IH Hs).
  destruct (ascii_encode s) as [bs|]; [|discriminate]. cbn [option_map map pystr_eqb].
  rewrite byte_to_of_Z, Z.mod_small by lia.
  destruct (c <? 128) eqn:E; [|lia]. rewrite Z.eqb_refl. exact IH.
Qed.

(** * Further properties of the codec *)

(** ** Frames out and in *)

(** X1: the round trip of a request. For a method name that survives the
    text encoding and parameters built from 32-bit Integers, Bools, such
    Strings, lists and dicts, [dec_request] applied to the frame
    [enc_request] returns gives the method name and the parameters back. *)
Theorem dec_request_inverts_enc_request
  (math_log : float -> float -> float) (encoding : codec)
  (method : pystr) (params : list value) (frame : bytes) :
  text_ok encoding method = true ->
  forallb (representable encoding) params = true ->
  enc_request math_log method params encoding = Ok frame ->
  dec_request frame encoding = Ok (method, params).
Proof. apply dec_request_enc_request. Qed.

Lemma dec_request_inverts_enc_request_witness :
  exists frame : bytes,
    enc_request log2_floor (text "setValue")
      [VStr (text "é"); VInt (-5); VList [VBool true]] DEFAULT_ENCODING = Ok frame /\
    dec_request frame DEFAULT_ENCODING
    = Ok (text "setValue", [VStr (text "é"); VInt (-5); VList [VBool true]]).
Proof.
  destruct (enc_request log2_floor (text "setValue")
              [VStr (text "é"); VInt (-5); VList [VBool true]] DEFAULT_ENCODING)
    as [frame| |] eqn:E; [|discriminate E..].
  exists frame. split; [reflexivity|].
  exact (dec_request_inverts_enc_request log2_floor DEFAULT_ENCODING
           (text "setValue") [VStr (text "é"); VInt (-5); VList [VBool true]] frame
           eq_refl eq_refl E).
Defined.

(** The parts of a frame that [enc_response] returns for a value. *)
Lemma enc_response_ok (math_log : float -> float -> float) (encoding : codec)
  (v : value) (frame : bytes) :
  enc_response math_log (Some v) encoding = Ok frame ->
  exists payload : bytes,
    enc_data math_log v encoding = Ok payload /\
    12 + len payload < 2 ^ 32 /\
    frame = (HDR_RES ++ be32 (12 + len payload)) ++ be32 0 ++ payload.
Proof.
  intros Henc. unfold enc_response in Henc. inv_ok. subst frame.
  repeat match goal with
         | H : _be_u32 _ = Ok _ |- _ =>
             let Hr := fresh "Hr" in
             apply _be_u32_ok in H; destruct H as (Hr & ->)
         end.
  rewrite len_app, len_be32 in *.
  match goal with H : enc_data _ _ _ = Ok ?x |- _ => exists x; split; [exact H|] end.
  split; [lia|].
  match goal with
  | |- context [be32 (8 + (4 + ?l))] => replace (8 + (4 + l)) with (12 + l) by lia
  end.
  reflexivity.
Qed.

(** A response frame with a well-formed header, a status and the bytes of a
    representable value is decoded to that value. *)
Lemma dec_response_payload (math_log : float -> float -> float)
  (v : value) (status payload junk : bytes) :
  representable DEFAULT_ENCODING v = true ->
  enc_data math_log v DEFAULT_ENCODING = Ok payload ->
  len status = 4 ->
  12 + len payload + len junk < 2 ^ 32 ->
  dec_response ((HDR_RES ++ be32 (12 + len payload + len junk))
                  ++ status ++ payload ++ junk)
  = Ok (Some v).
Proof.
  intros Hrep Henc Hs Hl.
  pose proof (len_nonneg payload) as Hp. pose proof (len_nonneg junk) as Hj.
  rewrite dec_response_frame by reflexivity.
  assert (Hb : len (status ++ payload ++ junk) = 4 + len payload + len junk)
    by (rewrite !len_app; lia).
  rewrite Hb.
  replace (8 + (4 + len payload + len junk)) with (12 + len payload + len junk) by lia.
  change (slice (HDR_RES ++ be32 (12 + len payload + len junk)) 0 4) with HDR_RES.
  change (slice HDR_RES 0 4) with HDR_RES.
  change (slice (HDR_RES ++ be32 (12 + len payload + len junk)) 4 8)
    with (be32 (12 + len payload + len junk)).
  rewrite _be_u32_in_range by lia. cbn [bind]. rewrite !bytes_eqb_refl. cbn [negb].
  destruct (_rd_u32_first status (payload ++ junk) Hs) as (st & ->). cbn [bind].
  destruct (representable_round_trips math_log DEFAULT_ENCODING v Hrep payload Henc)
    as (fuel & Hf).
  assert (Hd : dec_data (status ++ payload ++ junk) DEFAULT_ENCODING 4
               = Ok (v, 4 + len payload)).
  { apply (dec_data_of_fuel _ _ _ fuel). apply (Hf _ 4 junk).
    exists status. split; [reflexivity|exact Hs]. }
  pose proof (dec_data_advance _ _ _ _ _ Hd) as [Hin _]. rewrite Hb in Hin.
  destruct (4 + len payload + len junk <=? 4) eqn:E; [lia|].
  rewrite Hd. reflexivity.
Qed.

(** X2: the round trip of a response. For a return value built from 32-bit
    Integers, Bools, Strings that survive the default text encoding, lists
    and dicts, [dec_response] applied to the frame that [enc_response]
    returns under the default encoding gives the value back. *)
Theorem dec_response_inverts_enc_response
  (math_log : float -> float -> float) (v : value) (frame : bytes) :
  representable DEFAULT_ENCODING v = true ->
  enc_response math_log (Some v) DEFAULT_ENCODING = Ok frame ->
  dec_response frame = Ok (Some v).
Proof.
  intros Hrep Henc. apply enc_response_ok in Henc.
  destruct Henc as (payload & Hp & Hl & ->).
  pose proof (dec_response_payload math_log v (be32 0) payload [] Hrep Hp eq_refl) as H.
  rewrite app_nil_r in H. change (len (@nil byte)) with 0 in H.
  rewrite Z.add_0_r in H. apply H. exact Hl.
Qed.

Lemma dec_response_inverts_enc_response_witness :
  exists frame : bytes,
    enc_response log2_floor (Some nested_example) DEFAULT_ENCODING = Ok frame /\
    dec_response frame = Ok (Some nested_example).
Proof.
  destruct (enc_response log2_floor (Some nested_example) DEFAULT_ENCODING)
    as [frame| |] eqn:E; [|discriminate E..].
  exists frame. split; [reflexivity|].
  exact (dec_response_inverts_enc_response log2_floor nested_example frame eq_refl E).
Defined.

(** ** What the decoders raise *)

Lemma raises_only_bind {A B : Type} (P : exn -> bool) (r : result A) (k : A -> result B) :
  raises_only P r -> (forall a : A, r = Ok a -> raises_only P (k a)) ->
  raises_only P (bind r k).
Proof.
  intros Hr Hk e. destruct r as [a|e'|]; cbn [bind].
  - apply Hk. reflexivity.
  - intros [= <-]. apply Hr. reflexivity.
  - discriminate.
Qed.

Lemma raises_only_ok {A : Type} (P : exn -> bool) (a : A) : raises_only P (Ok a).
Proof. intros e H. discriminate H. Qed.

Lemma unpack_from_u32_raises_only (buf : bytes) (ofs : Z) :
  raises_only decode_error (unpack_from_u32 buf ofs).
Proof.
  intros e H. apply unpack_from_u32_raises in H. subst e. reflexivity.
Qed.

Lemma _rd_u32_raises_only (buf : bytes) (ofs : Z) :
  raises_only decode_error (_rd_u32 buf ofs).
Proof.
  intros e H. apply _rd_u32_raises in H. subst e. reflexivity.
Qed.

Lemma _dec_string_raises_only (buf : bytes) (ofs : Z) (encoding : codec) :
  raises_only decode_error (_dec_string buf ofs encoding).
Proof.
  unfold _dec_string. apply raises_only_bind; [apply _rd_u32_raises_only|].
  intros [l o] _. apply raises_only_ok.
Qed.

Lemma float_of_int_raises_only (z : Z) : raises_only decode_error (float_of_int z).
Proof.
  unfold float_of_int. intros e.
  destruct (is_infinity _); [|discriminate]. intros [= <-]. reflexivity.
Qed.

Lemma leaf_decoders_raise_only (buf : bytes) (ofs : Z) :
  raises_only decode_error (_dec_bool buf ofs) /\
  raises_only decode_error (_dec_int buf ofs) /\
  raises_only decode_error (_dec_double buf ofs).
Proof.
  split; [|split].
  - unfold _dec_bool. apply raises_only_bind; [|intros; apply raises_only_ok].
    intros e H. apply index_raises in H. subst e. reflexivity.
  - unfold _dec_int. apply raises_only_bind; [apply _rd_u32_raises_only|].
    intros [v o] _. destruct (negb _); apply raises_only_ok.
  - unfold _dec_double, unpack_from_i32.
    apply raises_only_bind.
    { apply raises_only_bind; [apply unpack_from_u32_raises_only|].
      intros; apply raises_only_ok. }
    intros e0 _. apply raises_only_bind; [apply _rd_u32_raises_only|].
    intros [mu32 o] _.
    apply raises_only_bind; [apply float_of_int_raises_only|]. intros m _.
    apply raises_only_bind; [apply float_of_int_raises_only|]. intros q _.
    apply raises_only_bind; [|intros; apply raises_only_ok].
    unfold float_of_pow2. intros e. destruct (1024 <=? e0); [|discriminate].
    intros [= <-]. reflexivity.
Qed.

Lemma dec_fuel_raises_only (buf : bytes) (encoding : codec) (fuel : nat) :
  (forall ofs, raises_only decode_error (dec_data_fuel fuel buf encoding ofs)) /\
  (forall n ofs acc, raises_only decode_error (dec_array_loop fuel buf encoding n ofs acc)) /\
  (forall n ofs acc, raises_only decode_error (dec_struct_loop fuel buf encoding n ofs acc)).
Proof.
  induction fuel as [|fuel (IHd & IHa & IHs)].
  - repeat split; intros; cbn; try (intros e H; discriminate H).
    + destruct (n <=? 0); intros e H; discriminate H.
    + destruct (n <=? 0); intros e H; discriminate H.
  - split; [|split].
    + intros ofs. cbn [dec_data_fuel].
      apply raises_only_bind; [apply _rd_u32_raises_only|]. intros [t o] _.
      destruct (leaf_decoders_raise_only buf o) as (Hb & Hi & Hx).
      repeat match goal with |- context [if ?c then _ else _] => destruct c end.
      * apply raises_only_bind; [apply _dec_string_raises_only|].
        intros [? ?] _. apply raises_only_ok.
      * apply raises_only_bind; [exact Hb|]. intros [? ?] _. apply raises_only_ok.
      * apply raises_only_bind; [exact Hi|]. intros [? ?] _. apply raises_only_ok.
      * apply raises_only_bind; [exact Hx|]. intros [? ?] _. apply raises_only_ok.
      * apply raises_only_bind; [apply _rd_u32_raises_only|]. intros [n o'] _.
        apply raises_only_bind; [apply IHa|]. intros [? ?] _. apply raises_only_ok.
      * apply raises_only_bind; [apply _rd_u32_raises_only|]. intros [n o'] _.
        apply raises_only_bind; [apply IHs|]. intros [? ?] _. apply raises_only_ok.
      * intros e [= <-]. reflexivity.
    + intros n ofs acc. cbn [dec_array_loop]. destruct (n <=? 0); [apply raises_only_ok|].
      apply raises_only_bind; [apply IHd|]. intros [v o] _. apply IHa.
    + intros n ofs acc. cbn [dec_struct_loop]. destruct (n <=? 0); [apply raises_only_ok|].
      apply raises_only_bind; [apply _dec_string_raises_only|]. intros [k o] _.
      apply raises_only_bind; [apply IHd|]. intros [v o'] _. apply IHs.
Qed.



(** ** The header of a frame *)

Lemma bytes_eqb_eq (a b : bytes) : bytes_eqb a b = true -> a = b.
Proof.
  revert b. induction a as [|x a IH]; intros [|y b]; cbn; try discriminate.
  - reflexivity.
  - intros H. apply andb_true_iff in H. destruct H as [Hx Hr].
    apply Byte.byte_dec_bl in Hx. subst y. f_equal. apply IH. exact Hr.
Qed.

Lemma header_parts (header : bytes) :
  len header = 8 -> header = slice header 0 4 ++ slice header 4 8.
Proof.
  destruct header as [|b0 [|b1 [|b2 [|b3 [|b4 [|b5 [|b6 [|b7 [|b8 r]]]]]]]]];
    try discriminate.
  - reflexivity.
  - unfold len. cbn [length]. lia.
Qed.

Lemma dec_params_loop_raises_only (body : bytes) (encoding : codec) (fuel : nat) :
  forall (n ofs : Z) (acc : list value),
    raises_only decode_error (dec_params_loop fuel body encoding n ofs acc).
Proof.
  induction fuel as [|fuel IH]; intros n ofs acc; cbn [dec_params_loop];
    destruct (n <=? 0); try apply raises_only_ok.
  - intros e H. discriminate H.
  - apply raises_only_bind.
    + apply (proj1 (dec_fuel_raises_only body encoding (S (length body)))).
    + intros [v o] _. apply IH.
Qed.

Lemma dec_request_body_raises_only (body : bytes) (encoding : codec) :
  raises_only decode_error (dec_request_body body encoding).
Proof.
  unfold dec_request_body.
  apply raises_only_bind; [apply _dec_string_raises_only|]. intros [m o] _.
  apply raises_only_bind; [apply _rd_u32_raises_only|]. intros [n o'] _.
  apply raises_only_bind; [apply dec_params_loop_raises_only|]. intros ps _.
  apply raises_only_ok.
Qed.

(** A frame with a well-formed header, split into header and body. *)
Lemma framed_split (magic frame body : bytes) :
  len magic = 4 -> frame = magic ++ be32 (len frame) ++ body ->
  frame = (magic ++ be32 (8 + len body)) ++ body /\ len frame = 8 + len body.
Proof.
  intros Hm Hf.
  assert (Hl : len frame = 8 + len body).
  { rewrite Hf at 1. rewrite !len_app, len_be32. lia. }
  split; [|exact Hl]. rewrite <- Hl, <- app_assoc. exact Hf.
Qed.

(** X4: what [dec_request] refuses as no request frame. For a frame of less
    than 4 GiB, it raises the [ValueError] of an invalid request frame exactly
    when the frame is not the four bytes [Bin\x00], then the length of the
    whole frame as a big-endian 32-bit number, then a body; whatever the body
    holds, it never makes [dec_request] raise that error. *)
Theorem dec_request_invalid_frame (frame : bytes) (encoding : codec) :
  len frame < 2 ^ 32 ->
  dec_request frame encoding = Raise (ValueError InvalidRequestFrame) <->
  ~ (exists body : bytes, frame = HDR_REQ ++ be32 (len frame) ++ body).
Proof.
  intros Hlt. split.
  - intros Hr (body & Hf).
    destruct (framed_split HDR_REQ frame body eq_refl Hf) as (Hs & Hl).
    rewrite Hs, <- app_assoc, dec_request_restamped in Hr by lia.
    apply dec_request_body_raises_only in Hr. discriminate Hr.
  - intros Hno. unfold dec_request.
    destruct (len frame <? 8) eqn:E8; [reflexivity|].
    destruct (bytes_eqb (slice frame 0 4) (slice HDR_REQ 0 4)) eqn:Em;
      [|reflexivity].
    cbn [negb]. rewrite _be_u32_in_range by (pose proof (len_nonneg frame); lia).
    cbn [bind].
    destruct (bytes_eqb (slice frame 4 8) (be32 (len frame))) eqn:El; [|reflexivity].
    exfalso. apply Hno.
    apply bytes_eqb_eq in Em, El. change (slice HDR_REQ 0 4) with HDR_REQ in Em.
    destruct (split_header frame) as (header & body & Hf & Hh); [lia|].
    exists body. rewrite <- El, <- Em, Hf.
    rewrite !(slice_in_prefix header) by lia.
    rewrite app_assoc, <- (header_parts header Hh). reflexivity.
Qed.

Lemma dec_request_invalid_frame_witness :
  len (HDR_RES ++ be32 8) < 2 ^ 32 /\
  dec_request (HDR_RES ++ be32 8) DEFAULT_ENCODING = Raise (ValueError InvalidRequestFrame).
Proof.
  split; [reflexivity|].
  apply (proj2 (dec_request_invalid_frame (HDR_RES ++ be32 8) DEFAULT_ENCODING eq_refl)).
  intros (body & H). discriminate H.
Defined.

(** [dec_response] on a frame with a well-formed header. *)
Lemma dec_response_restamped (body : bytes) :
  8 + len body < 2 ^ 32 ->
  dec_response (HDR_RES ++ be32 (8 + len body) ++ body)
  = ('(_, ofs) <- _rd_u32 body 0 ;;
     if len body <=? ofs then Ok None
     else '(v, _) <- dec_data body DEFAULT_ENCODING ofs ;; Ok (Some v)).
Proof.
  intros Hl. pose proof (len_nonneg body).
  change (HDR_RES ++ be32 (8 + len body) ++ body)
    with ((HDR_RES ++ be32 (8 + len body)) ++ body).
  rewrite dec_response_frame by reflexivity.
  rewrite _be_u32_in_range by lia. cbn [bind].
  change (slice (HDR_RES ++ be32 (8 + len body)) 0 4) with HDR_RES.
  change (slice HDR_RES 0 4) with HDR_RES.
  change (slice (HDR_RES ++ be32 (8 + len body)) 4 8) with (be32 (8 + len body)).
  rewrite !bytes_eqb_refl. reflexivity.
Qed.

Lemma dec_response_body_raises_only (body : bytes) :
  raises_only decode_error
    ('(_, ofs) <- _rd_u32 body 0 ;;
     if len body <=? ofs then Ok None
     else '(v, _) <- dec_data body DEFAULT_ENCODING ofs ;; Ok (Some v)).
Proof.
  apply raises_only_bind; [apply _rd_u32_raises_only|]. intros [st o] _.
  destruct (len body <=? o); [apply raises_only_ok|].
  apply raises_only_bind.
  - apply (proj1 (dec_fuel_raises_only body DEFAULT_ENCODING (S (length body)))).
  - intros [v o'] _. apply raises_only_ok.
Qed.

(** X5: what [dec_response] refuses as no response frame. For a frame of
    less than 4 GiB, it raises the [ValueError] of an invalid response frame
    exactly when the frame is not the four bytes [Bin\x01], then the length
    of the whole frame as a big-endian 32-bit number, then a body; neither
    the status nor the payload ever makes it raise that error. *)
Theorem dec_response_invalid_frame (frame : bytes) :
  len frame < 2 ^ 32 ->
  dec_response frame = Raise (ValueError InvalidResponseFrame) <->
  ~ (exists body : bytes, frame = HDR_RES ++ be32 (len frame) ++ body).
Proof.
  intros Hlt. split.
  - intros Hr (body & Hf).
    destruct (framed_split HDR_RES frame body eq_refl Hf) as (Hs & Hl).
    rewrite Hs, <- app_assoc, dec_response_restamped in Hr by lia.
    apply dec_response_body_raises_only in Hr. discriminate Hr.
  - intros Hno. unfold dec_response.
    destruct (len frame <? 8) eqn:E8; [reflexivity|].
    destruct (bytes_eqb (slice frame 0 4) (slice HDR_RES 0 4)) eqn:Em;
      [|reflexivity].
    cbn [negb]. rewrite _be_u32_in_range by (pose proof (len_nonneg frame); lia).
    cbn [bind].
    destruct (bytes_eqb (slice frame 4 8) (be32 (len frame))) eqn:El; [|reflexivity].
    exfalso. apply Hno.
    apply bytes_eqb_eq in Em, El. change (slice HDR_RES 0 4) with HDR_RES in Em.
    destruct (split_header frame) as (header & body & Hf & Hh); [lia|].
    exists body. rewrite <- El, <- Em, Hf.
    rewrite !(slice_in_prefix header) by lia.
    rewrite app_assoc, <- (header_parts header Hh). reflexivity.
Qed.

Lemma dec_response_invalid_frame_witness :
  len (HDR_RES ++ be32 13 ++ be32 0) < 2 ^ 32 /\
  dec_response (HDR_RES ++ be32 13 ++ be32 0) = Raise (ValueError InvalidResponseFrame).
Proof.
  split; [reflexivity|].
  apply (proj2 (dec_response_invalid_frame (HDR_RES ++ be32 13 ++ be32 0) eq_refl)).
  intros (body & H). discriminate H.
Defined.

(** X6: a frame is never taken for both a request and a response. A frame
    from which [dec_request] returns a request is refused by [dec_response]
    as an invalid response frame, and a frame from which [dec_response]
    returns is refused by [dec_request] as an invalid request frame. *)
Theorem request_and_response_frames_apart (frame : bytes) (encoding : codec) :
  (forall r : pystr * list value,
      dec_request frame encoding = Ok r ->
      dec_response frame = Raise (ValueError InvalidResponseFrame)) /\
  (forall v : option value,
      dec_response frame = Ok v ->
      dec_request frame encoding = Raise (ValueError InvalidRequestFrame)).
Proof.
  split.
  - intros r H. unfold dec_request in H. unfold dec_response.
    destruct (len frame <? 8); [discriminate H|].
    destruct (bytes_eqb (slice frame 0 4) (slice HDR_REQ 0 4)) eqn:Em;
      [|discriminate H].
    apply bytes_eqb_eq in Em. rewrite Em. reflexivity.
  - intros v H. unfold dec_response in H. unfold dec_request.
    destruct (len frame <? 8); [discriminate H|].
    destruct (bytes_eqb (slice frame 0 4) (slice HDR_RES 0 4)) eqn:Em;
      [|discriminate H].
    apply bytes_eqb_eq in Em. rewrite Em. reflexivity.
Qed.

Lemma request_and_response_frames_apart_witness :
  exists frame : bytes,
    enc_request log2_floor (text "ping") [] DEFAULT_ENCODING = Ok frame /\
    dec_request frame DEFAULT_ENCODING = Ok (text "ping", []) /\
    dec_response frame = Raise (ValueError InvalidResponseFrame).
Proof.
  destruct (enc_request log2_floor (text "ping") [] DEFAULT_ENCODING)
    as [frame| |] eqn:E; [|discriminate E..].
  exists frame. split; [reflexivity|].
  assert (Hd : dec_request frame DEFAULT_ENCODING = Ok (text "ping", [])).
  { vm_compute in E. injection E as <-. reflexivity. }
  split; [exact Hd|].
  exact (proj1 (request_and_response_frames_apart frame DEFAULT_ENCODING) _ Hd).
Defined.

(** ** Tuples and other objects *)

Lemma len_map {A B : Type} (f : A -> B) (l : list A) : len (map f l) = len l.
Proof. unfold len. rewrite length_map. reflexivity. Qed.

(** [enc_data] writes a value as it writes what comes back for it. *)
Lemma enc_data_as_decoded (math_log : float -> float -> float) (encoding : codec)
  (v : value) :
  enc_data math_log (as_decoded v) encoding = enc_data math_log v encoding.
Proof.
  induction v as [b|n|x|s|a IH|a IH|d IH|repr] using value_ind; try reflexivity.
  - cbn [as_decoded enc_data]. rewrite len_map.
    replace (enc_array_items (fun el => enc_data math_log el encoding) (map as_decoded a))
      with (enc_array_items (fun el => enc_data math_log el encoding) a); [reflexivity|].
    induction IH as [|v a Hv _ IHa]; [reflexivity|].
    cbn [map enc_array_items]. rewrite Hv, IHa. reflexivity.
  - cbn [as_decoded enc_data]. rewrite len_map.
    replace (enc_array_items (fun el => enc_data math_log el encoding) (map as_decoded a))
      with (enc_array_items (fun el => enc_data math_log el encoding) a); [reflexivity|].
    induction IH as [|v a Hv _ IHa]; [reflexivity|].
    cbn [map enc_array_items]. rewrite Hv, IHa. reflexivity.
  - cbn [as_decoded enc_data]. rewrite len_map.
    match goal with
    | |- context [enc_struct_items ?f encoding (map ?g d)] =>
        replace (enc_struct_items f encoding (map g d))
          with (enc_struct_items f encoding d); [reflexivity|]
    end.
    induction IH as [|[k v] d Hv _ IHd]; [reflexivity|].
    cbn [map enc_struct_items]. cbn [snd] in Hv. rewrite Hv, IHd. reflexivity.
Qed.

(** X7: what comes back for a value that holds tuples or other objects.
    [enc_data] writes a tuple as an Array and any other object as the String
    of its [str()]; when the value, with its tuples taken as lists and its
    other objects as their texts, is one of the round trip, [dec_data]
    returns exactly that list-and-string value from the bytes, with their
    length as next offset. So a tuple comes back as a list. *)
Theorem dec_data_enc_data_as_decoded
  (math_log : float -> float -> float) (encoding : codec) (v : value) (bs : bytes) :
  representable encoding (as_decoded v) = true ->
  enc_data math_log v encoding = Ok bs ->
  dec_data bs encoding 0 = Ok (as_decoded v, len bs).
Proof.
  intros Hrep Henc. rewrite <- enc_data_as_decoded in Henc.
  destruct (representable_round_trips math_log encoding _ Hrep bs Henc) as (fuel & Hf).
  apply (dec_data_of_fuel _ _ _ fuel). apply (Hf bs 0 []).
  exists []. rewrite app_nil_r. split; reflexivity.
Qed.

Lemma dec_data_enc_data_as_decoded_witness :
  exists bs : bytes,
    enc_data log2_floor (VTuple [VInt 1; VOther (text "None"); VTuple []])
      DEFAULT_ENCODING = Ok bs /\
    dec_data bs DEFAULT_ENCODING 0
    = Ok (VList [VInt 1; VStr (text "None"); VList []], len bs).
Proof.
  destruct (enc_data log2_floor (VTuple [VInt 1; VOther (text "None"); VTuple []])
              DEFAULT_ENCODING) as [bs| |] eqn:E; [|discriminate E..].
  exists bs. split; [reflexivity|].
  exact (dec_data_enc_data_as_decoded log2_floor DEFAULT_ENCODING
           (VTuple [VInt 1; VOther (text "None"); VTuple []]) bs eq_refl E).
Defined.

(** ** The values that come out *)

Lemma dict_set_keys (d : list (pystr * value)) (k : pystr) (v : value) :
  map fst (dict_set d k v)
  = if mem_str k (map fst d) then map fst d else map fst d ++ [k].
Proof.
  induction d as [|[k0 v0] d IH]; cbn [dict_set map fst mem_str]; [reflexivity|].
  destruct (pystr_eqb k k0); cbn [orb map fst]; [reflexivity|].
  rewrite IH. destruct (mem_str k (map fst d)); reflexivity.
Qed.

Lemma distinct_snoc (l : list pystr) (k : pystr) :
  distinct l = true -> mem_str k l = false -> distinct (l ++ [k]) = true.
Proof.
  induction l as [|x l IH]; cbn [distinct mem_str app]; [reflexivity|].
  intros Hd Hm. apply andb_true_iff in Hd. destruct Hd as [Hx Hd].
  apply orb_false_elim in Hm. destruct Hm as [Hkx Hm].
  rewrite mem_str_app. cbn [mem_str]. rewrite (pystr_eqb_sym x k), Hkx.
  apply negb_true_iff in Hx. rewrite Hx. cbn [orb negb andb]. apply IH; assumption.
Qed.

Lemma dict_set_distinct (d : list (pystr * value)) (k : pystr) (v : value) :
  distinct (map fst d) = true -> distinct (map fst (dict_set d k v)) = true.
Proof.
  intros Hd. rewrite dict_set_keys. destruct (mem_str k (map fst d)) eqn:E;
    [exact Hd|]. apply distinct_snoc; assumption.
Qed.

Lemma dict_set_forallb (P : value -> bool) (d : list (pystr * value)) (k : pystr)
  (v : value) :
  forallb (fun kv => match kv with (_, v') => P v' end) d = true -> P v = true ->
  forallb (fun kv => match kv with (_, v') => P v' end) (dict_set d k v) = true.
Proof.
  intros Hd Hv. induction d as [|[k0 v0] d IH]; cbn [dict_set forallb].
  - rewrite Hv. reflexivity.
  - cbn [forallb] in Hd. apply andb_true_iff in Hd. destruct Hd as [H0 Hd].
    destruct (pystr_eqb k k0); cbn [forallb].
    + rewrite Hv, Hd. reflexivity.
    + rewrite H0, (IH Hd). reflexivity.
Qed.

Lemma forallb_snoc {A : Type} (P : A -> bool) (l : list A) (x : A) :
  forallb P l = true -> P x = true -> forallb P (l ++ [x]) = true.
Proof.
  intros Hl Hx. rewrite forallb_app, Hl. cbn. rewrite Hx. reflexivity.
Qed.

Lemma _dec_int_range (buf : bytes) (ofs n ofs' : Z) :
  _dec_int buf ofs = Ok (n, ofs') -> - 2 ^ 31 <= n < 2 ^ 31.
Proof.
  intros H. destruct (_rd_u32 buf ofs) as [[u o]| |] eqn:E.
  - rewrite (_dec_int_signed _ _ _ _ E) in H. injection H as <- _.
    apply _rd_u32_ok in E. destruct E as (_ & _ & Hu). unfold to_signed32.
    destruct (u <? 2 ^ 31) eqn:E1; lia.
  - unfold _dec_int in H. rewrite E in H. discriminate H.
  - unfold _dec_int in H. rewrite E in H. discriminate H.
Qed.

Lemma dec_fuel_shape (buf : bytes) (encoding : codec) (fuel : nat) :
  (forall ofs v ofs',
      dec_data_fuel fuel buf encoding ofs = Ok (v, ofs') -> decoded_shape v = true) /\
  (forall n ofs acc l ofs',
      dec_array_loop fuel buf encoding n ofs acc = Ok (l, ofs') ->
      forallb decoded_shape acc = true -> forallb decoded_shape l = true) /\
  (forall n ofs acc d ofs',
      dec_struct_loop fuel buf encoding n ofs acc = Ok (d, ofs') ->
      decoded_shape (VDict acc) = true -> decoded_shape (VDict d) = true).
Proof.
  induction fuel as [|fuel (IHd & IHa & IHs)].
  - repeat split.
    + intros ofs v ofs' H. discriminate H.
    + intros n ofs acc l ofs'. cbn. destruct (n <=? 0); [|discriminate].
      intros [= <- _] H. exact H.
    + intros n ofs acc d ofs'. cbn [dec_struct_loop]. destruct (n <=? 0); [|discriminate].
      intros [= <- _] H. exact H.
  - split; [|split].
    + intros ofs v ofs' H. cbn [dec_data_fuel] in H. inv_ok.
      repeat match type of H with
             | (if ?c then _ else _) = _ => destruct c
             end; inv_ok; try discriminate H; subst v.
      * reflexivity.
      * reflexivity.
      * cbn [decoded_shape].
        match goal with
        | Hi : _dec_int _ _ = Ok _ |- _ => apply _dec_int_range in Hi
        end.
        apply andb_true_iff. split; [apply Z.leb_le|apply Z.ltb_lt]; lia.
      * reflexivity.
      * cbn [decoded_shape].
        match goal with
        | Hl : dec_array_loop _ _ _ _ _ _ = Ok _ |- _ => apply IHa in Hl; [exact Hl|]
        end.
        reflexivity.
      * match goal with
        | Hl : dec_struct_loop _ _ _ _ _ _ = Ok _ |- _ => apply IHs in Hl; [exact Hl|]
        end.
        reflexivity.
    + intros n ofs acc l ofs' H Hacc. cbn [dec_array_loop] in H.
      destruct (n <=? 0); [injection H as <- _; exact Hacc|]. inv_ok.
      match goal with
      | Hv : dec_data_fuel _ _ _ _ = Ok _ |- _ => apply IHd in Hv; rename Hv into Hshape
      end.
      apply IHa in H; [exact H|]. apply forallb_snoc; assumption.
    + intros n ofs acc d ofs' H Hacc. cbn [dec_struct_loop] in H.
      destruct (n <=? 0); [injection H as <- _; exact Hacc|]. inv_ok.
      match goal with
      | Hv : dec_data_fuel _ _ _ _ = Ok _ |- _ => apply IHd in Hv; rename Hv into Hshape
      end.
      apply IHs in H; [exact H|].
      cbn [decoded_shape] in *. apply andb_true_iff in Hacc. destruct Hacc as [Hk Hv].
      apply andb_true_iff. split.
      * apply dict_set_distinct. exact Hk.
      * apply (dict_set_forallb decoded_shape); assumption.
Qed.

(** X8: the values [dec_data] returns. Whatever the buffer holds, a value
    that [dec_data] returns holds Integers of the signed 32-bit range only,
    no tuple and no other object, and the keys of each of its dicts are
    distinct: a key that a Struct on the wire repeats is one key of the
    dict. *)
Theorem dec_data_shape (buf : bytes) (encoding : codec) (ofs : Z) (v : value) (ofs' : Z) :
  dec_data buf encoding ofs = Ok (v, ofs') -> decoded_shape v = true.
Proof. apply (proj1 (dec_fuel_shape buf encoding (S (length buf)))). Qed.

Lemma dec_data_shape_witness :
  dec_data (be32 T_STRUCT ++ be32 2
              ++ (be32 1 ++ ["a"%byte] ++ be32 T_BOOL ++ [x01])
              ++ (be32 1 ++ ["a"%byte] ++ be32 T_INTEGER ++ be32 (2 ^ 32 - 5)))
    DEFAULT_ENCODING 0
  = Ok (VDict [(text "a", VInt (-5))], 31) /\
  decoded_shape (VDict [(text "a", VInt (-5))]) = true.
Proof.
  split; [reflexivity|].
  apply (dec_data_shape
           (be32 T_STRUCT ++ be32 2
              ++ (be32 1 ++ ["a"%byte] ++ be32 T_BOOL ++ [x01])
              ++ (be32 1 ++ ["a"%byte] ++ be32 T_INTEGER ++ be32 (2 ^ 32 - 5)))
           DEFAULT_ENCODING 0 _ 31).
  reflexivity.
Defined.

(** ** Counts on the wire *)

Lemma len_snoc {A : Type} (l : list A) (x : A) : len (l ++ [x]) = len l + 1.
Proof. rewrite len_app. reflexivity. Qed.

Lemma dec_array_loop_count (buf : bytes) (encoding : codec) (fuel : nat) :
  forall (n ofs : Z) (acc l : list value) (ofs' : Z),
    dec_array_loop fuel buf encoding n ofs acc = Ok (l, ofs') ->
    len l = len acc + Z.max n 0 /\ (0 < n -> ofs + 4 * n <= len buf).
Proof.
  induction fuel as [|fuel IH]; intros n ofs acc l ofs' H; cbn [dec_array_loop] in H;
    destruct (n <=? 0) eqn:En.
  - injection H as <- _. lia.
  - discriminate H.
  - injection H as <- _. lia.
  - inv_ok.
    match goal with
    | Hv : dec_data_fuel _ _ _ _ = Ok _ |- _ =>
        apply (proj1 (dec_fuel_advance buf encoding fuel)) in Hv; destruct Hv as [Hin Hadv]
    end.
    apply IH in H. destruct H as [Hlen Hb]. rewrite len_snoc in Hlen. lia.
Qed.

Lemma dec_params_loop_count (body : bytes) (encoding : codec) (fuel : nat) :
  forall (n ofs : Z) (acc l : list value),
    dec_params_loop fuel body encoding n ofs acc = Ok l ->
    len l = len acc + Z.max n 0 /\ (0 < n -> ofs + 4 * n <= len body).
Proof.
  induction fuel as [|fuel IH]; intros n ofs acc l H; cbn [dec_params_loop] in H;
    destruct (n <=? 0) eqn:En.
  - injection H as <-. lia.
  - discriminate H.
  - injection H as <-. lia.
  - inv_ok.
    match goal with
    | Hv : dec_data _ _ _ = Ok _ |- _ =>
        apply dec_data_advance in Hv; destruct Hv as [Hin Hadv]
    end.
    apply IH in H. destruct H as [Hlen Hb]. rewrite len_snoc in Hlen. lia.
Qed.

(** X9: the count of an Array is believed only as far as the buffer goes.
    When [dec_data] returns a list from an offset that is not negative, the
    list has as many elements as the count field says, four bytes after the
    offset, and the buffer holds, from the offset on, the eight bytes of tag
    and count and at least four bytes for each element: on a count that
    promises more elements than the rest of the buffer can hold, [dec_data]
    does not return. (A negative offset counts from the end of the buffer,
    and the elements are then read from its start.) *)
Theorem dec_data_array_count (buf : bytes) (encoding : codec) (ofs : Z)
  (l : list value) (ofs' : Z) :
  0 <= ofs ->
  dec_data buf encoding ofs = Ok (VList l, ofs') ->
  _rd_u32 buf (ofs + 4) = Ok (len l, ofs + 8) /\
  ofs + 8 + 4 * len l <= len buf.
Proof.
  intros _ H. unfold dec_data in H. cbn [dec_data_fuel] in H. inv_ok.
  match goal with
  | Ht : _rd_u32 buf ofs = Ok _ |- _ => apply _rd_u32_ok in Ht; destruct Ht as (-> & _ & _)
  end.
  repeat match type of H with
         | (if ?c then _ else _) = _ => destruct c
         end; inv_ok; try discriminate H.
  match goal with
  | Hl : dec_array_loop _ _ _ _ _ _ = Ok _ |- _ =>
      apply dec_array_loop_count in Hl; destruct Hl as [Hlen Hb]
  end.
  subst.
  match goal with
  | Hn : _rd_u32 buf (ofs + 4) = Ok _ |- _ =>
      pose proof (_rd_u32_ok _ _ _ _ Hn) as (-> & Hin & Hr); rewrite Hn
  end.
  change (len (@nil value)) with 0 in Hlen.
  split; [do 2 f_equal; lia|]. lia.
Qed.

Lemma dec_data_array_count_witness :
  dec_data (be32 T_ARRAY ++ be32 2 ++ be32 T_BOOL ++ [x01] ++ be32 T_BOOL ++ [x00])
    DEFAULT_ENCODING 0 = Ok (VList [VBool true; VBool false], 18) /\
  0 + 8 + 4 * len [VBool true; VBool false]
  <= len (be32 T_ARRAY ++ be32 2 ++ be32 T_BOOL ++ [x01] ++ be32 T_BOOL ++ [x00]).
Proof.
  split; [reflexivity|].
  apply (dec_data_array_count
           (be32 T_ARRAY ++ be32 2 ++ be32 T_BOOL ++ [x01] ++ be32 T_BOOL ++ [x00])
           DEFAULT_ENCODING 0 [VBool true; VBool false] 18); [lia|reflexivity].
Defined.

(** X10: the count of the parameters is believed only as far as the frame
    goes. When [dec_request] returns, the frame holds the eight header bytes,
    four bytes for the length of the method name, four for the count, and at
    least four bytes for each parameter returned: a frame of [n] bytes never
    yields more than [(n - 16) / 4] parameters. *)
Theorem dec_request_param_count (frame : bytes) (encoding : codec)
  (method : pystr) (params : list value) :
  dec_request frame encoding = Ok (method, params) ->
  16 + 4 * len params <= len frame.
Proof.
  intros H.
  assert (Hl : 8 <= len frame).
  { unfold dec_request in H. destruct (len frame <? 8) eqn:E; [discriminate|lia]. }
  destruct (split_header frame Hl) as (header & body & -> & Hh).
  rewrite dec_request_frame in H by exact Hh. rewrite len_app, Hh.
  destruct (negb (bytes_eqb (slice header 0 4) (slice HDR_REQ 0 4))); [discriminate|].
  inv_ok. destruct (negb (bytes_eqb (slice header 4 8) a)); [discriminate|].
  unfold dec_request_body in H. inv_ok. subst.
  match goal with
  | Hs : _dec_string body 0 encoding = Ok _ |- _ =>
      apply _dec_string_ok in Hs; destruct Hs as (k & _ & Hk & _ & -> & _)
  end.
  match goal with
  | Hn : _rd_u32 body _ = Ok _ |- _ =>
      apply _rd_u32_ok in Hn; destruct Hn as (-> & Hin & Hr)
  end.
  match goal with
  | Hp : dec_params_loop _ _ _ _ _ _ = Ok _ |- _ =>
      apply dec_params_loop_count in Hp; destruct Hp as [Hlen Hb]
  end.
  change (len (@nil value)) with 0 in Hlen. lia.
Qed.

Lemma dec_request_param_count_witness :
  dec_request (HDR_REQ ++ be32 21 ++ be32 0 ++ be32 1 ++ be32 T_BOOL ++ [x01])
    DEFAULT_ENCODING = Ok ([], [VBool true]) /\
  16 + 4 * len [VBool true]
  <= len (HDR_REQ ++ be32 21 ++ be32 0 ++ be32 1 ++ be32 T_BOOL ++ [x01]).
Proof.
  split; [reflexivity|].
  apply (dec_request_param_count
           (HDR_REQ ++ be32 21 ++ be32 0 ++ be32 1 ++ be32 T_BOOL ++ [x01])
           DEFAULT_ENCODING [] [VBool true] eq_refl).
Defined.

(** ** Decoding at an offset *)

Section Shift.

Variables pre buf : bytes.

Lemma skipn_shift (ofs : Z) :
  0 <= ofs -> skipn (Z.to_nat (len pre + ofs)) (pre ++ buf) = skipn (Z.to_nat ofs) buf.
Proof.
  intros H. unfold len. rewrite skipn_app_ge by lia. f_equal. lia.
Qed.

Lemma unpack_from_u32_shift (ofs : Z) :
  0 <= ofs -> unpack_from_u32 (pre ++ buf) (len pre + ofs) = unpack_from_u32 buf ofs.
Proof.
  intros H. unfold unpack_from_u32. rewrite len_app. pose proof (len_nonneg pre).
  destruct (len pre + ofs <? 0) eqn:E1; [lia|]. destruct (ofs <? 0) eqn:E2; [lia|].
  cbn [andb]. rewrite skipn_shift by exact H.
  replace (len pre + len buf - (len pre + ofs)) with (len buf - ofs) by lia.
  reflexivity.
Qed.

Lemma _rd_u32_shift (ofs : Z) :
  0 <= ofs -> _rd_u32 (pre ++ buf) (len pre + ofs) = shifted (len pre) (_rd_u32 buf ofs).
Proof.
  intros H. unfold _rd_u32. rewrite unpack_from_u32_shift by exact H.
  destruct (unpack_from_u32 buf ofs); cbn [bind shifted]; try reflexivity.
  do 2 f_equal. lia.
Qed.

Lemma slice_shift (a b : Z) :
  0 <= a -> 0 <= b -> slice (pre ++ buf) (len pre + a) (len pre + b) = slice buf a b.
Proof.
  intros Ha Hb. unfold slice, adjust_index. rewrite len_app.
  pose proof (len_nonneg pre). pose proof (len_nonneg buf).
  destruct (len pre + a <? 0) eqn:E1; [lia|]. destruct (len pre + b <? 0) eqn:E2; [lia|].
  destruct (a <? 0) eqn:E3; [lia|]. destruct (b <? 0) eqn:E4; [lia|].
  replace (Z.min (len pre + a) (len pre + len buf)) with (len pre + Z.min a (len buf))
    by lia.
  replace (Z.min (len pre + b) (len pre + len buf)) with (len pre + Z.min b (len buf))
    by lia.
  rewrite skipn_shift by lia. f_equal. lia.
Qed.

Lemma index_shift (ofs : Z) :
  0 <= ofs -> index (pre ++ buf) (len pre + ofs) = index buf ofs.
Proof.
  intros H. unfold index. rewrite len_app. pose proof (len_nonneg pre).
  cbv beta zeta.
  destruct (len pre + ofs <? 0) eqn:E1; [lia|]. destruct (ofs <? 0) eqn:E2; [lia|].
  cbv beta iota. rewrite E1, E2. cbn [orb].
  replace (len pre + len buf <=? len pre + ofs) with (len buf <=? ofs)
    by (destruct (len buf <=? ofs) eqn:E3; symmetry; zbool; reflexivity).
  destruct (len buf <=? ofs); [reflexivity|].
  rewrite nth_error_app2 by (unfold len in *; lia).
  replace (Z.to_nat (len pre + ofs) - length pre)%nat with (Z.to_nat ofs)
    by (unfold len in *; lia).
  reflexivity.
Qed.

Lemma _dec_string_shift (encoding : codec) (ofs : Z) :
  0 <= ofs ->
  _dec_string (pre ++ buf) (len pre + ofs) encoding
  = shifted (len pre) (_dec_string buf ofs encoding).
Proof.
  intros H. unfold _dec_string. rewrite _rd_u32_shift by exact H.
  destruct (_rd_u32 buf ofs) as [[n o]| |] eqn:E; cbn [bind shifted]; try reflexivity.
  apply _rd_u32_ok in E. destruct E as (-> & _ & Hn).
  replace (len pre + (ofs + 4) + n) with (len pre + (ofs + 4 + n)) by lia.
  rewrite slice_shift by lia. reflexivity.
Qed.

Lemma leaf_decoders_shift (ofs : Z) :
  0 <= ofs ->
  _dec_bool (pre ++ buf) (len pre + ofs) = shifted (len pre) (_dec_bool buf ofs) /\
  _dec_int (pre ++ buf) (len pre + ofs) = shifted (len pre) (_dec_int buf ofs) /\
  _dec_double (pre ++ buf) (len pre + ofs) = shifted (len pre) (_dec_double buf ofs).
Proof.
  intros H. unfold _dec_bool, _dec_int, _dec_double, unpack_from_i32.
  rewrite index_shift, _rd_u32_shift, unpack_from_u32_shift by exact H.
  replace (len pre + ofs + 4) with (len pre + (ofs + 4)) by lia.
  rewrite (_rd_u32_shift (ofs + 4)) by lia. repeat split.
  - destruct (index buf ofs); cbn [bind shifted]; try reflexivity. do 2 f_equal. lia.
  - destruct (_rd_u32 buf ofs) as [[v o]| |]; cbn [bind shifted]; try reflexivity.
    destruct (negb _); reflexivity.
  - destruct (unpack_from_u32 buf ofs); cbn [bind shifted]; try reflexivity.
    destruct (_rd_u32 buf (ofs + 4)) as [[m o]| |]; cbn [bind shifted]; try reflexivity.
    destruct (float_of_int m); cbn [bind shifted]; try reflexivity.
    destruct (float_of_int (Z.shiftl 1 30)); cbn [bind shifted]; try reflexivity.
    destruct (float_of_pow2 _); cbn [bind shifted]; reflexivity.
Qed.

Lemma dec_fuel_shift (encoding : codec) (fuel : nat) :
  (forall ofs,
      0 <= ofs ->
      dec_data_fuel fuel (pre ++ buf) encoding (len pre + ofs)
      = shifted (len pre) (dec_data_fuel fuel buf encoding ofs)) /\
  (forall n ofs acc,
      0 <= ofs ->
      dec_array_loop fuel (pre ++ buf) encoding n (len pre + ofs) acc
      = shifted (len pre) (dec_array_loop fuel buf encoding n ofs acc)) /\
  (forall n ofs acc,
      0 <= ofs ->
      dec_struct_loop fuel (pre ++ buf) encoding n (len pre + ofs) acc
      = shifted (len pre) (dec_struct_loop fuel buf encoding n ofs acc)).
Proof.
  induction fuel as [|fuel (IHd & IHa & IHs)]; (split; [|split]).
  - reflexivity.
  - intros n ofs acc _. cbn. destruct (n <=? 0); reflexivity.
  - intros n ofs acc _. cbn [dec_struct_loop]. destruct (n <=? 0); reflexivity.
  - intros ofs H. cbn [dec_data_fuel]. rewrite _rd_u32_shift by exact H.
    destruct (_rd_u32 buf ofs) as [[t o]| |] eqn:E; cbn [bind shifted]; try reflexivity.
    apply _rd_u32_ok in E. destruct E as (-> & _ & _).
    rewrite _dec_string_shift by lia.
    destruct (leaf_decoders_shift (ofs + 4)) as (-> & -> & ->); [lia|].
    rewrite (_rd_u32_shift (ofs + 4)) by lia.
    repeat match goal with |- context [if ?c then _ else _] => destruct c end;
      try reflexivity.
    + destruct (_dec_string buf (ofs + 4) encoding) as [[x o]| |]; reflexivity.
    + destruct (_dec_bool buf (ofs + 4)) as [[x o]| |]; reflexivity.
    + destruct (_dec_int buf (ofs + 4)) as [[x o]| |]; reflexivity.
    + destruct (_dec_double buf (ofs + 4)) as [[x o]| |]; reflexivity.
    + destruct (_rd_u32 buf (ofs + 4)) as [[n o]| |] eqn:E; cbn [bind shifted];
        try reflexivity.
      apply _rd_u32_ok in E. rewrite IHa by lia.
      destruct (dec_array_loop fuel buf encoding n o []) as [[x o']| |]; reflexivity.
    + destruct (_rd_u32 buf (ofs + 4)) as [[n o]| |] eqn:E; cbn [bind shifted];
        try reflexivity.
      apply _rd_u32_ok in E. rewrite IHs by lia.
      destruct (dec_struct_loop fuel buf encoding n o []) as [[x o']| |]; reflexivity.
  - intros n ofs acc H. cbn [dec_array_loop]. destruct (n <=? 0); [reflexivity|].
    rewrite IHd by exact H.
    destruct (dec_data_fuel fuel buf encoding ofs) as [[v o]| |] eqn:E;
      cbn [bind shifted]; try reflexivity.
    apply (proj1 (dec_fuel_advance _ _ _)) in E. apply IHa. lia.
  - intros n ofs acc H. cbn [dec_struct_loop]. destruct (n <=? 0); [reflexivity|].
    rewrite _dec_string_shift by exact H.
    destruct (_dec_string buf ofs encoding) as [[k o]| |] eqn:E; cbn [bind shifted];
      try reflexivity.
    apply _dec_string_ok in E. destruct E as (m & _ & Hm & _ & -> & _).
    rewrite IHd by lia.
    destruct (dec_data_fuel fuel buf encoding (ofs + 4 + m)) as [[v o]| |] eqn:E;
      cbn [bind shifted]; try reflexivity.
    apply (proj1 (dec_fuel_advance _ _ _)) in E. apply IHs. lia.
Qed.

End Shift.

(** X11: decoding at an offset. For an offset that is not negative,
    [dec_data] at [k + ofs] in a buffer is [dec_data] at [ofs] in the buffer
    without its first [k] bytes: the same value with the next offset moved by
    [k], or the same exception. The bytes before the offset are never read. *)
Theorem dec_data_at_offset (pre buf : bytes) (encoding : codec) (ofs : Z) :
  0 <= ofs ->
  dec_data (pre ++ buf) encoding (len pre + ofs)
  = shifted (len pre) (dec_data buf encoding ofs).
Proof.
  intros H. unfold dec_data at 1.
  rewrite (proj1 (dec_fuel_shift pre buf encoding _)) by exact H.
  rewrite dec_data_at_fuel; [reflexivity|]. rewrite length_app. lia.
Qed.

Lemma dec_data_at_offset_witness :
  0 <= 0 /\
  dec_data (be32 7 ++ be32 T_INTEGER ++ be32 5) DEFAULT_ENCODING (len (be32 7) + 0)
  = Ok (VInt 5, 12).
Proof.
  split; [lia|].
  rewrite (dec_data_at_offset (be32 7) (be32 T_INTEGER ++ be32 5) DEFAULT_ENCODING 0);
    [reflexivity|lia].
Defined.

(** ** Bytes after a value *)

Section Extend.

Variables buf post : bytes.

Lemma unpack_from_u32_extend (ofs v : Z) :
  0 <= ofs -> unpack_from_u32 buf ofs = Ok v -> unpack_from_u32 (buf ++ post) ofs = Ok v.
Proof.
  intros H. unfold unpack_from_u32. rewrite len_app. pose proof (len_nonneg post).
  destruct (ofs <? 0) eqn:E; [lia|]. cbn [andb].
  destruct (len buf - ofs <? 4) eqn:E1; [discriminate|].
  destruct (len buf + len post - ofs <? 4) eqn:E2; [lia|].
  rewrite skipn_app.
  destruct (skipn (Z.to_nat ofs) buf) as [|b0 [|b1 [|b2 [|b3 r]]]]; try discriminate.
  intros Hv. exact Hv.
Qed.

Lemma _rd_u32_extend (ofs : Z) (r : Z * Z) :
  0 <= ofs -> _rd_u32 buf ofs = Ok r -> _rd_u32 (buf ++ post) ofs = Ok r.
Proof.
  intros H. unfold _rd_u32. intros Hr. inv_ok.
  rewrite (unpack_from_u32_extend ofs a H E). cbn [bind]. f_equal. exact Hr.
Qed.

Lemma slice_extend (a b : Z) :
  0 <= a -> 0 <= b <= len buf -> slice (buf ++ post) a b = slice buf a b.
Proof.
  intros Ha Hb. unfold slice, adjust_index. rewrite len_app.
  pose proof (len_nonneg post). pose proof (len_nonneg buf).
  destruct (a <? 0) eqn:E1; [lia|]. destruct (b <? 0) eqn:E2; [lia|].
  replace (Z.min b (len buf + len post)) with b by lia.
  replace (Z.min b (len buf)) with b by lia.
  destruct (Z.le_gt_cases a (len buf)) as [Hle|Hgt].
  - replace (Z.min a (len buf + len post)) with a by lia.
    replace (Z.min a (len buf)) with a by lia.
    rewrite skipn_app, firstn_app.
    replace (Z.to_nat (b - a) - length (skipn (Z.to_nat a) buf))%nat with 0%nat
      by (rewrite length_skipn; unfold len in *; lia).
    cbn [firstn]. apply app_nil_r.
  - replace (Z.to_nat (b - Z.min a (len buf + len post))) with 0%nat by lia.
    replace (Z.to_nat (b - Z.min a (len buf))) with 0%nat by lia.
    reflexivity.
Qed.

Lemma index_extend (ofs : Z) (b : byte) :
  0 <= ofs -> index buf ofs = Ok b -> index (buf ++ post) ofs = Ok b.
Proof.
  intros H. unfold index. rewrite len_app. pose proof (len_nonneg post).
  cbv beta zeta. destruct (ofs <? 0) eqn:E; [lia|]. cbv beta iota. rewrite E. cbn [orb].
  destruct (len buf <=? ofs) eqn:E1; [discriminate|].
  destruct (len buf + len post <=? ofs) eqn:E2; [lia|].
  rewrite nth_error_app1 by (unfold len in *; lia). intros Hb. exact Hb.
Qed.

Lemma _dec_string_extend (encoding : codec) (ofs : Z) (s : pystr) (ofs' : Z) :
  0 <= ofs -> _dec_string buf ofs encoding = Ok (s, ofs') -> ofs' <= len buf ->
  _dec_string (buf ++ post) ofs encoding = Ok (s, ofs').
Proof.
  intros H Hs He. unfold _dec_string in *. inv_ok.
  rewrite (_rd_u32_extend ofs _ H E). cbn [bind].
  apply _rd_u32_ok in E. destruct E as (-> & _ & Hn). subst.
  rewrite slice_extend by lia. reflexivity.
Qed.

Lemma leaf_decoders_extend (ofs : Z) :
  0 <= ofs ->
  (forall r, _dec_bool buf ofs = Ok r -> _dec_bool (buf ++ post) ofs = Ok r) /\
  (forall r, _dec_int buf ofs = Ok r -> _dec_int (buf ++ post) ofs = Ok r) /\
  (forall r, _dec_double buf ofs = Ok r -> _dec_double (buf ++ post) ofs = Ok r).
Proof.
  intros H. unfold _dec_bool, _dec_int, _dec_double, unpack_from_i32. repeat split.
  - intros r Hr. inv_ok. rewrite (index_extend ofs a H E). cbn [bind]. f_equal. exact Hr.
  - intros r Hr. inv_ok. rewrite (_rd_u32_extend ofs _ H E). cbn [bind]. exact Hr.
  - intros r Hr. inv_ok.
    match goal with
    | Hu : unpack_from_u32 buf ofs = Ok _ |- _ =>
        rewrite (unpack_from_u32_extend ofs _ H Hu)
    end.
    cbn [bind].
    assert (H4 : 0 <= ofs + 4) by lia.
    match goal with
    | Hm : _rd_u32 buf (ofs + 4) = Ok _ |- _ => rewrite (_rd_u32_extend (ofs + 4) _ H4 Hm)
    end.
    cbn [bind]. subst.
    repeat match goal with
           | Hf : ?f = Ok _ |- context [?f] => rewrite Hf; cbn [bind]
           end.
    reflexivity.
Qed.

Lemma dec_fuel_extend (encoding : codec) (fuel : nat) :
  (forall ofs v ofs',
      0 <= ofs -> dec_data_fuel fuel buf encoding ofs = Ok (v, ofs') -> ofs' <= len buf ->
      dec_data_fuel fuel (buf ++ post) encoding ofs = Ok (v, ofs')) /\
  (forall n ofs acc l ofs',
      0 <= ofs -> dec_array_loop fuel buf encoding n ofs acc = Ok (l, ofs') ->
      ofs' <= len buf ->
      dec_array_loop fuel (buf ++ post) encoding n ofs acc = Ok (l, ofs')) /\
  (forall n ofs acc d ofs',
      0 <= ofs -> dec_struct_loop fuel buf encoding n ofs acc = Ok (d, ofs') ->
      ofs' <= len buf ->
      dec_struct_loop fuel (buf ++ post) encoding n ofs acc = Ok (d, ofs')).
Proof.
  induction fuel as [|fuel (IHd & IHa & IHs)]; (split; [|split]).
  - intros ofs v ofs' _ H. discriminate H.
  - intros n ofs acc l ofs' _. cbn. destruct (n <=? 0); [|discriminate].
    intros H _. exact H.
  - intros n ofs acc l ofs' _. cbn [dec_struct_loop]. destruct (n <=? 0); [|discriminate].
    intros H _. exact H.
  - intros ofs v ofs' H Hd He. cbn [dec_data_fuel] in *. inv_ok.
    match goal with
    | Ht : _rd_u32 buf ofs = Ok _ |- _ =>
        rewrite (_rd_u32_extend ofs _ H Ht); cbn [bind];
        apply _rd_u32_ok in Ht; destruct Ht as (-> & _ & _)
    end.
    destruct (leaf_decoders_extend (ofs + 4)) as (Hb & Hi & Hx); [lia|].
    assert (H4 : 0 <= ofs + 4) by lia. assert (H8 : 0 <= ofs + 4 + 4) by lia.
    repeat match type of Hd with
           | (if ?c then _ else _) = _ => destruct c
           end; inv_ok; try discriminate Hd; subst.
    + match goal with
      | Hs : _dec_string _ _ _ = Ok _ |- _ =>
          rewrite (_dec_string_extend _ _ _ _ H4 Hs He)
      end.
      reflexivity.
    + match goal with
      | Hs : _dec_bool _ _ = Ok _ |- _ => rewrite (Hb _ Hs)
      end.
      reflexivity.
    + match goal with
      | Hs : _dec_int _ _ = Ok _ |- _ => rewrite (Hi _ Hs)
      end.
      reflexivity.
    + match goal with
      | Hs : _dec_double _ _ = Ok _ |- _ => rewrite (Hx _ Hs)
      end.
      reflexivity.
    + match goal with
      | Hn : _rd_u32 buf (ofs + 4) = Ok _ |- _ =>
          rewrite (_rd_u32_extend (ofs + 4) _ H4 Hn); cbn [bind];
          apply _rd_u32_ok in Hn; destruct Hn as (-> & _ & _)
      end.
      match goal with
      | Hl : dec_array_loop _ _ _ _ _ _ = Ok _ |- _ =>
          rewrite (IHa _ _ _ _ _ H8 Hl He)
      end.
      reflexivity.
    + match goal with
      | Hn : _rd_u32 buf (ofs + 4) = Ok _ |- _ =>
          rewrite (_rd_u32_extend (ofs + 4) _ H4 Hn); cbn [bind];
          apply _rd_u32_ok in Hn; destruct Hn as (-> & _ & _)
      end.
      match goal with
      | Hl : dec_struct_loop _ _ _ _ _ _ = Ok _ |- _ =>
          rewrite (IHs _ _ _ _ _ H8 Hl He)
      end.
      reflexivity.
  - intros n ofs acc l ofs' H Hl He. cbn [dec_array_loop] in *.
    destruct (n <=? 0); [exact Hl|]. inv_ok.
    match goal with
    | Hv : dec_data_fuel _ _ _ _ = Ok (?v, ?o) |- _ =>
        pose proof (proj1 (dec_fuel_advance buf encoding fuel) _ _ _ Hv) as [_ Hadv];
        pose proof (proj1 (proj2 (dec_fuel_advance buf encoding fuel)) _ _ _ _ _ Hl) as Hmono;
        rewrite (IHd _ _ _ H Hv) by lia; cbn [bind];
        apply IHa; [lia|exact Hl|exact He]
    end.
  - intros n ofs acc d ofs' H Hl He. cbn [dec_struct_loop] in *.
    destruct (n <=? 0); [exact Hl|]. inv_ok.
    match goal with
    | Hk : _dec_string _ _ _ = Ok (?k, ?o1), Hv : dec_data_fuel _ _ _ _ = Ok (?v, ?o2) |- _ =>
        pose proof (proj1 (dec_fuel_advance buf encoding fuel) _ _ _ Hv) as [_ Hadv];
        pose proof (proj2 (proj2 (dec_fuel_advance buf encoding fuel)) _ _ _ _ _ Hl) as Hmono;
        pose proof (_dec_string_ok _ _ _ _ _ Hk) as (m & _ & Hm & _ & Ho & _);
        rewrite (_dec_string_extend _ _ _ _ H Hk) by lia; cbn [bind];
        rewrite (fun pf => IHd _ _ _ pf Hv) by lia; cbn [bind];
        apply IHs; [lia|exact Hl|exact He]
    end.
Qed.

End Extend.

(** X12: the bytes after a value do not matter. When [dec_data] returns a
    value from an offset that is not negative and the next offset it returns
    is within the buffer, it returns the same value and the same next offset
    from any buffer that goes on after these bytes. (A next offset beyond the
    buffer is that of a String whose length field promises more bytes than
    there are: more bytes do change that String.) *)
Theorem dec_data_extend (buf post : bytes) (encoding : codec) (ofs : Z)
  (v : value) (ofs' : Z) :
  0 <= ofs -> dec_data buf encoding ofs = Ok (v, ofs') -> ofs' <= len buf ->
  dec_data (buf ++ post) encoding ofs = Ok (v, ofs').
Proof.
  intros H Hd He. apply (dec_data_of_fuel _ _ _ (S (length buf))).
  apply (proj1 (dec_fuel_extend buf post encoding _)); assumption.
Qed.

Lemma dec_data_extend_witness :
  dec_data (be32 T_STRING ++ be32 2 ++ ["h"; "i"]%byte) DEFAULT_ENCODING 0
  = Ok (VStr (text "hi"), 10) /\
  dec_data ((be32 T_STRING ++ be32 2 ++ ["h"; "i"]%byte) ++ ["!"]%byte) DEFAULT_ENCODING 0
  = Ok (VStr (text "hi"), 10).
Proof.
  split; [reflexivity|].
  apply (dec_data_extend (be32 T_STRING ++ be32 2 ++ ["h"; "i"]%byte) ["!"]%byte
           DEFAULT_ENCODING 0 (VStr (text "hi")) 10); [lia|reflexivity|].
  vm_compute. discriminate.
Defined.

(** ** A String whose length field promises too much *)

Lemma slice_all {A : Type} (l : list A) (b : Z) : len l <= b -> slice l 0 b = l.
Proof.
  intros H. unfold slice, adjust_index. pose proof (len_nonneg l).
  destruct (0 <? 0) eqn:E0; [lia|]. destruct (b <? 0) eqn:E1; [lia|].
  replace (Z.min 0 (len l)) with 0 by lia. replace (Z.min b (len l)) with (len l) by lia.
  cbn [Z.to_nat skipn]. rewrite Z.sub_0_r. unfold len. rewrite Nat2Z.id. apply firstn_all.
Qed.

(** X13: the length field of a String is not checked against the buffer.
    When the field promises at least as many bytes as the buffer holds after
    it, [_dec_string] does not raise: it returns the text of the bytes that
    are there, and a next offset that counts the promised bytes, which lies
    beyond the buffer when bytes are missing. *)
Theorem _dec_string_overrun (pre rest : bytes) (encoding : codec) (n : Z) :
  len rest <= n < 2 ^ 32 ->
  _dec_string (pre ++ be32 n ++ rest) (len pre) encoding
  = Ok (bytes_decode encoding rest, len pre + 4 + n).
Proof.
  intros Hn. pose proof (len_nonneg rest). unfold _dec_string.
  rewrite _rd_u32_at by lia. cbn [bind].
  rewrite app_assoc.
  replace (len pre + 4) with (len (pre ++ be32 n) + 0) by (rewrite len_app, len_be32; lia).
  replace (len (pre ++ be32 n) + 0 + n) with (len (pre ++ be32 n) + n) by lia.
  rewrite slice_shift by lia. rewrite slice_all by lia.
  rewrite len_app, len_be32. do 2 f_equal; lia.
Qed.

Lemma _dec_string_overrun_witness :
  len ["a"%byte] <= 2 < 2 ^ 32 /\
  _dec_string (be32 T_STRING ++ be32 2 ++ ["a"%byte]) (len (be32 T_STRING)) DEFAULT_ENCODING
  = Ok (text "a", 10) /\
  len (be32 T_STRING ++ be32 2 ++ ["a"%byte]) = 9.
Proof.
  split; [vm_compute; split; [discriminate|reflexivity]|].
  split; [|reflexivity].
  rewrite (_dec_string_overrun (be32 T_STRING) ["a"%byte] DEFAULT_ENCODING 2);
    [reflexivity|].
  vm_compute. split; [discriminate|reflexivity].
Defined.

(** ** Receiving exactly [n] bytes *)

(** [settimeout] leaves what arrives as it is. *)
Lemma settimeout_ok (sock : socket) (timeout : float) (sock' : socket) :
  settimeout sock timeout = Ok sock' ->
  sock' = Socket (arriving sock) (closing sock) timeout (time_error sock).
Proof.
  unfold settimeout. destruct (is_nan timeout); [discriminate|].
  destruct (time_error sock timeout); [discriminate|].
  destruct (timeout <? 0)%float; [discriminate|]. intros [= <-]. reflexivity.
Qed.

Lemma recv_takes (sock : socket) (bufsize : Z) (chunk : bytes) (sock' : socket) :
  recv sock bufsize = Ok (chunk, sock') ->
  len chunk <= bufsize /\ chunk ++ stream sock' = stream sock.
Proof.
  unfold recv, stream. destruct (bufsize <? 0) eqn:E1; [discriminate|].
  destruct (bufsize =? 0) eqn:E2.
  - intros [= <- <-]. change (len (@nil byte)) with 0. split; [lia|reflexivity].
  - destruct (arriving sock) as [|[d c] rest].
    + destruct (closing sock) as [dl|]; [|discriminate].
      destruct (in_time _ dl); [|discriminate]. intros [= <- <-].
      change (len (@nil byte)) with 0. split; [lia|reflexivity].
    + destruct (negb _); [discriminate|].
      destruct (len c <=? bufsize) eqn:E; intros [= <- <-];
        cbn [arriving map snd concat].
      * split; [lia|reflexivity].
      * split.
        -- unfold len in *. rewrite length_firstn. lia.
        -- rewrite app_assoc, firstn_skipn. reflexivity.
Qed.

Lemma recv_exact_loop_takes (fuel : nat) :
  forall (sock : socket) (n : Z) (data r : bytes) (sock' : socket),
    recv_exact_loop fuel sock n data = Ok (r, sock') ->
    len data <= n ->
    len r = n /\ r ++ stream sock' = data ++ stream sock.
Proof.
  induction fuel as [|fuel IH]; intros sock n data r sock' H Hle;
    cbn [recv_exact_loop] in H; destruct (len data <? n) eqn:E.
  - discriminate H.
  - injection H as <- <-. split; [lia|reflexivity].
  - destruct (recv sock (n - len data)) as [[chunk sock1]| |] eqn:Er; cbn [bind] in H;
      try discriminate H.
    apply recv_takes in Er. destruct Er as [Hc Hcat].
    destruct (len chunk =? 0); [discriminate H|].
    apply IH in H; [|rewrite len_app; lia].
    destruct H as [Hlen Hr]. split; [exact Hlen|].
    rewrite Hr, <- app_assoc, Hcat. reflexivity.
  - injection H as <- <-. split; [lia|reflexivity].
Qed.

(** X14: what [recv_exact] returns. When it returns, for [n] that is not
    negative, the data is [n] bytes long, and the data followed by what is
    left on the socket is what was on the socket: it returns the first [n]
    bytes of the stream, takes no byte more, and loses and reorders none,
    in whatever chunks [recv] delivers them. *)
Theorem recv_exact_takes (sock : socket) (n : Z) (timeout : float)
  (data : bytes) (sock' : socket) :
  0 <= n -> recv_exact sock n timeout = Ok (data, sock') ->
  len data = n /\ data ++ stream sock' = stream sock.
Proof.
  intros Hn H. unfold recv_exact in H.
  destruct (settimeout sock timeout) as [sock0| |] eqn:Es; cbn [bind] in H;
    try discriminate H.
  apply settimeout_ok in Es. subst sock0.
  apply recv_exact_loop_takes in H; [exact H|exact Hn].
Qed.

Lemma recv_exact_takes_witness :
  recv_exact
    (Socket [(0%float, ["B"; "i"]%byte); (0.25%float, ["n"; x00; x00]%byte);
             (0.25%float, [x00])] None 0 (fun _ => None)) 4 0.5
  = Ok (["B"; "i"; "n"; x00]%byte,
        Socket [(0%float, [x00]); (0.25%float, [x00])] None 0.5 (fun _ => None)) /\
  len ["B"; "i"; "n"; x00]%byte = 4 /\
  ["B"; "i"; "n"; x00]%byte
    ++ stream (Socket [(0%float, [x00]); (0.25%float, [x00])] None 0.5 (fun _ => None))
  = stream (Socket [(0%float, ["B"; "i"]%byte); (0.25%float, ["n"; x00; x00]%byte);
                    (0.25%float, [x00])] None 0 (fun _ => None)).
Proof.
  split; [reflexivity|].
  apply (recv_exact_takes
           (Socket [(0%float, ["B"; "i"]%byte); (0.25%float, ["n"; x00; x00]%byte);
                    (0.25%float, [x00])] None 0 (fun _ => None)) 4 0.5
           ["B"; "i"; "n"; x00]%byte
           (Socket [(0%float, [x00]); (0.25%float, [x00])] None 0.5 (fun _ => None)));
    [lia|reflexivity].
Defined.

Lemma recv_exact_loop_closed (delay timeout : float) (te : float -> option exn)
  (arr : list (float * bytes)) :
  in_time timeout delay = true ->
  forall (fuel : nat) (n : Z) (data : bytes),
    (length arr < fuel)%nat ->
    Forall (timely timeout) arr ->
    len data + len (concat (map snd arr)) < n ->
    recv_exact_loop fuel (Socket arr (Some delay) timeout te) n data = Raise OSError.
Proof.
  intros Hd. induction arr as [|[d c] arr IH]; intros [|fuel] n data Hf Ht Hn;
    try (cbn in Hf; lia); cbn [recv_exact_loop]; cbn [map snd concat] in Hn.
  - change (len (@nil byte)) with 0 in *. destruct (len data <? n) eqn:E; [|lia].
    unfold recv. cbn [arriving closing sock_timeout time_error].
    destruct (n - len data <? 0) eqn:E1; [lia|].
    destruct (n - len data =? 0) eqn:E2; [lia|]. rewrite Hd. reflexivity.
  - rewrite len_app in Hn.
    pose proof (len_nonneg (concat (map snd arr))). pose proof (len_nonneg c).
    inversion Ht as [|? ? [Hc1 Ht1] Hrest]; subst. cbn [fst snd] in Hc1, Ht1.
    destruct (len data <? n) eqn:E; [|lia].
    rewrite recv_timely by (lia || exact Ht1).
    destruct (len c <=? n - len data) eqn:E1; [|lia]. cbn [bind].
    pose proof (len_pos c Hc1). destruct (len c =? 0) eqn:E2; [lia|].
    apply IH; [cbn [length] in Hf; lia|exact Hrest|]. rewrite len_app. lia.
Qed.

(** X15: when [recv_exact] returns and when it raises [OSError]. Take a
    timeout that [settimeout] takes (a number, not negative, within what the
    platform holds) and a socket on which every chunk holds bytes and is
    there within the timeout. When at least [n] bytes arrive, [recv_exact]
    returns the first [n], leaving the others on the socket. When fewer
    arrive and the peer then closes within the timeout, it raises
    [OSError]. *)
Theorem recv_exact_complete (sock : socket) (n : Z) (timeout : float) :
  accepted sock timeout -> Forall (timely timeout) (arriving sock) -> 0 <= n ->
  (n <= len (stream sock) ->
   exists sock' : socket,
     recv_exact sock n timeout = Ok (firstn (Z.to_nat n) (stream sock), sock') /\
     stream sock' = skipn (Z.to_nat n) (stream sock)) /\
  (len (stream sock) < n ->
   forall delay : float,
     closing sock = Some delay -> in_time timeout delay = true ->
     recv_exact sock n timeout = Raise OSError).
Proof.
  intros Hacc Hne Hn. split.
  - intros Hle.
    destruct (recv_exact_arrives sock timeout (firstn (Z.to_nat n) (stream sock))
                (skipn (Z.to_nat n) (stream sock)) Hacc) as (arr' & Hr & Ha & _).
    { split; [symmetry; apply firstn_skipn|exact Hne]. }
    replace (len (firstn (Z.to_nat n) (stream sock))) with n in Hr
      by (unfold len in *; rewrite length_firstn; lia).
    eexists. split; [exact Hr|exact Ha].
  - intros Hlt delay Hcl Hd. unfold recv_exact.
    rewrite (settimeout_accepted _ _ Hacc). cbn [bind arriving]. rewrite Hcl.
    apply recv_exact_loop_closed; [exact Hd|lia|exact Hne|].
    change (len (@nil byte)) with 0. unfold stream in Hlt. lia.
Qed.

Lemma recv_exact_complete_witness :
  recv_exact (Socket [(0%float, ["B"; "i"]%byte); (0.25%float, ["n"]%byte)]
                (Some 0.25%float) 0 (fun _ => None)) 3 0.5
  = Ok (["B"; "i"; "n"]%byte, Socket [] (Some 0.25%float) 0.5 (fun _ => None)) /\
  recv_exact (Socket [(0%float, ["B"; "i"]%byte); (0.25%float, ["n"]%byte)]
                (Some 0.25%float) 0 (fun _ => None)) 4 0.5
  = Raise OSError.
Proof.
  split; [reflexivity|].
  destruct (recv_exact_complete
              (Socket [(0%float, ["B"; "i"]%byte); (0.25%float, ["n"]%byte)]
                 (Some 0.25%float) 0 (fun _ => None)) 4 0.5) as [_ H].
  - repeat split.
  - repeat constructor; discriminate.
  - lia.
  - apply (H ltac:(vm_compute; reflexivity) 0.25%float); reflexivity.
Defined.

Lemma negative_not_nan (timeout : float) :
  (timeout <? 0)%float = true -> is_nan timeout = false.
Proof.
  unfold is_nan. rewrite eqb_spec, ltb_spec.
  change (Prim2SF 0) with (S754_zero false).
  pose proof (Prim2SF_valid timeout) as Hv.
  destruct (Prim2SF timeout) as [s|s| |s m e]; cbn; try discriminate;
    destruct s; try discriminate; intros _; try reflexivity.
  unfold SFeqb, SFcompare. rewrite Z.compare_refl, Pos.compare_cont_refl. reflexivity.
Qed.

(** X27: when [recv_exact] raises for the timeout. A timeout that is no
    number or is negative makes [recv_exact] raise [ValueError] before it
    reads, whatever [n] is. With a timeout that [settimeout] takes and
    [n] above zero, when the first chunk is not there within the timeout,
    or nothing is left to arrive and the peer stays silent, [recv_exact]
    raises [BlockingIOError] for the timeout 0 and [TimeoutError] for any
    other. *)
Theorem recv_exact_timeout (sock : socket) (n : Z) (timeout : float) :
  (is_nan timeout = true ->
   recv_exact sock n timeout = Raise (ValueError TimeoutNaN)) /\
  ((timeout <? 0)%float = true -> time_error sock timeout = None ->
   recv_exact sock n timeout = Raise (ValueError TimeoutOutOfRange)) /\
  (accepted sock timeout -> 0 < n ->
   (exists delay chunk rest,
       arriving sock = (delay, chunk) :: rest /\ in_time timeout delay = false)
   \/ (arriving sock = [] /\ closing sock = None) ->
   recv_exact sock n timeout = Raise (no_data timeout)).
Proof.
  split; [|split].
  - intros Hn. unfold recv_exact, settimeout. rewrite Hn. reflexivity.
  - intros Hneg Hte. unfold recv_exact, settimeout.
    rewrite (negative_not_nan _ Hneg), Hte, Hneg. reflexivity.
  - intros Hacc Hn Hlate. unfold recv_exact.
    rewrite (settimeout_accepted _ _ Hacc). cbn [bind arriving recv_exact_loop].
    change (len (@nil byte)) with 0. destruct (0 <? n) eqn:E; [|lia].
    unfold recv. cbn [arriving closing sock_timeout time_error].
    destruct (n - 0 <? 0) eqn:E1; [lia|]. destruct (n - 0 =? 0) eqn:E2; [lia|].
    destruct Hlate as [(delay & chunk & rest & -> & Hl)|[-> ->]].
    + rewrite Hl. reflexivity.
    + reflexivity.
Qed.

Lemma recv_exact_timeout_witness :
  recv_exact (Socket [(0.75%float, ["B"]%byte)] None 0 (fun _ => None)) 8 (-1)
  = Raise (ValueError TimeoutOutOfRange) /\
  recv_exact (Socket [(0.75%float, ["B"]%byte)] None 0 (fun _ => None)) 8 0.5
  = Raise TimeoutError /\
  recv_exact (Socket [(0.75%float, ["B"]%byte)] None 0 (fun _ => None)) 8 0
  = Raise BlockingIOError.
Proof.
  destruct (recv_exact_timeout (Socket [(0.75%float, ["B"]%byte)] None 0 (fun _ => None))
              8 (-1)) as (_ & H1 & _).
  destruct (recv_exact_timeout (Socket [(0.75%float, ["B"]%byte)] None 0 (fun _ => None))
              8 0.5) as (_ & _ & H2).
  destruct (recv_exact_timeout (Socket [(0.75%float, ["B"]%byte)] None 0 (fun _ => None))
              8 0) as (_ & _ & H3).
  split; [apply H1; reflexivity|]. split.
  - apply H2; [repeat split|lia|]. left. do 3 eexists. split; reflexivity.
  - apply H3; [repeat split|lia|]. left. do 3 eexists. split; reflexivity.
Defined.

(** ** Words of 32 bits *)

(** X16: [_rd_u32] reads what [_be_u32] writes. [_be_u32] returns four
    bytes for a number from 0 to 2^32 - 1 and raises [struct.error] for any
    other; wherever its four bytes stand in a buffer, [_rd_u32] at their
    offset returns the number and the offset after them. *)
Theorem _rd_u32_inverts_be_u32 (n : Z) :
  (forall b : bytes,
      _be_u32 n = Ok b ->
      len b = 4 /\
      forall pre post : bytes, _rd_u32 (pre ++ b ++ post) (len pre) = Ok (n, len pre + 4)) /\
  (_be_u32 n = Raise StructError <-> ~ 0 <= n < 2 ^ 32).
Proof.
  split.
  - intros b Hb. apply _be_u32_ok in Hb. destruct Hb as (Hn & ->).
    split; [apply len_be32|]. intros pre post. apply _rd_u32_at. exact Hn.
  - unfold _be_u32, pack_u32.
    destruct ((0 <=? n) && (n <? 2 ^ 32)) eqn:E.
    + apply andb_true_iff in E. destruct E as [E1 E2].
      apply Z.leb_le in E1. apply Z.ltb_lt in E2.
      split; [discriminate|]. intros H. exfalso. apply H. lia.
    + split; [|reflexivity]. intros _ [H1 H2].
      apply Z.leb_le in H1. apply Z.ltb_lt in H2. rewrite H1, H2 in E. discriminate E.
Qed.

Lemma _rd_u32_inverts_be_u32_witness :
  _be_u32 0x101 = Ok [x00; x00; x01; x01] /\
  _rd_u32 ([xff] ++ [x00; x00; x01; x01] ++ [xff]) 1 = Ok (0x101, 5) /\
  _be_u32 (2 ^ 32) = Raise StructError.
Proof.
  split; [reflexivity|].
  destruct (_rd_u32_inverts_be_u32 0x101) as [H _].
  destruct (H [x00; x00; x01; x01] eq_refl) as [_ Hr].
  split; [exact (Hr [xff] [xff])|].
  apply (proj2 (_rd_u32_inverts_be_u32 (2 ^ 32))). lia.
Defined.

Lemma byte_of_Z_eq (z : Z) (b : byte) : z mod 256 = byte_to_Z b -> byte_of_Z z = b.
Proof.
  intros H. rewrite <- (byte_of_to_Z b). unfold byte_of_Z. rewrite H.
  pose proof (byte_to_Z_range b). rewrite (Z.mod_small (byte_to_Z b)) by lia.
  reflexivity.
Qed.

Lemma be32_of_be32 (b0 b1 b2 b3 : byte) : be32 (of_be32 b0 b1 b2 b3) = [b0; b1; b2; b3].
Proof.
  pose proof (byte_to_Z_range b0). pose proof (byte_to_Z_range b1).
  pose proof (byte_to_Z_range b2). pose proof (byte_to_Z_range b3).
  unfold be32, of_be32.
  change (2 ^ 24) with 16777216. change (2 ^ 16) with 65536. change (2 ^ 8) with 256.
  repeat f_equal; apply byte_of_Z_eq; Z.to_euclidean_division_equations; lia.
Qed.

(** X17: the Integer on the wire is canonical. Whatever four bytes follow
    the type tag of an Integer, [enc_integer] applied to the number that
    [_dec_int] reads from them writes the same four bytes again: with the
    wrap-around of [enc_integer], the four-byte words and the integers from
    -2^31 to 2^31 - 1 correspond one to one. *)
Theorem enc_integer_inverts_dec_int (b0 b1 b2 b3 : byte) :
  exists n : Z,
    _dec_int [b0; b1; b2; b3] 0 = Ok (n, 4) /\
    - 2 ^ 31 <= n < 2 ^ 31 /\
    enc_integer n = Ok (be32 T_INTEGER ++ [b0; b1; b2; b3]).
Proof.
  pose proof (of_be32_range b0 b1 b2 b3) as Hu.
  assert (Hrd : _rd_u32 [b0; b1; b2; b3] 0 = Ok (of_be32 b0 b1 b2 b3, 4)) by reflexivity.
  exists (to_signed32 (of_be32 b0 b1 b2 b3)).
  split; [exact (_dec_int_signed _ _ _ _ Hrd)|].
  split; [unfold to_signed32; destruct (of_be32 b0 b1 b2 b3 <? 2 ^ 31) eqn:E; lia|].
  unfold enc_integer. rewrite land_mask32.
  replace (to_signed32 (of_be32 b0 b1 b2 b3) mod 2 ^ 32) with (of_be32 b0 b1 b2 b3).
  - rewrite (_be_u32_in_range T_INTEGER) by (cbv; split; congruence).
    rewrite (_be_u32_in_range (of_be32 b0 b1 b2 b3)) by exact Hu.
    cbn [bind]. rewrite be32_of_be32. reflexivity.
  - unfold to_signed32. change (2 ^ 32) with 4294967296 in *.
    change (2 ^ 31) with 2147483648.
    destruct (of_be32 b0 b1 b2 b3 <? 2147483648) eqn:E;
      Z.to_euclidean_division_equations; lia.
Qed.

(** ** Strings under the default encoding *)

Lemma utf8_encode_char_not_scalar (c : Z) : scalar c = false -> utf8_encode_char c = None.
Proof.
  unfold scalar, in_range, utf8_encode_char. intros H.
  destruct (c <? 0) eqn:E0; [reflexivity|].
  destruct (0 <=? c) eqn:E1; [|lia]. cbn [andb] in H.
  destruct (c <? 0x110000) eqn:E2; cbn [andb] in H.
  - apply negb_false_iff in H. apply andb_true_iff in H. destruct H as [H1 H2].
    rewrite H1, H2. cbn [andb].
    destruct (c <? 0x80) eqn:E3; [lia|]. destruct (c <? 0x800) eqn:E4; [lia|].
    destruct (c <? 0x10000) eqn:E5; [reflexivity|lia].
  - destruct (c <? 0x80) eqn:E3; [lia|]. destruct (c <? 0x800) eqn:E4; [lia|].
    destruct (c <? 0x10000) eqn:E5; [lia|]. reflexivity.
Qed.

Lemma utf8_encode_not_scalar (s : pystr) : forallb scalar s = false -> utf8_encode s = None.
Proof.
  induction s as [|c s IH]; cbn [forallb utf8_encode]; [discriminate|].
  intros H. destruct (scalar c) eqn:Ec.
  - cbn [andb] in H. rewrite (IH H). destruct (utf8_encode_char c); reflexivity.
  - rewrite (utf8_encode_char_not_scalar c Ec). reflexivity.
Qed.

(** X18: the Strings of the default encoding. Under the default encoding,
    UTF-8, [enc_string] encodes every text that holds no surrogate code point
    and nothing outside U+0000 to U+10FFFF, and [dec_data] returns exactly
    that text from the bytes, wherever they stand in a buffer; for any other
    text [enc_string] raises [UnicodeEncodeError]. *)
Theorem enc_string_default_encoding (s : pystr) :
  (forallb scalar s = true ->
   forall bs : bytes,
     enc_string s DEFAULT_ENCODING = Ok bs ->
     forall pre post : bytes,
       dec_data (pre ++ bs ++ post) DEFAULT_ENCODING (len pre)
       = Ok (VStr s, len pre + len bs)) /\
  (forallb scalar s = false ->
   enc_string s DEFAULT_ENCODING = Raise UnicodeEncodeError).
Proof.
  split.
  - intros Hs bs Henc pre post.
    assert (Hrep : representable DEFAULT_ENCODING (VStr s) = true)
      by (apply utf8_text_ok; exact Hs).
    destruct (representable_round_trips (fun _ _ => 0%float) DEFAULT_ENCODING
                (VStr s) Hrep bs Henc) as (fuel & Hf).
    apply (dec_data_of_fuel _ _ _ fuel). apply (Hf _ (len pre) post).
    exists pre. split; reflexivity.
  - intros Hs. unfold enc_string, _b. cbn [str_encode DEFAULT_ENCODING utf8].
    rewrite (utf8_encode_not_scalar s Hs). reflexivity.
Qed.

Lemma enc_string_default_encoding_witness :
  (exists bs : bytes,
      enc_string (text "aé€😀") DEFAULT_ENCODING = Ok bs /\
      dec_data bs DEFAULT_ENCODING 0 = Ok (VStr (text "aé€😀"), len bs)) /\
  enc_string [0xD800] DEFAULT_ENCODING = Raise UnicodeEncodeError.
Proof.
  split.
  - destruct (enc_string (text "aé€😀") DEFAULT_ENCODING) as [bs| |] eqn:E;
      [|discriminate E..].
    exists bs. split; [reflexivity|].
    pose proof (proj1 (enc_string_default_encoding (text "aé€😀")) eq_refl bs E [] [])
      as H.
    rewrite app_nil_r in H. exact H.
  - apply (proj2 (enc_string_default_encoding [0xD800])). reflexivity.
Defined.

(** ** A value that is cut off *)

Lemma cut_short_cases {A : Type} (r : result A) :
  cut_short r -> r = Raise StructError \/ r = Raise IndexError.
Proof.
  intros (e & -> & He). destruct e; try discriminate He; auto.
Qed.

(** X19: a value that is cut off is noticed, unless it is cut in a final
    String. Take a value of the round trip whose encoding does not end with
    the bytes of a String, a key apart. From any buffer that holds only a
    strict prefix of its encoding, [dec_data] raises [struct.error] or
    [IndexError]: it returns no value made of what is there. *)
Theorem dec_data_strict_prefix
  (math_log : float -> float -> float) (encoding : codec) (v : value)
  (bs P tail : bytes) :
  representable encoding v = true -> trailing_text encoding v = false ->
  enc_data math_log v encoding = Ok bs ->
  bs = P ++ tail -> tail <> [] ->
  dec_data P encoding 0 = Raise StructError \/ dec_data P encoding 0 = Raise IndexError.
Proof.
  intros Hrep Htt Henc Hsplit Hne. apply cut_short_cases.
  assert (Hone : cut_short (dec_data (removelast bs) encoding 0)).
  { apply (dec_data_cut_when_short math_log encoding v bs); try assumption.
    exists []. split; reflexivity. }
  rewrite Hsplit, removelast_app in Hone by exact Hne.
  pose proof (dec_data_shorter P (removelast tail) encoding 0 ltac:(lia)) as Hs.
  destruct Hone as (e & He & Ht). rewrite He in Hs. cbn [same_end] in Hs.
  apply Hs. exact Ht.
Qed.

Lemma dec_data_strict_prefix_witness :
  exists bs : bytes,
    enc_data log2_floor (VList [VStr (text "ab"); VInt 7]) DEFAULT_ENCODING = Ok bs /\
    len bs = 26 /\
    (dec_data (firstn 21 bs) DEFAULT_ENCODING 0 = Raise StructError \/
     dec_data (firstn 21 bs) DEFAULT_ENCODING 0 = Raise IndexError).
Proof.
  destruct (enc_data log2_floor (VList [VStr (text "ab"); VInt 7]) DEFAULT_ENCODING)
    as [bs| |] eqn:E; [|discriminate E..].
  exists bs. split; [reflexivity|].
  assert (Hl : len bs = 26) by (vm_compute in E; injection E as <-; reflexivity).
  split; [exact Hl|].
  apply (dec_data_strict_prefix log2_floor DEFAULT_ENCODING
           (VList [VStr (text "ab"); VInt 7]) bs (firstn 21 bs) (skipn 21 bs)
           eq_refl eq_refl E).
  - symmetry. apply firstn_skipn.
  - intros Hnil. apply (f_equal (@length byte)) in Hnil. rewrite length_skipn in Hnil.
    unfold len in Hl. cbn [length] in Hnil. lia.
Defined.

(** ** No encoding begins another *)

(** X20: the encoding is prefix-free on the values of the round trip. When
    the bytes of one such value begin the bytes of another, the two values
    are the same value and the bytes are the same bytes: no two of these
    values share an encoding, and none can be taken for the beginning of
    another. *)
Theorem enc_data_prefix_free
  (math_log : float -> float -> float) (encoding : codec) (v1 v2 : value)
  (bs1 bs2 post : bytes) :
  representable encoding v1 = true -> representable encoding v2 = true ->
  enc_data math_log v1 encoding = Ok bs1 ->
  enc_data math_log v2 encoding = Ok bs2 ->
  bs2 = bs1 ++ post ->
  v1 = v2 /\ post = [].
Proof.
  intros Hr1 Hr2 He1 He2 Hpost.
  destruct (representable_round_trips math_log encoding v1 Hr1 bs1 He1) as (f1 & Hf1).
  destruct (representable_round_trips math_log encoding v2 Hr2 bs2 He2) as (f2 & Hf2).
  assert (H1 : dec_data bs2 encoding 0 = Ok (v1, 0 + len bs1)).
  { apply (dec_data_of_fuel _ _ _ f1). apply (Hf1 bs2 0 post).
    exists []. split; [exact Hpost|reflexivity]. }
  assert (H2 : dec_data bs2 encoding 0 = Ok (v2, 0 + len bs2)).
  { apply (dec_data_of_fuel _ _ _ f2). apply (Hf2 bs2 0 []).
    exists []. rewrite app_nil_r. split; reflexivity. }
  rewrite H1 in H2. injection H2 as Hv Hl. split; [exact Hv|].
  rewrite Hpost, len_app in Hl. apply len_zero_nil. lia.
Qed.

Lemma enc_data_prefix_free_witness :
  enc_data log2_floor (VList [VInt 1]) DEFAULT_ENCODING
  = Ok (be32 T_ARRAY ++ be32 1 ++ be32 T_INTEGER ++ be32 1) /\
  VList [VInt 1] = VList [VInt 1] /\
  @nil byte = [].
Proof.
  split; [reflexivity|].
  exact (enc_data_prefix_free log2_floor DEFAULT_ENCODING (VList [VInt 1]) (VList [VInt 1])
           (be32 T_ARRAY ++ be32 1 ++ be32 T_INTEGER ++ be32 1)
           (be32 T_ARRAY ++ be32 1 ++ be32 T_INTEGER ++ be32 1) []
           eq_refl eq_refl eq_refl eq_refl eq_refl).
Defined.

(** ** Bytes after the last value of a frame *)

(** X21: [dec_response] reads one value and looks no further. A response
    frame with a well-formed header, any four bytes of status, the bytes of a
    value of the round trip under the default encoding, and then any bytes
    at all, is decoded to that value: what follows the payload is ignored
    without an error. *)
Theorem dec_response_ignores_trailing_bytes (math_log : float -> float -> float)
  (v : value) (status payload junk : bytes) :
  representable DEFAULT_ENCODING v = true ->
  enc_data math_log v DEFAULT_ENCODING = Ok payload ->
  len status = 4 ->
  12 + len payload + len junk < 2 ^ 32 ->
  dec_response (HDR_RES ++ be32 (12 + len payload + len junk)
                  ++ status ++ payload ++ junk)
  = Ok (Some v).
Proof.
  intros Hrep Henc Hs Hl.
  exact (dec_response_payload math_log v status payload junk Hrep Henc Hs Hl).
Qed.

Lemma dec_response_ignores_trailing_bytes_witness :
  dec_response (HDR_RES ++ be32 (12 + 5 + 2) ++ be32 9 ++ (be32 T_BOOL ++ [x01])
                  ++ [xff; xff])
  = Ok (Some (VBool true)).
Proof.
  exact (dec_response_ignores_trailing_bytes log2_floor (VBool true) (be32 9)
           (be32 T_BOOL ++ [x01]) [xff; xff] eq_refl eq_refl eq_refl eq_refl).
Defined.

Lemma dec_request_body_trailing
  (math_log : float -> float -> float) (encoding : codec)
  (method : pystr) (params : list value) (m n c ps junk : bytes) :
  text_ok encoding method = true ->
  forallb (representable encoding) params = true ->
  _b method encoding = Ok m ->
  _be_u32 (len m) = Ok n ->
  _be_u32 (len params) = Ok c ->
  enc_array_items (fun p => enc_data math_log p encoding) params = Ok ps ->
  dec_request_body ((n ++ m ++ c ++ ps) ++ junk) encoding = Ok (method, params).
Proof.
  intros Hm Hrep Em En Ec Eps. unfold dec_request_body.
  set (body := (n ++ m ++ c ++ ps) ++ junk).
  assert (Hat : at_offset body 0 (n ++ m ++ c ++ ps ++ junk)).
  { exists []. split; [|reflexivity]. unfold body. rewrite <- !app_assoc. reflexivity. }
  rewrite (_dec_string_at_offset body encoding 0 method m n _ Hm Em En Hat). cbn [bind].
  apply at_offset_app in Hat. apply at_offset_app in Hat.
  pose proof (_be_u32_ok _ _ En) as (_ & ->). pose proof (_be_u32_ok _ _ Ec) as (Hc & ->).
  rewrite len_be32 in Hat. rewrite (_rd_u32_at_offset _ _ _ _ Hat Hc). cbn [bind].
  apply at_offset_app in Hat. rewrite len_be32 in Hat.
  destruct (params_loop_round_trip math_log encoding params Hrep ps Eps) as (f0 & Hf0).
  pose proof (Hf0 (Nat.max f0 (S (length body))) (Nat.le_max_l _ _) body _ junk [] Hat)
    as Hloop.
  rewrite (dec_params_loop_mono body encoding (S (length body))) in Hloop.
  - rewrite Hloop. reflexivity.
  - apply Nat.le_max_r.
  - pose proof (len_nonneg body). pose proof (len_nonneg m).
    apply dec_params_loop_enough; [lia|lia|]. unfold len in *. lia.
Qed.

(** X22: [dec_request] reads the parameters the count announces and looks no
    further. Take the frame [enc_request] builds from a method name and
    parameters of the round trip, put any bytes after it and set the length
    field to the new length: [dec_request] returns the same method name and
    parameters, without an error for the bytes that follow. *)
Theorem dec_request_ignores_trailing_bytes
  (math_log : float -> float -> float) (encoding : codec)
  (method : pystr) (params : list value) (frame junk : bytes) :
  text_ok encoding method = true ->
  forallb (representable encoding) params = true ->
  enc_request math_log method params encoding = Ok frame ->
  len frame + len junk < 2 ^ 32 ->
  dec_request (HDR_REQ ++ be32 (len frame + len junk)
                 ++ slice frame 8 (len frame) ++ junk) encoding
  = Ok (method, params).
Proof.
  intros Hm Hrep Henc Hl. apply enc_request_ok in Henc.
  destruct Henc as (m & n & c & ps & Em & En & Ec & Eps & _ & Hf).
  pose proof (dec_request_body_trailing math_log encoding method params m n c ps junk
                Hm Hrep Em En Ec Eps) as Hbody.
  remember (n ++ m ++ c ++ ps) as body eqn:Hb. clear Hb.
  assert (Hs : slice frame 8 (len frame) = body).
  { rewrite Hf.
    change (HDR_REQ ++ be32 (8 + len body) ++ body)
      with ((HDR_REQ ++ be32 (8 + len body)) ++ body).
    apply slice_body. reflexivity. }
  assert (Hlen : len frame = 8 + len body).
  { rewrite Hf, !len_app, len_be32. change (len HDR_REQ) with 4. lia. }
  rewrite Hs, Hlen in *.
  replace (8 + len body + len junk) with (8 + len (body ++ junk))
    by (rewrite len_app; lia).
  rewrite dec_request_restamped by (rewrite len_app; lia).
  exact Hbody.
Qed.

Lemma dec_request_ignores_trailing_bytes_witness :
  exists frame : bytes,
    enc_request log2_floor (text "ping") [VInt 1] DEFAULT_ENCODING = Ok frame /\
    len frame = 28 /\
    dec_request (HDR_REQ ++ be32 (28 + 3) ++ slice frame 8 28 ++ [xff; xff; xff])
      DEFAULT_ENCODING
    = Ok (text "ping", [VInt 1]).
Proof.
  destruct (enc_request log2_floor (text "ping") [VInt 1] DEFAULT_ENCODING)
    as [frame| |] eqn:E; [|discriminate E..].
  exists frame. split; [reflexivity|].
  assert (Hl : len frame = 28) by (vm_compute in E; injection E as <-; reflexivity).
  split; [exact Hl|].
  pose proof (dec_request_ignores_trailing_bytes log2_floor DEFAULT_ENCODING
                (text "ping") [VInt 1] frame [xff; xff; xff] eq_refl eq_refl E) as H.
  rewrite Hl in H. apply H. reflexivity.
Defined.

(** ** When the encoder returns *)

Lemma _b_text_ok (encoding : codec) (s : pystr) :
  text_ok encoding s = true -> text_fits encoding s = true ->
  exists b : bytes, _b s encoding = Ok b /\ _be_u32 (len b) = Ok (be32 (len b)).
Proof.
  intros Hs Hf. apply text_ok_spec in Hs. destruct Hs as (b & Hb & _).
  unfold text_fits in Hf. rewrite Hb in Hf. apply Z.ltb_lt in Hf.
  exists b. unfold _b. rewrite Hb. split; [reflexivity|].
  apply _be_u32_in_range. pose proof (len_nonneg b). lia.
Qed.

Section Returns.

Variable math_log : float -> float -> float.
Variable encoding : codec.

Lemma enc_array_items_returns (a : list value) :
  Forall (fun v => representable encoding v = true -> lengths_fit encoding v = true ->
                   exists bs : bytes, enc_data math_log v encoding = Ok bs) a ->
  forallb (representable encoding) a = true ->
  forallb (lengths_fit encoding) a = true ->
  exists items : bytes,
    enc_array_items (fun el => enc_data math_log el encoding) a = Ok items.
Proof.
  induction 1 as [|v a Hv _ IH]; cbn [forallb enc_array_items]; intros Hr Hf.
  - eexists. reflexivity.
  - apply andb_true_iff in Hr, Hf. destruct Hr as [Hr1 Hr2]. destruct Hf as [Hf1 Hf2].
    destruct (Hv Hr1 Hf1) as (b & ->). destruct (IH Hr2 Hf2) as (bs & ->).
    eexists. reflexivity.
Qed.

Lemma enc_struct_items_returns (d : list (pystr * value)) :
  Forall (fun kv => representable encoding (snd kv) = true ->
                    lengths_fit encoding (snd kv) = true ->
                    exists bs : bytes, enc_data math_log (snd kv) encoding = Ok bs) d ->
  forallb (fun kv => match kv with
                     | (k, v') => text_ok encoding k && representable encoding v'
                     end) d = true ->
  forallb (fun kv => match kv with
                     | (k, v') => text_fits encoding k && lengths_fit encoding v'
                     end) d = true ->
  exists items : bytes,
    enc_struct_items (fun el => enc_data math_log el encoding) encoding d = Ok items.
Proof.
  induction 1 as [|[k v] d Hv _ IH]; cbn [forallb enc_struct_items]; intros Hr Hf.
  - eexists. reflexivity.
  - apply andb_true_iff in Hr, Hf. destruct Hr as [Hr1 Hr2]. destruct Hf as [Hf1 Hf2].
    apply andb_true_iff in Hr1, Hf1. destruct Hr1 as [Hk Hr1]. destruct Hf1 as [Hkf Hf1].
    destruct (_b_text_ok encoding k Hk Hkf) as (kb & Hkb & Hn).
    rewrite Hkb. cbn [bind]. rewrite Hn. cbn [bind].
    cbn [snd] in Hv. destruct (Hv Hr1 Hf1) as (b & ->). destruct (IH Hr2 Hf2) as (bs & ->).
    eexists. reflexivity.
Qed.

Lemma enc_data_returns_all (v : value) :
  representable encoding v = true -> lengths_fit encoding v = true ->
  exists bs : bytes, enc_data math_log v encoding = Ok bs.
Proof.
  induction v as [b|n|x|s|a IH|a IH|d IH|repr] using value_ind;
    cbn [representable lengths_fit]; intros Hr Hf; try discriminate Hr.
  - eexists. reflexivity.
  - unfold enc_data, enc_integer. rewrite land_mask32.
    rewrite (_be_u32_in_range (n mod 2 ^ 32)) by (apply Z.mod_pos_bound; lia).
    eexists. reflexivity.
  - destruct (_b_text_ok encoding s Hr Hf) as (b & Hb & Hn).
    cbn [enc_data]. unfold enc_string. rewrite Hb. cbn [bind]. rewrite Hn.
    eexists. reflexivity.
  - apply andb_true_iff in Hf. destruct Hf as [Hl Hf]. apply Z.ltb_lt in Hl.
    destruct (enc_array_items_returns a IH Hr Hf) as (items & Hi).
    cbn [enc_data]. rewrite (_be_u32_in_range (len a)) by (pose proof (len_nonneg a); lia).
    cbn [bind]. rewrite Hi. eexists. reflexivity.
  - apply andb_true_iff in Hf. destruct Hf as [Hl Hf]. apply Z.ltb_lt in Hl.
    apply andb_true_iff in Hr. destruct Hr as [_ Hr].
    destruct (enc_struct_items_returns d IH Hr Hf) as (items & Hi).
    cbn [enc_data]. rewrite (_be_u32_in_range (len d)) by (pose proof (len_nonneg d); lia).
    cbn [bind]. rewrite Hi. eexists. reflexivity.
Qed.

End Returns.

(** X23: [enc_data] returns on the values of the round trip. For a value
    built from Integers of 32 bits, Bools, Strings that the text encoding
    encodes, lists and dicts, in which every text has fewer than 2^32 bytes
    and every list and dict fewer than 2^32 elements, the encoders raise
    none of their exceptions ([UnicodeEncodeError], [struct.error],
    [OverflowError], [ValueError]): [enc_data] returns bytes, and [dec_data]
    gives the value back from them. (The interpreter's own limits are
    outside the model: [enc_data] and [enc_array] or [enc_struct] call each
    other once for every level of nesting, and a value nested deeper than
    the stack allows ends in a [RecursionError].) *)
Theorem enc_data_returns
  (math_log : float -> float -> float) (encoding : codec) (v : value) :
  representable encoding v = true -> lengths_fit encoding v = true ->
  exists bs : bytes,
    enc_data math_log v encoding = Ok bs /\
    dec_data bs encoding 0 = Ok (v, len bs).
Proof.
  intros Hr Hf. destruct (enc_data_returns_all math_log encoding v Hr Hf) as (bs & Hbs).
  exists bs. split; [exact Hbs|].
  destruct (representable_round_trips math_log encoding v Hr bs Hbs) as (fuel & Hfuel).
  apply (dec_data_of_fuel _ _ _ fuel). apply (Hfuel bs 0 []).
  exists []. rewrite app_nil_r. split; reflexivity.
Qed.

Lemma enc_data_returns_witness :
  exists bs : bytes,
    enc_data log2_floor nested_example DEFAULT_ENCODING = Ok bs /\
    dec_data bs DEFAULT_ENCODING 0 = Ok (nested_example, len bs).
Proof.
  exact (enc_data_returns log2_floor DEFAULT_ENCODING nested_example eq_refl eq_refl).
Defined.

(** ** The sign of a Double that comes out *)

Lemma binary_round_aux_sign_clear (m e : Z) (l : location) :
  sign_clear (binary_round_aux prec emax false m e l) = true.
Proof.
  unfold binary_round_aux.
  destruct (shr_fexp prec emax m e l) as [mrs e'].
  destruct (shr_fexp prec emax _ e' loc_Exact) as [mrs' e''].
  destruct (shr_m mrs'); [reflexivity| |reflexivity].
  destruct (e'' <=? emax - prec); reflexivity.
Qed.

Lemma binary_round_sign_clear (m : positive) (e : Z) :
  sign_clear (binary_round prec emax false m e) = true.
Proof.
  unfold binary_round. destruct (shl_align _ _ _) as [mz ez].
  apply binary_round_aux_sign_clear.
Qed.

Lemma SFmul_sign_clear (x y : spec_float) :
  sign_clear x = true -> sign_clear y = true -> sign_clear (SFmul prec emax x y) = true.
Proof.
  destruct x as [sx|sx| |sx mx ex], y as [sy|sy| |sy my ey]; cbn [sign_clear SFmul];
    intros Hx Hy; try reflexivity;
    apply negb_true_iff in Hx, Hy; subst; try reflexivity.
  apply binary_round_aux_sign_clear.
Qed.

Lemma SFdiv_sign_clear (x y : spec_float) :
  sign_clear x = true -> sign_clear y = true -> sign_clear (SFdiv prec emax x y) = true.
Proof.
  destruct x as [sx|sx| |sx mx ex], y as [sy|sy| |sy my ey]; cbn [sign_clear SFdiv];
    intros Hx Hy; try reflexivity;
    apply negb_true_iff in Hx, Hy; subst; try reflexivity.
  destruct (SFdiv_core_binary _ _ _ _ _ _) as [[mz ez] lz].
  apply binary_round_aux_sign_clear.
Qed.

Lemma float_of_int_sign_clear (z : Z) (f : float) :
  0 <= z < 2 ^ 32 -> float_of_int z = Ok f -> sign_clear (Prim2SF f) = true.
Proof.
  intros Hz H. unfold float_of_int in H.
  destruct (is_infinity _); [discriminate H|]. injection H as <-.
  assert (Hn : binary_normalize prec emax z 0 false = Prim2SF (of_uint63 (Uint63.of_Z z))).
  { rewrite of_uint63_spec, Uint63.of_Z_spec, Z.mod_small; [reflexivity|].
    change Uint63.wB with (2 ^ 63). lia. }
  rewrite Hn, SF2Prim_Prim2SF, <- Hn.
  destruct z as [|m|m]; cbn [binary_normalize]; [reflexivity| |lia].
  apply binary_round_sign_clear.
Qed.

Lemma float_of_pow2_sign_clear (k : Z) (p : float) :
  float_of_pow2 k = Ok p -> sign_clear (Prim2SF p) = true.
Proof.
  unfold float_of_pow2. destruct (1024 <=? k); [discriminate|]. intros [= <-].
  rewrite Z_ldexp_spec.
  change (Prim2SF one) with (S754_finite false 4503599627370496 (-52)).
  cbn [SFldexp]. apply binary_round_sign_clear.
Qed.

Lemma sign_clear_not_negative (x : float) :
  sign_clear (Prim2SF x) = true -> (x <? 0)%float = false.
Proof.
  rewrite ltb_spec. change (Prim2SF 0) with (S754_zero false).
  destruct (Prim2SF x) as [s|s| |s m e]; cbn [sign_clear]; intros H;
    try apply negb_true_iff in H; subst; reflexivity.
Qed.

Lemma _dec_double_not_negative (buf : bytes) (ofs : Z) (x : float) (ofs' : Z) :
  _dec_double buf ofs = Ok (x, ofs') -> (x <? 0)%float = false.
Proof.
  unfold _dec_double. intros H. inv_ok. subst x.
  apply sign_clear_not_negative. rewrite mul_spec, div_spec.
  match goal with
  | Hm : _rd_u32 _ _ = Ok _ |- _ => apply _rd_u32_ok in Hm; destruct Hm as (_ & _ & Hr)
  end.
  apply SFmul_sign_clear; [apply SFdiv_sign_clear|].
  - eapply float_of_int_sign_clear; [exact Hr|eassumption].
  - eapply float_of_int_sign_clear; [|eassumption]. cbv. split; congruence.
  - eapply float_of_pow2_sign_clear. eassumption.
Qed.

(** X24: no negative Double comes out. Whatever the buffer holds, a Double
    that [dec_data] returns is not less than zero: the mantissa is read as an
    unsigned number, so the bytes that [enc_double] writes for a negative
    double are never decoded to that double. *)
Theorem dec_data_double_not_negative (buf : bytes) (encoding : codec) (ofs : Z)
  (x : float) (ofs' : Z) :
  dec_data buf encoding ofs = Ok (VFloat x, ofs') -> (x <? 0)%float = false.
Proof.
  intros H. unfold dec_data in H. cbn [dec_data_fuel] in H. inv_ok.
  repeat match type of H with
         | (if ?c then _ else _) = _ => destruct c
         end; inv_ok; try discriminate H.
  subst. eapply _dec_double_not_negative. eassumption.
Qed.

Lemma dec_data_double_not_negative_witness :
  enc_double log2_floor (-1)%float = Ok (be32 T_DOUBLE ++ be32 1 ++ be32 0xE0000000) /\
  dec_data (be32 T_DOUBLE ++ be32 1 ++ be32 0xE0000000) DEFAULT_ENCODING 0
  = Ok (VFloat 7%float, 12) /\
  (7 <? 0)%float = false.
Proof.
  split; [reflexivity|]. split; [reflexivity|].
  apply (dec_data_double_not_negative (be32 T_DOUBLE ++ be32 1 ++ be32 0xE0000000)
           DEFAULT_ENCODING 0 7%float 12).
  reflexivity.
Defined.

(** ** A frame whose body is too short *)

(** X25: a frame with a well-formed header and fewer than four bytes of body
    makes the frame decoders raise [struct.error]. [dec_response] does not
    return [None] for a frame that lacks the status field, and neither
    decoder reports such a frame as an invalid frame. *)
Theorem frame_short_body (body : bytes) (encoding : codec) :
  len body < 4 ->
  dec_response (HDR_RES ++ be32 (8 + len body) ++ body) = Raise StructError /\
  dec_request (HDR_REQ ++ be32 (8 + len body) ++ body) encoding = Raise StructError.
Proof.
  intros H. pose proof (len_nonneg body).
  rewrite dec_response_restamped, dec_request_restamped by lia.
  unfold dec_request_body, _dec_string.
  rewrite (_rd_u32_past_end body 0) by lia. split; reflexivity.
Qed.

Lemma frame_short_body_witness :
  dec_response (HDR_RES ++ be32 8) = Raise StructError /\
  dec_request (HDR_REQ ++ be32 8) DEFAULT_ENCODING = Raise StructError.
Proof.
  apply (frame_short_body [] DEFAULT_ENCODING). reflexivity.
Defined.

(** ** Doubles that are no finite number *)

(** X26: a double that is no finite number is not encoded. [math.log] of
    a NaN being a NaN and [math.log] of infinity being infinity, as the C
    library has them, [enc_double] raises a [ValueError] for a NaN and an
    [OverflowError] for either infinity; [enc_data] raises the same for such
    a float. *)
Theorem enc_double_not_finite (math_log : float -> float -> float) (encoding : codec) :
  math_log nan 2%float = nan -> math_log infinity 2%float = infinity ->
  enc_data math_log (VFloat nan) encoding = Raise (ValueError FloatNaN) /\
  enc_data math_log (VFloat infinity) encoding = Raise OverflowError /\
  enc_data math_log (VFloat neg_infinity) encoding = Raise OverflowError.
Proof.
  intros Hnan Hinf. cbn [enc_data]. unfold enc_double, _enc_double_parts.
  change ((nan =? 0)%float) with false. change ((infinity =? 0)%float) with false.
  change ((neg_infinity =? 0)%float) with false. cbv iota.
  change (abs nan) with nan. change (abs infinity) with infinity.
  change (abs neg_infinity) with infinity.
  rewrite Hnan, Hinf. repeat split.
Qed.

Lemma enc_double_not_finite_witness :
  enc_data (fun x _ => x) (VFloat nan) DEFAULT_ENCODING = Raise (ValueError FloatNaN) /\
  enc_data (fun x _ => x) (VFloat infinity) DEFAULT_ENCODING = Raise OverflowError.
Proof.
  destruct (enc_double_not_finite (fun x _ => x) DEFAULT_ENCODING eq_refl eq_refl)
    as (H1 & H2 & _).
  split; [exact H1|exact H2].
Defined.
